(** * A shallow embedding of the K MIDI DECoder core ([kmididec.c])

    Bytes are [Z] values in [0, 256); fixed-width C integers are [Z] with their
    wrap-around written out ([u8], [u16], [u32], [u64] for unsigned types,
    [s32] for the implementation-defined conversion to [int]).  The memory
    file, the tracks and the decoder are records; the per-track parsers run in
    a small state/error monad over the current track and the decoder.

    Reading past the end of the in-memory file leaves the destination buffer
    as it was ([memRead] returns 0 and copies nothing); the contents of a
    not-yet-written local array or variable are modelled by the section
    variable [garbage], one fixed indeterminate byte. *)

From Stdlib Require Import ZArith List Bool Lia.
Import ListNotations.
Open Scope Z_scope.

(** ** Machine arithmetic *)

Definition u8 (x : Z) : Z := x mod 2 ^ 8.
Definition u16 (x : Z) : Z := x mod 2 ^ 16.
Definition u32 (x : Z) : Z := x mod 2 ^ 32.
Definition u64 (x : Z) : Z := x mod 2 ^ 64.
(** conversion of a wider value to [int] (two's complement, as gcc does) *)
Definition s32 (x : Z) : Z := (x + 2 ^ 31) mod 2 ^ 32 - 2 ^ 31.

(** ** Constants of kmididec.c / kmididec.h *)

Definition OS2MIDI : Z := 0xFFFF.
Definition END_OF_TRACK : Z := 0xFFFFFFFF.
Definition DEFAULT_TEMPO : Z := 500000.
Definition DEFAULT_NUMERATOR : Z := 4.
Definition DEFAULT_DENOMINATOR : Z := 4.
Definition CLOCK_BASE : Z := 1000000.
Definition DECODE_SEEK : Z := 0.
Definition DECODE_PLAY : Z := 1.
Definition SEEK_SET : Z := 0.
Definition SEEK_CUR : Z := 1.
Definition SEEK_END : Z := 2.
Definition KMDEC_SEEK_SET : Z := 0.
Definition KMDEC_SEEK_CUR : Z := 1.
Definition KMDEC_SEEK_END : Z := 2.
Definition KMDEC_BPS_S16 : Z := 16.
Definition KMDEC_BPS_FLOAT : Z := 32.

(** ** Data model *)

(** [KMEMFD]: the whole file slurped into memory ([size] is not observable). *)
Record kmemfd := mkMem {
  mbuffer : list Z;
  mlength : Z;
  moffset : Z
}.

(** [KMTRK] (the back pointer [dec] is the decoder passed alongside). *)
Record kmtrk := mkTrk {
  start : Z;
  length : Z;
  offset : Z;
  nextTick : Z;
  status : Z
}.

(** Calls made to fluidsynth, recorded in order (most recent first). *)
Inductive synth_call :=
| SNoteOff (ch key : Z)
| SNoteOn (ch key vel : Z)
| SCC (ch ctrl val : Z)
| SProgramChange (ch prog : Z)
| SChannelPressure (ch val : Z)
| SPitchBend (ch val : Z)
| SSystemReset
| SWrite (samples : Z).

(** [KMDEC]; the I/O, fluidsynth handles and the sample buffer contents are
    not modelled, only the lengths of the sample buffer. *)
Record kmdec := mkDec {
  mfd : kmemfd;
  format : Z;
  ntracks : Z;
  division : Z;
  tracks : list kmtrk;
  synth : list synth_call;
  clockUnit : Z;
  sampleRate : Z;
  sampleSize : Z;
  tempo : Z;
  numerator : Z;
  denominator : Z;
  tick : Z;
  clock : Z;
  duration : Z;
  bufLen : Z;
  bufPos : Z
}.

Definition set_moffset (m : kmemfd) (o : Z) : kmemfd :=
  mkMem (mbuffer m) (mlength m) o.

Definition set_offset (t : kmtrk) (o : Z) : kmtrk :=
  mkTrk (start t) (length t) o (nextTick t) (status t).
Definition set_nextTick (t : kmtrk) (n : Z) : kmtrk :=
  mkTrk (start t) (length t) (offset t) n (status t).
Definition set_status (t : kmtrk) (s : Z) : kmtrk :=
  mkTrk (start t) (length t) (offset t) (nextTick t) s.

Definition set_mfd (d : kmdec) (m : kmemfd) : kmdec :=
  mkDec m (format d) (ntracks d) (division d) (tracks d) (synth d)
    (clockUnit d) (sampleRate d) (sampleSize d) (tempo d) (numerator d)
    (denominator d) (tick d) (clock d) (duration d) (bufLen d) (bufPos d).
Definition emit (d : kmdec) (c : synth_call) : kmdec :=
  mkDec (mfd d) (format d) (ntracks d) (division d) (tracks d) (c :: synth d)
    (clockUnit d) (sampleRate d) (sampleSize d) (tempo d) (numerator d)
    (denominator d) (tick d) (clock d) (duration d) (bufLen d) (bufPos d).
Definition set_tempo (d : kmdec) (x : Z) : kmdec :=
  mkDec (mfd d) (format d) (ntracks d) (division d) (tracks d) (synth d)
    (clockUnit d) (sampleRate d) (sampleSize d) x (numerator d)
    (denominator d) (tick d) (clock d) (duration d) (bufLen d) (bufPos d).
Definition set_timesig (d : kmdec) (n dn : Z) : kmdec :=
  mkDec (mfd d) (format d) (ntracks d) (division d) (tracks d) (synth d)
    (clockUnit d) (sampleRate d) (sampleSize d) (tempo d) n
    dn (tick d) (clock d) (duration d) (bufLen d) (bufPos d).
Definition set_tracks (d : kmdec) (ts : list kmtrk) : kmdec :=
  mkDec (mfd d) (format d) (ntracks d) (division d) ts (synth d)
    (clockUnit d) (sampleRate d) (sampleSize d) (tempo d) (numerator d)
    (denominator d) (tick d) (clock d) (duration d) (bufLen d) (bufPos d).
Definition set_time (d : kmdec) (tk ck : Z) : kmdec :=
  mkDec (mfd d) (format d) (ntracks d) (division d) (tracks d) (synth d)
    (clockUnit d) (sampleRate d) (sampleSize d) (tempo d) (numerator d)
    (denominator d) tk ck (duration d) (bufLen d) (bufPos d).
Definition set_buf (d : kmdec) (len pos : Z) : kmdec :=
  mkDec (mfd d) (format d) (ntracks d) (division d) (tracks d) (synth d)
    (clockUnit d) (sampleRate d) (sampleSize d) (tempo d) (numerator d)
    (denominator d) (tick d) (clock d) (duration d) len pos.
Definition set_duration (d : kmdec) (x : Z) : kmdec :=
  mkDec (mfd d) (format d) (ntracks d) (division d) (tracks d) (synth d)
    (clockUnit d) (sampleRate d) (sampleSize d) (tempo d) (numerator d)
    (denominator d) (tick d) (clock d) x (bufLen d) (bufPos d).

(** ** Memory file ([memRead], [memSeek], [memTell]) *)

(** [memRead mfd buf n]: copies [min n (length - offset)] bytes over the
    front of [buf]; at end of file nothing is copied and 0 is returned.
    The source stores that minimum in an [int len]; every caller passes an
    [n] below 2^31 (a header of at most 10 bytes, one status or data byte,
    or a length read as a variable-length quantity, below 2^28), where the
    conversion changes nothing, so it is left out. *)
Definition memRead (m : kmemfd) (buf : list Z) (n : Z) : list Z * Z * kmemfd :=
  if (n =? 0) || (mlength m =? moffset m) then (buf, 0, m)
  else
    let len := Z.min n (mlength m - moffset m) in
    (firstn (Z.to_nat len) (skipn (Z.to_nat (moffset m)) (mbuffer m))
       ++ skipn (Z.to_nat len) buf,
     len, set_moffset m (moffset m + len)).

(** [memSeek]: [None] is the [-1] return (position out of [0, length]). *)
Definition memSeek (m : kmemfd) (off origin : Z) : option kmemfd :=
  let pos := if origin =? SEEK_SET then off
             else if origin =? SEEK_CUR then moffset m + off
             else mlength m + off in
  if (pos <? 0) || (mlength m <? pos) then None else Some (set_moffset m pos).

Definition memTell (m : kmemfd) : Z := moffset m.

(** ** The per-track parsers *)

(** Outcome of a parser: its return value with the (mutated) track and
    decoder, a [-1] return ([Fail], mutations made so far kept), a crash
    (integer division by zero) or a loop that never ends. *)
Inductive outcome (A : Type) :=
| Ret (a : A) (t : kmtrk) (d : kmdec)
| Fail (t : kmtrk) (d : kmdec)
| Crash
| Hang.
Arguments Ret {A} a t d.
Arguments Fail {A} t d.
Arguments Crash {A}.
Arguments Hang {A}.

Definition M (A : Type) : Type := kmtrk -> kmdec -> outcome A.

Definition ret {A} (a : A) : M A := fun t d => Ret a t d.
Definition fail {A} : M A := fun t d => Fail t d.
Definition bind {A B} (m : M A) (k : A -> M B) : M B := fun t d =>
  match m t d with
  | Ret a t' d' => k a t' d'
  | Fail t' d' => Fail t' d'
  | Crash => Crash
  | Hang => Hang
  end.

Notation "x <- m ;; k" := (bind m (fun x => k))
  (at level 61, m at next level, right associativity).

(** [buf[i] = x] on a local array *)
Fixpoint upd (l : list Z) (i : nat) (x : Z) : list Z :=
  match l, i with
  | [], _ => []
  | _ :: r, O => x :: r
  | y :: r, S j => y :: upd r j x
  end.

Section Parsers.

(** the contents of a local array or variable before anything is stored in it *)
Variable garbage : Z.

(** [readVarQ]: the loop body runs at most 4 times ([count >= 4] fails);
    [b] keeps its previous value when [memRead] hits the end of the file. *)
Fixpoint readVarQ_loop (fuel : nat) (b vq : Z) : M Z := fun t d =>
  match fuel with
  | O => Fail t d
  | S f =>
      let '(bs, _, m) := memRead (mfd d) [b] 1 in
      let b' := hd b bs in
      let t' := set_offset t (u32 (offset t + 1)) in
      let vq' := Z.lor (Z.shiftl vq 7) (Z.land b' 0x7F) in
      if Z.testbit b' 7 then readVarQ_loop f b' vq' t' (set_mfd d m)
      else Ret vq' t' (set_mfd d m)
  end.

Definition readVarQ : M Z := readVarQ_loop 4 garbage 0.

Definition decodeDelta : M unit := fun t d =>
  if length t <=? offset t then Ret tt (set_nextTick t END_OF_TRACK) d
  else (delta <- readVarQ ;;
        fun t d => Ret tt (set_nextTick t (u32 (nextTick t + delta))) d) t d.

(** [memRead(mfd, data, len)] into a fresh local array of [len] bytes *)
Definition read_data (len : Z) : M (list Z) := fun t d =>
  let '(data, _, m) := memRead (mfd d) (repeat garbage (Z.to_nat len)) len in
  Ret data (set_offset t (u32 (offset t + len))) (set_mfd d m).

Definition decodeMetaEvent : M unit := fun t d =>
  if length t <=? offset t then Ret tt t d
  else
    let '(tb, _, m) := memRead (mfd d) [garbage] 1 in
    let type := hd garbage tb in
    (len <- readVarQ ;;
     data <- read_data len ;;
     fun t d =>
       let b i := nth i data garbage in
       let check n := if len =? n then Ret tt t d else Fail t d in
       if type =? 0x00 then check 2
       else if type =? 0x20 then check 1
       else if type =? 0x2F then
         if (len =? 0) && (offset t =? length t) then Ret tt t d else Fail t d
       else if type =? 0x51 then
         if len =? 3 then
           Ret tt t (set_tempo d (Z.lor (Z.lor (Z.shiftl (b 0%nat) 16)
                                                (Z.shiftl (b 1%nat) 8)) (b 2%nat)))
         else Fail t d
       else if type =? 0x54 then check 5
       else if type =? 0x58 then
         if len =? 4 then
           Ret tt t (set_timesig d (b 0%nat) (u8 (Z.shiftl 1 (b 1%nat))))
         else Fail t d
       else if type =? 0x59 then check 2
       else Ret tt t d)
    (set_offset t (u32 (offset t + 1))) (set_mfd d m).

(** reading the status byte, with running status: [None] is a [-1] return *)
Definition read_status (t : kmtrk) (m : kmemfd) : option (Z * kmtrk * kmemfd) * kmtrk * kmemfd :=
  let '(sb, _, m) := memRead m [garbage] 1 in
  let st := hd garbage sb in
  let t := set_offset t (u32 (offset t + 1)) in
  if st <? 0x80 then
    match memSeek m (-1) KMDEC_SEEK_CUR with
    | None => (None, t, m)
    | Some m' => (Some (status t, set_offset t (u32 (offset t - 1)), m'), t, m)
    end
  else (Some (st, t, m), t, m).

(** the fluidsynth call of a channel event *)
Definition channel_call (event channel d0 d1 : Z) : option synth_call :=
  if event =? 0x80 then Some (SNoteOff channel d0)
  else if event =? 0x90 then Some (SNoteOn channel d0 d1)
  else if event =? 0xB0 then Some (SCC channel d0 d1)
  else if event =? 0xC0 then Some (SProgramChange channel d0)
  else if event =? 0xD0 then Some (SChannelPressure channel d0)
  else if event =? 0xE0 then Some (SPitchBend channel (Z.lor (Z.shiftl d1 7) d0))
  else None.

Definition emit_opt (d : kmdec) (c : option synth_call) : kmdec :=
  match c with Some c => emit d c | None => d end.

Definition decodeEvent : M unit := fun t d =>
  if length t <=? offset t then Ret tt t d
  else
    match memSeek (mfd d) (start t + offset t) SEEK_SET with
    | None => Fail t d
    | Some m0 =>
      match read_status t m0 with
      | (None, t1, m1) => Fail t1 (set_mfd d m1)
      | (Some (st, t1, m1), _, _) =>
        if st <? 0x80 then Fail t1 (set_mfd d m1)
        else
          let t2 := if st <? 0xF0 then set_status t1 st else t1 in
          let event := Z.land st 0xF0 in
          let channel := Z.land st 0x0F in
          (len <- (if (st =? 0xF0) || (st =? 0xF7) then readVarQ
                   else if st =? 0xFF then (_ <- decodeMetaEvent ;; ret 0)
                   else if (st =? 0xF3) || (event =? 0xC0) || (event =? 0xD0) then ret 1
                   else if (st =? 0xF1) || ((0xF4 <=? st) && (st <=? 0xF6))
                           || ((0xF8 <=? st) && (st <=? 0xFE)) then ret 0
                   else ret 2) ;;
           data <- read_data len ;;
           fun t d =>
             let last := if len =? 0 then garbage
                         else nth (Z.to_nat (len - 1)) data garbage in
             if (st =? 0xF0) && negb (last =? 0xF7) then Fail t d
             else
               let d0 := Z.land (nth 0 data garbage) 0x7F in
               let d1 := Z.land (nth 1 data garbage) 0x7F in
               decodeDelta t (emit_opt d (channel_call event channel d0 d1)))
          t2 (set_mfd d m1)
      end
    end.

(** [decodeOS2SysExEvent], first loop: [for (i = 0; i < 9; i++)] reading
    one byte into [sysex[i]], stopping at [0xF7]; returns the final [i]. *)
Fixpoint os2_sysex_fill (fuel : nat) (i : nat) (sx : list Z) (t : kmtrk) (m : kmemfd)
  : nat * list Z * kmtrk * kmemfd :=
  match fuel with
  | O => (i, sx, t, m)
  | S f =>
      let '(bs, _, m) := memRead m [nth i sx garbage] 1 in
      let x := hd (nth i sx garbage) bs in
      let sx := upd sx i x in
      let t := set_offset t (u32 (offset t + 1)) in
      if x =? 0xF7 then (i, sx, t, m) else os2_sysex_fill f (S i) sx t m
  end.

(** second loop: [do { memRead(sysex, 1); offset++ } while (sysex[0] != 0xF7)];
    at the end of the file [sysex[0]] no longer changes and the loop never
    ends ([None]). *)
Fixpoint os2_sysex_drain (fuel : nat) (s0 : Z) (t : kmtrk) (m : kmemfd)
  : option (kmtrk * kmemfd) :=
  match fuel with
  | O => None
  | S f =>
      let '(bs, k, m) := memRead m [s0] 1 in
      let s0 := hd s0 bs in
      let t := set_offset t (u32 (offset t + 1)) in
      if s0 =? 0xF7 then Some (t, m)
      else if k =? 0 then None
      else os2_sysex_drain f s0 t m
  end.

Definition decodeOS2SysExEvent : M unit := fun t d =>
  let '(i, sx, t, m) := os2_sysex_fill 9 0 (repeat garbage 9) t (mfd d) in
  let b j := nth j sx garbage in
  if (i =? 9)%nat then
    match os2_sysex_drain (S (Z.to_nat (mlength m - moffset m))) (b 0%nat) t m with
    | None => Hang
    | Some (t, m) => Ret tt t (set_mfd d m)
    end
  else
    let d := set_mfd d m in
    if (b 0%nat =? 0x00) && (b 1%nat =? 0x00) && (b 2%nat =? 0x3A) then
      let type := Z.land (b 3%nat) 0x7F in
      if type =? 1 then
        let ll := Z.land (b 4%nat) 0x7F in
        let mm := Z.land (b 5%nat) 0x7F in
        Ret tt (set_nextTick t (u32 (nextTick t + Z.lor (Z.shiftl mm 7) ll))) d
      else if 7 <=? type then
        Ret tt (set_nextTick t (u32 (nextTick t + type))) d
      else if type =? 3 then
        if b 4%nat =? 2 then
          let tl := Z.land (b 5%nat) 0x7F in
          let tm := Z.land (b 6%nat) 0x7F in
          let q := Z.lor (Z.shiftl tm 7) tl / 10 in
          if q =? 0 then Crash
          else Ret tt t (set_tempo d (60 * 1000000 / q))
        else Ret tt t d
      else Ret tt t d
    else Ret tt t d.

Definition decodeOS2Event : M unit := fun t d =>
  if length t <=? offset t then Ret tt (set_nextTick t END_OF_TRACK) d
  else
    match read_status t (mfd d) with
    | (None, t1, m1) => Fail t1 (set_mfd d m1)
    | (Some (st, t1, m1), _, _) =>
      if st <? 0x80 then Fail t1 (set_mfd d m1)
      else
        let t2 := if st <? 0xF0 then set_status t1 st else t1 in
        let event := Z.land st 0xF0 in
        let channel := Z.land st 0x0F in
        let len := if (event =? 0x80) || (event =? 0x90) || (event =? 0xA0)
                      || (event =? 0xB0) || (event =? 0xE0) then 2
                   else if (event =? 0xC0) || (event =? 0xD0) then 1 else 0 in
        (data <- read_data len ;;
         fun t d =>
           let d0 := Z.land (nth 0 data garbage) 0x7F in
           let d1 := Z.land (nth 1 data garbage) 0x7F in
           if event =? 0xF0 then
             if st =? 0xF8 then Ret tt (set_nextTick t (u32 (nextTick t + 1))) d
             else decodeOS2SysExEvent t d
           else Ret tt t (emit_opt d (channel_call event channel d0 d1)))
        t2 (set_mfd d m1)
    end.

End Parsers.

(** ** The scheduler ([decode]) *)

(** result of [decode]: its return value (0 or -1) and the decoder *)
Inductive dresult :=
| DRet (r : Z) (d : kmdec)
| DCrash
| DHang.

(** [int / int]: division by zero and [INT_MIN / -1] trap *)
Definition cdiv32 (a b : Z) : option Z :=
  if (b =? 0) || ((a =? - 2 ^ 31) && (b =? -1)) then None else Some (Z.quot a b).

(** result of step 1 of [decode] *)
Inductive tresult :=
| TOk (d : kmdec) (nt : Z)
| TFail (d : kmdec)
| TCrash
| THang.

(** what [openEx] gets from its caller and from fluidsynth *)
Record audio_env := mkEnv {
  env_bps : Z;                      (** [pkai->bps] *)
  env_channels : Z;                 (** [pkai->channels] *)
  env_sampleRate : Z;               (** [pkai->sampleRate] *)
  env_sf_loaded : bool;             (** [fluid_synth_sfload] succeeds *)
  env_settings_ok : bool;           (** the three [fluid_settings_set*] succeed *)
  env_min_note_length : option Z    (** [synth.min-note-length] in ms, if set *)
}.

(** a run of a loop of the API: [OutOfFuel] only bounds the evaluation *)
Inductive run (A : Type) :=
| Done (a : A)
| Crashed
| Hung
| OutOfFuel.
Arguments Done {A} a.
Arguments Crashed {A}.
Arguments Hung {A}.
Arguments OutOfFuel {A}.

Section Decoder.

Variable garbage : Z.

Definition decodeTrackEvent (d : kmdec) : M unit :=
  if format d =? OS2MIDI then decodeOS2Event garbage else decodeEvent garbage.

(** Step 1 of [decode]: the loop over the tracks in declared order, decoding
    one event of every track whose [nextTick <= tick] and computing the
    minimum [nextTick]. [pre] holds the tracks already visited (reversed). *)
Fixpoint decode_tracks (pre ts : list kmtrk) (nt : Z) (d : kmdec) : tresult :=
  match ts with
  | [] => TOk (set_tracks d (rev pre)) nt
  | t :: rest =>
      let continue t' d' :=
        decode_tracks (t' :: pre) rest
          (if nextTick t' <? nt then nextTick t' else nt) d' in
      if nextTick t <=? tick d then
        match decodeTrackEvent d t d with
        | Ret _ t' d' => continue t' d'
        | Fail t' d' => TFail (set_tracks d' (rev pre ++ t' :: rest))
        | Crash => TCrash
        | Hang => THang
        end
      else continue t d
  end.

(** Steps 3 to 6: advance [tick] and [clock] by one slice of at most
    [clockUnit] microseconds, rendering the samples in play mode. *)
Definition advance (mode : Z) (d : kmdec) (nt : Z) : dresult :=
  if tempo d =? 0 then DCrash
  else
    let ticksPerSec := s32 (division d * CLOCK_BASE / tempo d) in
    let delta := s32 (Z.quot (s32 (ticksPerSec * clockUnit d)) CLOCK_BASE) in
    let delta := if delta =? 0 then 1 else delta in
    let delta := if nt <? u32 (tick d + delta) then s32 (u32 (nt - tick d)) else delta in
    let played :=
      if mode =? DECODE_PLAY then
        match cdiv32 (s32 (delta * sampleRate d)) ticksPerSec with
        | None => None
        | Some samples =>
            let len := s32 (samples * sampleSize d) in
            (* malloc(len): a negative [len] is a huge [size_t] and fails *)
            if len <? 0 then Some (inl d)
            else Some (inr (set_buf (emit d (SWrite samples)) len 0))
        end
      else Some (inr d) in
    match played with
    | None => DCrash
    | Some (inl d) => DRet (-1) d
    | Some (inr d) =>
        if ticksPerSec =? 0 then DCrash
        else DRet 0 (set_time d (u32 (tick d + delta))
                       (u64 (clock d + Z.quot (CLOCK_BASE * delta) ticksPerSec)))
    end.

Definition decode (d : kmdec) (mode : Z) : dresult :=
  match decode_tracks [] (tracks d) END_OF_TRACK d with
  | TCrash => DCrash
  | THang => DHang
  | TFail d => DRet (-1) d
  | TOk d nt =>
      if nt =? END_OF_TRACK then DRet (-1) d
      else if tick d <? nt then advance mode d nt
      else DRet 0 d
  end.

(** ** [reset] *)

Fixpoint reset_tracks (pre ts : list kmtrk) (d : kmdec) : option (list kmtrk) * kmdec :=
  match ts with
  | [] => (Some (rev pre), d)
  | t :: rest =>
      let t := set_nextTick (set_offset t 0) 0 in
      match memSeek (mfd d) (start t) SEEK_SET with
      | None => (None, set_tracks d (rev pre ++ t :: rest))
      | Some m =>
          let d := set_mfd d m in
          if negb (format d =? OS2MIDI) then
            match decodeDelta garbage t d with
            | Ret _ t d => reset_tracks (set_status t 0 :: pre) rest d
            | Fail t d => (None, set_tracks d (rev pre ++ t :: rest))
            | _ => (None, d)
            end
          else reset_tracks (set_status t 0 :: pre) rest d
      end
  end.

Definition reset (d : kmdec) : Z * kmdec :=
  match reset_tracks [] (tracks d) d with
  | (None, d) => (-1, d)
  | (Some ts, d) =>
      let d := emit (set_tracks d ts) SSystemReset in
      let d := set_timesig (set_tempo d DEFAULT_TEMPO) DEFAULT_NUMERATOR DEFAULT_DENOMINATOR in
      (0, set_buf (set_time d 0 0) 0 0)
  end.

(** ** Header and track discovery ([initMidiInfo]) *)

Fixpoint bytes_eqb (a b : list Z) : bool :=
  match a, b with
  | [], [] => true
  | x :: a, y :: b => (x =? y) && bytes_eqb a b
  | _, _ => false
  end.

Definition be16 (hi lo : Z) : Z := hi * 256 + lo.
Definition be32 (a b c e : Z) : Z := ((a * 256 + b) * 256 + c) * 256 + e.

Definition set_header (d : kmdec) (fmt trks div : Z) (ts : list kmtrk) : kmdec :=
  mkDec (mfd d) fmt trks div ts (synth d)
    (clockUnit d) (sampleRate d) (sampleSize d) (tempo d) (numerator d)
    (denominator d) (tick d) (clock d) (duration d) (bufLen d) (bufPos d).

(** the test of [initMidiInfo] for the OS/2 real-time MIDI preamble:
    [memcmp(data, "\xF0\x00\x00\x3A\x03\x01\x18", 7) == 0 && data[9] == 0xF7] *)
Definition dialect_prefix (data : list Z) : bool :=
  bytes_eqb (firstn 7 data) [0xF0; 0x00; 0x00; 0x3A; 0x03; 0x01; 0x18]
  && (nth 9 data garbage =? 0xF7).

(** the time base of the dialect from its byte [pp] *)
Definition os2_division (b7 : Z) : Z :=
  let pp := Z.land b7 0x7F in
  u16 (if Z.testbit pp 6 then 24 / ((Z.land pp 0x3F + 1) * 3) else 24 * (pp + 1)).

(** the SMF track loop: ["MTrk"], length, initial delta, skip the track *)
Fixpoint init_tracks (n : nat) (data : list Z) (pre : list kmtrk) (d : kmdec)
  : option (list kmtrk * kmdec) :=
  match n with
  | O => Some (rev pre, d)
  | S k =>
      let '(data, _, m) := memRead (mfd d) data 8 in
      if negb (bytes_eqb (firstn 4 data) [0x4D; 0x54; 0x72; 0x6B]) then None
      else
        let t := mkTrk (memTell m)
                   (be32 (nth 4 data garbage) (nth 5 data garbage)
                         (nth 6 data garbage) (nth 7 data garbage)) 0 0 0 in
        match decodeDelta garbage t (set_mfd d m) with
        | Ret _ t d =>
            match memSeek (mfd d) (start t + length t) SEEK_SET with
            | None => None
            | Some m => init_tracks k data (t :: pre) (set_mfd d m)
            end
        | _ => None
        end
  end.

Definition initMidiInfo (d : kmdec) : option kmdec :=
  let '(data, _, m) := memRead (mfd d) (repeat garbage 14) 10 in
  if dialect_prefix data then
    let div := os2_division (nth 7 data garbage) in
    if div =? 0 then None
    else
      let st := memTell m in
      match memSeek m 0 SEEK_END with
      | None => None
      | Some m1 =>
          let len := u32 (memTell m1 - st) in
          match memSeek m1 st SEEK_SET with
          | None => None
          | Some m2 => Some (set_header (set_mfd d m2) OS2MIDI 1 div [mkTrk st len 0 0 0])
          end
      end
  else
    let '(tl, _, m) := memRead m (skipn 10 data) 4 in
    let data := firstn 10 data ++ tl in
    if negb (bytes_eqb (firstn 8 data) [0x4D; 0x54; 0x68; 0x64; 0; 0; 0; 6]) then None
    else
      let fmt := be16 (nth 8 data garbage) (nth 9 data garbage) in
      let trks := be16 (nth 10 data garbage) (nth 11 data garbage) in
      let div := be16 (nth 12 data garbage) (nth 13 data garbage) in
      if 2 <=? fmt then None
      else if Z.testbit div 15 then None
      else
        match init_tracks (Z.to_nat trks) data [] (set_mfd d m) with
        | None => None
        | Some (ts, d) => Some (set_header d fmt trks div ts)
        end.

(** ** The public API *)

Definition new_dec (file : list Z) : kmdec :=
  mkDec (mkMem file (Zlength file) 0) 0 0 0 [] [] 0 0 0 0 0 0 0 0 0 0 0.

Definition set_config (d : kmdec) (cu rate size : Z) : kmdec :=
  mkDec (mfd d) (format d) (ntracks d) (division d) (tracks d) (synth d)
    cu rate size (tempo d) (numerator d)
    (denominator d) (tick d) (clock d) (duration d) (bufLen d) (bufPos d).

(** [while (decode(dec, DECODE_SEEK) != -1);] *)
Fixpoint prescan (fuel : nat) (d : kmdec) : run kmdec :=
  match fuel with
  | O => OutOfFuel
  | S f =>
      match decode d DECODE_SEEK with
      | DCrash => Crashed
      | DHang => Hung
      | DRet r d => if r =? -1 then Done d else prescan f d
      end
  end.

(** [openEx] on the bytes of the file ([None] is the NULL decoder) *)
Definition openEx (fuel : nat) (file : list Z) (env : audio_env) : run (option kmdec) :=
  match initMidiInfo (new_dec file) with
  | None => Done None
  | Some d =>
      if negb (env_sf_loaded env) then Done None
      else if negb ((env_bps env =? KMDEC_BPS_S16) || (env_bps env =? KMDEC_BPS_FLOAT))
      then Done None
      else if negb (env_settings_ok env) then Done None
      else
        let ms := match env_min_note_length env with Some x => x | None => 10 end in
        let d := set_config d (s32 (ms * (CLOCK_BASE / 1000))) (env_sampleRate env)
                   (s32 (env_channels env * Z.shiftr (env_bps env) 3)) in
        let d := set_timesig (set_tempo d DEFAULT_TEMPO)
                   DEFAULT_NUMERATOR DEFAULT_DENOMINATOR in
        match prescan fuel d with
        | Done d =>
            let d := set_duration d (clock d) in
            let '(r, d) := reset d in
            if r =? -1 then Done None else Done (Some d)
        | Crashed => Crashed
        | Hung => Hung
        | OutOfFuel => OutOfFuel
        end
  end.

(** the loop of [kmdecDecode]; only the number of bytes copied is modelled *)
Fixpoint decode_loop (fuel : nat) (d : kmdec) (size total : Z) : run (kmdec * Z) :=
  match fuel with
  | O => OutOfFuel
  | S f =>
      if size <=? 0 then Done (d, total)
      else
        match (if bufLen d =? 0 then decode d DECODE_PLAY else DRet 0 d) with
        | DCrash => Crashed
        | DHang => Hung
        | DRet r d =>
            if r =? -1 then Done (d, total)
            else
              let len := Z.min size (bufLen d) in
              decode_loop f (set_buf d (bufLen d - len) (bufPos d + len))
                (size - len) (total + len)
        end
  end.

Definition kmdecDecode (fuel : nat) (dec : option kmdec) (size : Z) : run (option kmdec * Z) :=
  match dec with
  | None => Done (None, 0)
  | Some d =>
      match decode_loop fuel d size 0 with
      | Done (d, n) => Done (Some d, n)
      | Crashed => Crashed
      | Hung => Hung
      | OutOfFuel => OutOfFuel
      end
  end.

Definition kmdecGetDuration (dec : option kmdec) : Z :=
  match dec with
  | None => -1
  | Some d => s32 (u64 (1000 * duration d) / CLOCK_BASE)
  end.

Definition kmdecGetPosition (dec : option kmdec) : Z :=
  match dec with
  | None => -1
  | Some d => s32 (u64 (1000 * clock d) / CLOCK_BASE)
  end.

(** the absolute target clock of [kmdecSeek]; [None] for an unknown origin *)
Definition seek_target (d : kmdec) (off origin : Z) : option Z :=
  let originClock :=
    if origin =? KMDEC_SEEK_SET then Some 0
    else if origin =? KMDEC_SEEK_CUR then Some (clock d)
    else if origin =? KMDEC_SEEK_END then Some (duration d)
    else None in
  match originClock with
  | None => None
  | Some oc =>
      let c := u64 (oc + Z.quot (CLOCK_BASE * off) 1000) in
      Some (if (off <? 0) && (oc <? c) then 0
            else if duration d <? c then duration d else c)
  end.

(** [while (dec->clock < clock && decode(dec, DECODE_SEEK) != -1);] *)
Fixpoint seek_loop (fuel : nat) (d : kmdec) (target : Z) : run kmdec :=
  match fuel with
  | O => OutOfFuel
  | S f =>
      if clock d <? target then
        match decode d DECODE_SEEK with
        | DCrash => Crashed
        | DHang => Hung
        | DRet r d => if r =? -1 then Done d else seek_loop f d target
        end
      else Done d
  end.

Definition kmdecSeek (fuel : nat) (dec : option kmdec) (off origin : Z) : run (option kmdec * Z) :=
  match dec with
  | None => Done (None, -1)
  | Some d =>
      match seek_target d off origin with
      | None => Done (Some d, -1)
      | Some c =>
          let d := if c <? clock d then snd (reset d) else d in
          match seek_loop fuel d c with
          | Done d => Done (Some d, if c <=? clock d then 0 else -1)
          | Crashed => Crashed
          | Hung => Hung
          | OutOfFuel => OutOfFuel
          end
      end
  end.

End Decoder.

(** what [kmdecClose] releases, in order *)
Inductive release :=
| FreeBuffer | SfUnload | DeleteSynth | DeleteSettings | FreeTracks
| MemClose | CloseFdIfOwned | FreeDec.

Definition kmdecClose (dec : option kmdec) : list release :=
  match dec with
  | None => []
  | Some _ => [FreeBuffer; SfUnload; DeleteSynth; DeleteSettings; FreeTracks;
               MemClose; CloseFdIfOwned; FreeDec]
  end.

(** ** Reference definitions taken from the specification *)

(** The variable-length quantity encoding of the specification (§4.3.3,
    §8.6): 1 to 4 bytes of 7 data bits, most significant group first, the
    high bit set on every byte but the last. *)
Definition vlq_encode (v : Z) : list Z :=
  if v <? 2 ^ 7 then [v]
  else if v <? 2 ^ 14 then [128 + v / 2 ^ 7; v mod 2 ^ 7]
  else if v <? 2 ^ 21 then [128 + v / 2 ^ 14; 128 + (v / 2 ^ 7) mod 2 ^ 7; v mod 2 ^ 7]
  else [128 + v / 2 ^ 21; 128 + (v / 2 ^ 14) mod 2 ^ 7;
        128 + (v / 2 ^ 7) mod 2 ^ 7; v mod 2 ^ 7].

(** Steps 3 to 6 of the scheduler as the specification (§5.2) words them,
    in unbounded integer arithmetic: the new [tick] and [clock] when the
    smallest next tick is [min_next]. *)
Definition claim_advance (d : kmdec) (min_next : Z) : Z * Z :=
  let ticks_per_sec := division d * CLOCK_BASE / tempo d in
  let delta := ticks_per_sec * clockUnit d / CLOCK_BASE in
  let delta := if delta =? 0 then 1 else delta in
  let delta := if min_next <? tick d + delta then min_next - tick d else delta in
  (tick d + delta, clock d + CLOCK_BASE * delta / ticks_per_sec).

(** The target clock of [seek(offset_ms, whence)] as the specification
    (§5.4) words it: the origin's clock plus the offset, clamped to 0 below
    zero and to [duration] above it. *)
Definition claim_seek_target (d : kmdec) (offset_ms whence : Z) : option Z :=
  let origin :=
    if whence =? KMDEC_SEEK_SET then Some 0
    else if whence =? KMDEC_SEEK_CUR then Some (clock d)
    else if whence =? KMDEC_SEEK_END then Some (duration d)
    else None in
  match origin with
  | None => None
  | Some o =>
      let x := o + offset_ms * 1000 in
      Some (if x <? 0 then 0 else if duration d <? x then duration d else x)
  end.

(** ** Predicates on the outcome of a parser *)

(** [R] holds of the track and decoder of a [Ret] or [Fail] outcome *)
Definition holds {A} (R : kmtrk -> kmdec -> Prop) (o : outcome A) : Prop :=
  match o with
  | Ret _ t d => R t d
  | Fail t d => R t d
  | Crash => True
  | Hang => True
  end.

(** the parser [m] preserves [R] *)
Definition keeps {A} (R : kmtrk -> kmdec -> Prop) (m : M A) : Prop :=
  forall t d, R t d -> holds R (m t d).

Definition status_is (s : Z) (t : kmtrk) (d : kmdec) : Prop := status t = s.

Definition tick_is (k : Z) (t : kmtrk) (d : kmdec) : Prop := tick d = k.

(** [R] holds of the track and decoder of a [Ret] outcome *)
Definition ret_holds {A} (R : kmtrk -> kmdec -> Prop) (o : outcome A) : Prop :=
  match o with
  | Ret _ t d => R t d
  | _ => True
  end.

(** how one decoded event moves the [nextTick] of its track from [n] to
    [n']: to the end of the track, nowhere, or forward by a delta below
    [2^28] modulo [2^32] *)
Definition next_step (n n' : Z) : Prop :=
  n' = END_OF_TRACK \/ n' = n \/ exists delta, 0 <= delta < 2 ^ 28 /\ n' = u32 (n + delta).

(** ** The duration invariant: definitions *)

(** the memory file only ever moves its offset *)
Definition same_file (m m' : kmemfd) : Prop :=
  mbuffer m' = mbuffer m /\ mlength m' = mlength m.

(** ** The pre-scan and what the API can reach after [openEx] *)

(** the decoder [openEx] hands to its pre-scan loop *)
Definition open_prescan_state (g : Z) (file : list Z) (env : audio_env) : option kmdec :=
  match initMidiInfo g (new_dec file) with
  | None => None
  | Some d =>
      if negb (env_sf_loaded env) then None
      else if negb ((env_bps env =? KMDEC_BPS_S16) || (env_bps env =? KMDEC_BPS_FLOAT))
      then None
      else if negb (env_settings_ok env) then None
      else
        let ms := match env_min_note_length env with Some x => x | None => 10 end in
        let d := set_config d (s32 (ms * (CLOCK_BASE / 1000))) (env_sampleRate env)
                   (s32 (env_channels env * Z.shiftr (env_bps env) 3)) in
        Some (set_timesig (set_tempo d DEFAULT_TEMPO) DEFAULT_NUMERATOR DEFAULT_DENOMINATOR)
  end.

Definition all_tracks_ended (d : kmdec) : bool :=
  forallb (fun t => nextTick t =? END_OF_TRACK) (tracks d).

(** the clock of the pre-scan loop never decreases (no wrap-around of the
    scheduler's arithmetic takes it back), and the loop stops because every
    track has reached its end, not on a decoding error *)
Fixpoint prescan_clean (g : Z) (fuel : nat) (d : kmdec) : bool :=
  match fuel with
  | O => false
  | S f =>
      match decode g d DECODE_SEEK with
      | DRet r d' =>
          (clock d <=? clock d')
          && (if r =? -1 then all_tracks_ended d' else prescan_clean g f d')
      | _ => false
      end
  end.

Definition prescan_reaches_end (g : Z) (fuel : nat) (file : list Z) (env : audio_env) : bool :=
  match open_prescan_state g file env with
  | Some d => prescan_clean g fuel d
  | None => false
  end.

(** the decoders reachable from [d] by [kmdecDecode] and [kmdecSeek] calls *)
Inductive api_reachable (g : Z) (d : kmdec) : kmdec -> Prop :=
| api_open : api_reachable g d d
| api_decode (e e' : kmdec) (fuel : nat) (size n : Z) :
    api_reachable g d e -> kmdecDecode g fuel (Some e) size = Done (Some e', n) ->
    api_reachable g d e'
| api_seek (e e' : kmdec) (fuel : nat) (off origin r : Z) :
    api_reachable g d e -> kmdecSeek g fuel (Some e) off origin = Done (Some e', r) ->
    api_reachable g d e'.

(** the decoder without what the scheduler never reads: the fluidsynth calls,
    the duration and the sample buffer *)
Definition erase (d : kmdec) : kmdec :=
  mkDec (mfd d) (format d) (ntracks d) (division d) (tracks d) []
    (clockUnit d) (sampleRate d) (sampleSize d) (tempo d) (numerator d)
    (denominator d) (tick d) (clock d) 0 0 0.

(** the same, also without the file offset in the SMF format, where every
    event is read after an absolute [memSeek] *)
Definition norm (d : kmdec) : kmdec :=
  mkDec (if format d =? OS2MIDI then mfd d else set_moffset (mfd d) 0)
    (format d) (ntracks d) (division d) (tracks d) []
    (clockUnit d) (sampleRate d) (sampleSize d) (tempo d) (numerator d)
    (denominator d) (tick d) (clock d) 0 0 0.

(** what neither the scheduler nor [reset] changes: the file, the header
    and the audio settings, and where each track lies in the file *)
Definition statics (d : kmdec) :=
  (mbuffer (mfd d), mlength (mfd d), format d, ntracks d, division d,
   clockUnit d, sampleRate d, sampleSize d).

Definition spans (d : kmdec) : list (Z * Z) :=
  map (fun t => (start t, length t)) (tracks d).

Definition orel {A B : Type} (E : kmdec -> B) (o1 o2 : outcome A) : Prop :=
  match o1, o2 with
  | Ret a1 t1 d1, Ret a2 t2 d2 => a1 = a2 /\ t1 = t2 /\ E d1 = E d2
  | Fail t1 d1, Fail t2 d2 => t1 = t2 /\ E d1 = E d2
  | Crash, Crash => True
  | Hang, Hang => True
  | _, _ => False
  end.

(** [m] maps decoders equal under [E] to outcomes equal under [E] *)
Definition resp {A B : Type} (E : kmdec -> B) (m : M A) : Prop :=
  forall t d1 d2, E d1 = E d2 -> orel E (m t d1) (m t d2).

Definition trel (o1 o2 : tresult) : Prop :=
  match o1, o2 with
  | TOk d1 n1, TOk d2 n2 => n1 = n2 /\ norm d1 = norm d2
  | TFail d1, TFail d2 => norm d1 = norm d2
  | TCrash, TCrash => True
  | THang, THang => True
  | _, _ => False
  end.

Definition drel (o1 o2 : dresult) : Prop :=
  match o1, o2 with
  | DRet r1 d1, DRet r2 d2 => r1 = r2 /\ norm d1 = norm d2
  | DCrash, DCrash => True
  | DHang, DHang => True
  | _, _ => False
  end.

(** a track as [initMidiInfo] leaves it in an SMF file: its initial delta
    read from its start, with no running status *)
Definition fresh_track (g : Z) (file : list Z) (len : Z) (t : kmtrk) : Prop :=
  0 <= start t <= len /\ status t = 0
  /\ exists d d', mfd d = mkMem file len (start t)
      /\ decodeDelta g (mkTrk (start t) (length t) 0 0 0) d = Ret tt t d'.

(** the decoder [openEx] hands to its pre-scan: time 0, default tempo and
    time signature, every track at its start *)
Definition fresh_state (g : Z) (d : kmdec) : Prop :=
  tick d = 0 /\ clock d = 0 /\ tempo d = DEFAULT_TEMPO
  /\ numerator d = DEFAULT_NUMERATOR /\ denominator d = DEFAULT_DENOMINATOR
  /\ if format d =? OS2MIDI then
       exists st len, tracks d = [mkTrk st len 0 0 0]
         /\ moffset (mfd d) = st /\ 0 <= st <= mlength (mfd d)
     else Forall (fresh_track g (mbuffer (mfd d)) (mlength (mfd d))) (tracks d).

Definition span (t : kmtrk) : Z * Z := (start t, length t).

Definition tframe (P : kmdec -> Prop) (o : tresult) : Prop :=
  match o with TOk d _ | TFail d => P d | _ => True end.

Definition status_map {A : Type} (s : Z) (o : outcome A) : outcome A :=
  match o with
  | Ret a t d => Ret a (set_status t s) d
  | Fail t d => Fail (set_status t s) d
  | Crash => Crash
  | Hang => Hang
  end.

Definition mem_ok (m : kmemfd) : Prop := 0 <= moffset m <= mlength m.

(** a decoder the pre-scan from [d0] to [dN0] goes through *)
Definition scan_point (g : Z) (d0 dN0 : kmdec) (d : kmdec) : Prop :=
  exists f dN, 0 <= tick d < END_OF_TRACK /\ 0 <= clock d
  /\ statics d = statics d0 /\ spans d = spans d0
  /\ prescan_clean g f d = true /\ prescan g f d = Done dN /\ clock dN <= clock dN0.

(** a decoder left by a [decode] call from [d] that ended after step 1,
    before time advanced: step 1 found a next tick ahead of [tick], and the
    sample buffer of step 4 could not be allocated *)
Definition mid_step (g : Z) (d e : kmdec) : Prop :=
  exists d1 nt, decode_tracks g [] (tracks d) END_OF_TRACK d = TOk d1 nt
    /\ nt <> END_OF_TRACK /\ tick d1 < nt /\ norm e = norm d1.

(** what every decoder the API reaches after [openEx] satisfies *)
Definition replay_inv (g : Z) (d0 dN0 : kmdec) (e : kmdec) : Prop :=
  duration e = clock dN0
  /\ exists d, scan_point g d0 dN0 d /\ (norm e = norm d \/ mid_step g d e).

(** ** The memory file: [memOpen] *)

Definition MEMFD_BUF_DELTA : Z := 64 * 1024.

(** what [io->read(fd, buf, size)] returns: [-1], or the bytes it stored
    into [buf] (their number is the return value) *)
Inductive read_reply :=
| ReadErr
| ReadOk (bytes : list Z).

Section MemOpen.

(** the state of the file descriptor behind [io->read] *)
Context {St : Type}.
Variable io_read : St -> Z -> read_reply * St.

(** the loop of [memOpen] and the shrink after it: [buffer] holds the
    [length] bytes read so far in an allocation of [size] bytes ([length]
    and [size] are [uint32_t]).  A [realloc] to a nonzero size is assumed to
    succeed.  A [realloc] to size 0 frees the block and returns [NULL] (as
    glibc does), and the [fail] path then frees it a second time
    ([Crashed]).  A read that stores more bytes than the allocation holds
    writes past the heap block ([Crashed]). *)
Fixpoint memOpen_loop (fuel : nat) (s : St) (buffer : list Z) (length size : Z)
  : run (option kmemfd) :=
  match fuel with
  | O => OutOfFuel
  | S f =>
      let grow := length =? size in
      let size := if grow then u32 (size + MEMFD_BUF_DELTA) else size in
      if grow && (size =? 0) then Crashed
      else
        let req := MEMFD_BUF_DELTA - length mod MEMFD_BUF_DELTA in
        match io_read s req with
        | (ReadErr, _) => Done None
        | (ReadOk bytes, s) =>
            let len := Zlength bytes in
            if len =? 0 then
              (* shrink to fit: realloc(buffer, length) *)
              if length =? 0 then Crashed else Done (Some (mkMem buffer length 0))
            else if size <? length + len then Crashed
            else memOpen_loop f s (buffer ++ bytes) (u32 (length + len)) size
        end
  end.

Definition memOpen (fuel : nat) (s : St) : run (option kmemfd) :=
  memOpen_loop fuel s [] 0 0.

End MemOpen.

(** a descriptor on a regular file or a pipe: the [k]-th call transfers at
    most [lim k] bytes of what is left of the file *)
Definition stream_read (lim : nat -> Z) (s : list Z * nat) (req : Z)
  : read_reply * (list Z * nat) :=
  let '(rest, k) := s in
  let n := Z.min req (lim k) in
  (ReadOk (firstn (Z.to_nat n) rest), (skipn (Z.to_nat n) rest, S k)).

(** ** [defaultSeek] and the player's [msToTime] *)

(** [defaultSeek]: [origin] is checked against the 3 entries of [origins[]]
    in [size_t] arithmetic ([size_t_bits] wide, so the [int] is converted
    modulo [2 ^ size_t_bits]); [-1] with [errno = EINVAL] when out of range,
    otherwise the result of [lseek] with the mapped origin *)
Definition defaultSeek (size_t_bits : Z) (lseek : Z -> Z -> Z) (offset origin : Z) : Z :=
  if 3 <=? origin mod 2 ^ size_t_bits then -1
  else lseek offset (nth (Z.to_nat origin) [SEEK_SET; SEEK_CUR; SEEK_END] 0).

(** [msToTime] of kmidi.c (and kmidimmio.c): [int] division and remainder
    truncate toward zero; the four results are [(h, m, s, hund)] *)
Definition msToTime (ms : Z) : Z * Z * Z * Z :=
  let sec := Z.quot ms 1000 in
  let hd := Z.quot (Z.rem ms 1000) 10 in
  let min := Z.quot sec 60 in
  let sec := Z.rem sec 60 in
  let hour := Z.quot min 60 in
  let min := Z.rem min 60 in
  (hour, min, sec, hd).

(** ** Byte-level lemmas *)

Lemma lor_shiftl_low (a b n : Z) :
  0 <= n -> 0 <= b < 2 ^ n -> Z.lor (Z.shiftl a n) b = a * 2 ^ n + b.
Proof.
  intros Hn Hb.
  rewrite Z.shiftl_mul_pow2 by lia.
  assert (Hland : Z.land (a * 2 ^ n) b = 0).
  { apply Z.bits_inj'; intros i Hi.
    rewrite Z.land_spec, Z.bits_0.
    destruct (Z.lt_ge_cases i n) as [Hlt | Hge].
    - rewrite Z.mul_pow2_bits_low by lia. reflexivity.
    - rewrite <- (Z.mod_small b (2 ^ n)) by lia.
      rewrite Z.mod_pow2_bits_high by lia. apply andb_false_r. }
  rewrite <- Z.lxor_lor by exact Hland.
  rewrite <- Z.add_nocarry_lxor by exact Hland.
  reflexivity.
Qed.

Lemma testbit7_high (x : Z) : 128 <= x < 256 -> Z.testbit x 7 = true.
Proof.
  intros Hx.
  assert (Hq : x / 2 ^ 7 = 1) by (symmetry; apply Z.div_unique with (x - 128); lia).
  pose proof (Z.testbit_spec' x 7 ltac:(lia)) as Hs.
  rewrite Hq in Hs. destruct (Z.testbit x 7); simpl in Hs; [reflexivity | discriminate].
Qed.

Lemma testbit7_low (x : Z) : 0 <= x < 128 -> Z.testbit x 7 = false.
Proof.
  intros Hx.
  assert (Hq : x / 2 ^ 7 = 0) by (apply Z.div_small; lia).
  pose proof (Z.testbit_spec' x 7 ltac:(lia)) as Hs.
  rewrite Hq in Hs. destruct (Z.testbit x 7); simpl in Hs; [discriminate | reflexivity].
Qed.

Lemma Zlength_app_Z (l1 l2 : list Z) : Zlength (l1 ++ l2) = Zlength l1 + Zlength l2.
Proof. rewrite !Zlength_correct, length_app. lia. Qed.

Lemma land_7F (x : Z) : Z.land x 0x7F = x mod 2 ^ 7.
Proof. change 0x7F with (Z.ones 7). apply Z.land_ones. lia. Qed.

Lemma u32_add_u32 (a b : Z) : u32 (u32 a + b) = u32 (a + b).
Proof. unfold u32. apply Zplus_mod_idemp_l. Qed.

(** a one-byte read from the middle of the in-memory file *)
Lemma memRead_one (m : kmemfd) (b : Z) (pre : list Z) (x : Z) (post : list Z) :
  mbuffer m = pre ++ x :: post ->
  mlength m = Zlength (mbuffer m) ->
  moffset m = Zlength pre ->
  memRead m [b] 1 = ([x], 1, set_moffset m (moffset m + 1)).
Proof.
  intros Hb Hl Ho. unfold memRead.
  rewrite Hl, Ho, Hb, Zlength_app_Z, Zlength_cons.
  assert (0 <= Zlength post) by (rewrite Zlength_correct; lia).
  replace (Zlength pre + Z.succ (Zlength post) =? Zlength pre) with false
    by (symmetry; apply Z.eqb_neq; lia).
  replace (Z.min 1 (Zlength pre + Z.succ (Zlength post) - Zlength pre)) with 1 by lia.
  rewrite Zlength_correct, Nat2Z.id, skipn_app, skipn_all, Nat.sub_diag.
  reflexivity.
Qed.

Lemma set_offset_twice (t : kmtrk) (a b : Z) : set_offset (set_offset t a) b = set_offset t b.
Proof. destruct t; reflexivity. Qed.

Lemma set_mfd_twice (d : kmdec) (m1 m2 : kmemfd) : set_mfd (set_mfd d m1) m2 = set_mfd d m2.
Proof. destruct d; reflexivity. Qed.

Lemma set_moffset_twice (m : kmemfd) (a b : Z) : set_moffset (set_moffset m a) b = set_moffset m b.
Proof. destruct m; reflexivity. Qed.

Lemma readVarQ_step_cont (f : nat) (b vq : Z) (t : kmtrk) (d : kmdec)
      (pre : list Z) (x : Z) (post : list Z) :
  mbuffer (mfd d) = pre ++ x :: post ->
  mlength (mfd d) = Zlength (mbuffer (mfd d)) ->
  moffset (mfd d) = Zlength pre ->
  128 <= x < 256 ->
  readVarQ_loop (S f) b vq t d
  = readVarQ_loop f x (vq * 2 ^ 7 + x mod 2 ^ 7)
      (set_offset t (u32 (offset t + 1)))
      (set_mfd d (set_moffset (mfd d) (moffset (mfd d) + 1))).
Proof.
  intros Hb Hl Ho Hx. cbn [readVarQ_loop].
  rewrite (memRead_one (mfd d) b pre x post Hb Hl Ho). cbn [hd].
  rewrite testbit7_high by exact Hx.
  rewrite land_7F, lor_shiftl_low by (try apply Z.mod_pos_bound; lia).
  reflexivity.
Qed.

Lemma readVarQ_step_stop (f : nat) (b vq : Z) (t : kmtrk) (d : kmdec)
      (pre : list Z) (x : Z) (post : list Z) :
  mbuffer (mfd d) = pre ++ x :: post ->
  mlength (mfd d) = Zlength (mbuffer (mfd d)) ->
  moffset (mfd d) = Zlength pre ->
  0 <= x < 128 ->
  readVarQ_loop (S f) b vq t d
  = Ret (vq * 2 ^ 7 + x mod 2 ^ 7)
      (set_offset t (u32 (offset t + 1)))
      (set_mfd d (set_moffset (mfd d) (moffset (mfd d) + 1))).
Proof.
  intros Hb Hl Ho Hx. cbn [readVarQ_loop].
  rewrite (memRead_one (mfd d) b pre x post Hb Hl Ho). cbn [hd].
  rewrite testbit7_low by exact Hx.
  rewrite land_7F, lor_shiftl_low by (try apply Z.mod_pos_bound; lia).
  reflexivity.
Qed.

Lemma readVarQ_loop_chain (cont : list Z) (x : Z) :
  forall (fuel : nat) (b vq : Z) (t : kmtrk) (d : kmdec) (pre post : list Z),
  Forall (fun y => 128 <= y < 256) cont ->
  0 <= x < 128 ->
  (List.length cont < fuel)%nat ->
  mbuffer (mfd d) = pre ++ cont ++ x :: post ->
  mlength (mfd d) = Zlength (mbuffer (mfd d)) ->
  moffset (mfd d) = Zlength pre ->
  readVarQ_loop fuel b vq t d
  = Ret (fold_left (fun a y => a * 2 ^ 7 + y mod 2 ^ 7) (cont ++ [x]) vq)
      (set_offset t (u32 (offset t + (Zlength cont + 1))))
      (set_mfd d (set_moffset (mfd d) (moffset (mfd d) + (Zlength cont + 1)))).
Proof.
  induction cont as [| y cont IH]; intros fuel b vq t d pre post Hall Hx Hf Hb Hl Ho.
  - destruct fuel as [| f]; [simpl in Hf; lia |].
    rewrite (readVarQ_step_stop f b vq t d pre x post Hb Hl Ho Hx).
    reflexivity.
  - inversion Hall as [| ? ? Hy Hrest]; subst.
    destruct fuel as [| f]; [simpl in Hf; lia |].
    rewrite (readVarQ_step_cont f b vq t d pre y (cont ++ x :: post) Hb Hl Ho Hy).
    rewrite (IH f y (vq * 2 ^ 7 + y mod 2 ^ 7) _ _ (pre ++ [y]) post Hrest Hx).
    + rewrite set_offset_twice, set_mfd_twice. simpl mfd. simpl offset.
      rewrite set_moffset_twice, u32_add_u32, Zlength_cons. simpl moffset.
      replace (offset t + 1 + (Zlength cont + 1)) with (offset t + (Z.succ (Zlength cont) + 1)) by lia.
      replace (moffset (mfd d) + 1 + (Zlength cont + 1))
        with (moffset (mfd d) + (Z.succ (Zlength cont) + 1)) by lia.
      reflexivity.
    + simpl in Hf. lia.
    + simpl. rewrite Hb, <- app_assoc. reflexivity.
    + simpl. exact Hl.
    + simpl. rewrite Ho, Zlength_app_Z. reflexivity.
Qed.

Lemma readVarQ_loop_all_high (cont : list Z) :
  forall (fuel : nat) (b vq : Z) (t : kmtrk) (d : kmdec) (pre post : list Z),
  Forall (fun y => 128 <= y < 256) cont ->
  List.length cont = fuel ->
  mbuffer (mfd d) = pre ++ cont ++ post ->
  mlength (mfd d) = Zlength (mbuffer (mfd d)) ->
  moffset (mfd d) = Zlength pre ->
  exists t' d', readVarQ_loop fuel b vq t d = Fail t' d'.
Proof.
  induction cont as [| y cont IH]; intros fuel b vq t d pre post Hall Hf Hb Hl Ho.
  - subst fuel. exists t, d. reflexivity.
  - inversion Hall as [| ? ? Hy Hrest]; subst.
    simpl List.length.
    rewrite (readVarQ_step_cont (List.length cont) b vq t d pre y (cont ++ post) Hb Hl Ho Hy).
    apply (IH _ _ _ _ _ (pre ++ [y]) post Hrest eq_refl).
    + simpl. rewrite Hb, <- app_assoc. reflexivity.
    + simpl. exact Hl.
    + simpl. rewrite Ho, Zlength_app_Z. reflexivity.
Qed.

Lemma mod128_high (a : Z) : 0 <= a < 2 ^ 7 -> (128 + a) mod 2 ^ 7 = a.
Proof.
  intro H. replace (128 + a) with (a + 1 * 2 ^ 7) by (rewrite Z.mul_1_l; reflexivity || lia).
  rewrite Z_mod_plus_full. apply Z.mod_small. exact H.
Qed.

Lemma vlq_encode_shape (v : Z) :
  0 <= v < 2 ^ 28 ->
  exists cont, vlq_encode v = cont ++ [v mod 2 ^ 7]
    /\ Forall (fun y => 128 <= y < 256) cont
    /\ (List.length cont < 4)%nat
    /\ fold_left (fun a y => a * 2 ^ 7 + y mod 2 ^ 7) (cont ++ [v mod 2 ^ 7]) 0 = v.
Proof.
  intro Hv.
  assert (E1 : v = 2 ^ 7 * (v / 2 ^ 7) + v mod 2 ^ 7) by apply Z_div_mod_eq_full.
  assert (E2 : v / 2 ^ 7 = 2 ^ 7 * (v / 2 ^ 7 / 2 ^ 7) + (v / 2 ^ 7) mod 2 ^ 7)
    by apply Z_div_mod_eq_full.
  assert (E3 : v / 2 ^ 7 / 2 ^ 7 = 2 ^ 7 * (v / 2 ^ 7 / 2 ^ 7 / 2 ^ 7) + (v / 2 ^ 7 / 2 ^ 7) mod 2 ^ 7)
    by apply Z_div_mod_eq_full.
  assert (D14 : v / 2 ^ 14 = v / 2 ^ 7 / 2 ^ 7)
    by (rewrite Z.div_div by lia; reflexivity).
  assert (D21 : v / 2 ^ 21 = v / 2 ^ 7 / 2 ^ 7 / 2 ^ 7)
    by (rewrite !Z.div_div by lia; reflexivity).
  assert (M0 := Z.mod_pos_bound v (2 ^ 7) ltac:(lia)).
  assert (M1 := Z.mod_pos_bound (v / 2 ^ 7) (2 ^ 7) ltac:(lia)).
  assert (M2 := Z.mod_pos_bound (v / 2 ^ 7 / 2 ^ 7) (2 ^ 7) ltac:(lia)).
  unfold vlq_encode.
  destruct (v <? 2 ^ 7) eqn:B7; [apply Z.ltb_lt in B7 | apply Z.ltb_ge in B7].
  { exists []. rewrite Z.mod_small by lia. repeat split; [constructor | simpl; lia |].
    simpl. rewrite Z.mod_small; lia. }
  destruct (v <? 2 ^ 14) eqn:B14; [apply Z.ltb_lt in B14 | apply Z.ltb_ge in B14].
  { exists [128 + v / 2 ^ 7].
    assert (0 <= v / 2 ^ 7 < 2 ^ 7) by (split; [apply Z.div_pos |]; lia).
    split; [reflexivity |]. split; [repeat constructor; lia |]. split; [simpl; lia |].
    cbn [fold_left app]. rewrite mod128_high, Z.mod_mod by lia. lia. }
  destruct (v <? 2 ^ 21) eqn:B21; [apply Z.ltb_lt in B21 | apply Z.ltb_ge in B21].
  { exists [128 + v / 2 ^ 14; 128 + (v / 2 ^ 7) mod 2 ^ 7].
    rewrite D14.
    assert (0 <= v / 2 ^ 7 / 2 ^ 7 < 2 ^ 7) by (split; [apply Z.div_pos; [apply Z.div_pos|]|]; lia).
    split; [reflexivity |]. split; [repeat constructor; lia |]. split; [simpl; lia |].
    cbn [fold_left app]. rewrite !mod128_high, Z.mod_mod by lia. lia. }
  exists [128 + v / 2 ^ 21; 128 + (v / 2 ^ 14) mod 2 ^ 7; 128 + (v / 2 ^ 7) mod 2 ^ 7].
  rewrite D14, D21.
  assert (0 <= v / 2 ^ 7 / 2 ^ 7 / 2 ^ 7 < 2 ^ 7)
    by (split; [apply Z.div_pos; [apply Z.div_pos; [apply Z.div_pos|]|]|]; lia).
  split; [reflexivity |]. split; [repeat constructor; lia |]. split; [simpl; lia |].
  cbn [fold_left app]. rewrite !mod128_high, Z.mod_mod by lia. lia.
Qed.

(** C8: reading a variable-length quantity.  Let the memory file hold
    [pre ++ bytes ++ post] with its offset at the end of [pre].  For every
    [v] with [0 <= v < 2^28], when [bytes] is the reference encoding
    [vlq_encode v], [readVarQ] returns [v] and advances both the track
    offset and the file offset by exactly [Zlength (vlq_encode v)].  When
    the first four bytes all have bit 7 set, [readVarQ] returns the error
    outcome. *)
Theorem readVarQ_vlq_roundtrip (g : Z) (t : kmtrk) (d : kmdec) (pre post : list Z) :
  mlength (mfd d) = Zlength (mbuffer (mfd d)) ->
  moffset (mfd d) = Zlength pre ->
  (forall v, 0 <= v < 2 ^ 28 ->
     mbuffer (mfd d) = pre ++ vlq_encode v ++ post ->
     readVarQ g t d
     = Ret v (set_offset t (u32 (offset t + Zlength (vlq_encode v))))
         (set_mfd d (set_moffset (mfd d) (moffset (mfd d) + Zlength (vlq_encode v)))))
  /\ (forall b1 b2 b3 b4,
     128 <= b1 < 256 -> 128 <= b2 < 256 -> 128 <= b3 < 256 -> 128 <= b4 < 256 ->
     mbuffer (mfd d) = pre ++ [b1; b2; b3; b4] ++ post ->
     exists t' d', readVarQ g t d = Fail t' d').
Proof.
  intros Hl Ho. split.
  - intros v Hv Hb.
    destruct (vlq_encode_shape v Hv) as (cont & Henc & Hall & Hlen & Hfold).
    rewrite Henc in Hb |- *. rewrite <- app_assoc in Hb. simpl in Hb.
    assert (Hx : 0 <= v mod 2 ^ 7 < 128) by (pose proof (Z.mod_pos_bound v (2 ^ 7)); lia).
    unfold readVarQ.
    rewrite (readVarQ_loop_chain cont (v mod 2 ^ 7) 4 g 0 t d pre post Hall Hx Hlen Hb Hl Ho).
    rewrite Hfold, Zlength_app_Z. reflexivity.
  - intros b1 b2 b3 b4 H1 H2 H3 H4 Hb.
    unfold readVarQ.
    apply (readVarQ_loop_all_high [b1; b2; b3; b4] 4 g 0 t d pre post); auto.
Qed.

Lemma readVarQ_vlq_roundtrip_witness :
  (let d := set_mfd (new_dec []) (mkMem [1; 0x82; 0x2C; 7] 4 1) in
   readVarQ 0 (mkTrk 0 4 0 0 0) d
   = Ret 300 (set_offset (mkTrk 0 4 0 0 0) (u32 (offset (mkTrk 0 4 0 0 0) + 2)))
       (set_mfd d (set_moffset (mfd d) (moffset (mfd d) + 2))))
  /\ (exists t' d', readVarQ 0 (mkTrk 0 4 0 0 0)
        (new_dec [0x80; 0x81; 0xFF; 0x90; 5]) = Fail t' d').
Proof.
  split.
  - pose proof (proj1 (readVarQ_vlq_roundtrip 0 (mkTrk 0 4 0 0 0)
      (set_mfd (new_dec []) (mkMem [1; 0x82; 0x2C; 7] 4 1)) [1] [7] eq_refl eq_refl)
      300 ltac:(lia) eq_refl) as H.
    exact H.
  - exact (proj2 (readVarQ_vlq_roundtrip 0 (mkTrk 0 4 0 0 0)
      (new_dec [0x80; 0x81; 0xFF; 0x90; 5]) [] [5] eq_refl eq_refl)
      0x80 0x81 0xFF 0x90 ltac:(lia) ltac:(lia) ltac:(lia) ltac:(lia) eq_refl).
Defined.

(** C10: the NULL decoder.  On the NULL decoder [kmdecDecode] returns 0 for
    every size, [kmdecGetDuration], [kmdecGetPosition] and [kmdecSeek]
    return -1 for every argument, and [kmdecClose] releases nothing. *)
Theorem null_decoder_tolerated (g : Z) (fuel : nat) (size off origin : Z) :
  kmdecDecode g fuel None size = Done (None, 0)
  /\ kmdecGetDuration None = -1
  /\ kmdecGetPosition None = -1
  /\ kmdecSeek g fuel None off origin = Done (None, -1)
  /\ kmdecClose None = [].
Proof.
  repeat split.
Qed.

Lemma memRead_prefix (m : kmemfd) (buf : list Z) (n : Z) :
  0 < n -> 0 <= moffset m -> moffset m + n <= mlength m ->
  memRead m buf n
  = (firstn (Z.to_nat n) (skipn (Z.to_nat (moffset m)) (mbuffer m)) ++ skipn (Z.to_nat n) buf,
     n, set_moffset m (moffset m + n)).
Proof.
  intros Hn Ho Hl. unfold memRead.
  replace (n =? 0) with false by (symmetry; apply Z.eqb_neq; lia).
  replace (mlength m =? moffset m) with false by (symmetry; apply Z.eqb_neq; lia).
  replace (Z.min n (mlength m - moffset m)) with n by lia.
  reflexivity.
Qed.

(** the two reads of the header by [initMidiInfo] on a file of at least 14
    bytes *)
Lemma header_reads (g : Z) (file : list Z) :
  14 <= Zlength file ->
  memRead (mfd (new_dec file)) (repeat g 14) 10
    = (firstn 10 file ++ [g; g; g; g], 10, mkMem file (Zlength file) 10)
  /\ memRead (mkMem file (Zlength file) 10) [g; g; g; g] 4
    = (firstn 4 (skipn 10 file), 4, mkMem file (Zlength file) 14).
Proof.
  intro H. split.
  - rewrite memRead_prefix by (simpl; lia). reflexivity.
  - rewrite memRead_prefix by (simpl; lia). simpl. rewrite app_nil_r. reflexivity.
Qed.

Lemma first_header_read (g : Z) (file : list Z) :
  10 <= Zlength file ->
  memRead (mfd (new_dec file)) (repeat g 14) 10
    = (firstn 10 file ++ [g; g; g; g], 10, mkMem file (Zlength file) 10).
Proof. intro H. rewrite memRead_prefix by (simpl; lia). reflexivity. Qed.

Lemma memSeek_end0 (m : kmemfd) :
  0 <= mlength m -> memSeek m 0 SEEK_END = Some (set_moffset m (mlength m)).
Proof.
  intro H. unfold memSeek. cbn - [Z.ltb Z.add].
  replace ((mlength m + 0 <? 0) || (mlength m <? mlength m + 0)) with false
    by (symmetry; apply orb_false_iff; split; apply Z.ltb_ge; lia).
  rewrite Z.add_0_r. reflexivity.
Qed.

Lemma memSeek_set (m : kmemfd) (p : Z) :
  0 <= p <= mlength m -> memSeek m p SEEK_SET = Some (set_moffset m p).
Proof.
  intro H. unfold memSeek. cbn - [Z.ltb].
  replace ((p <? 0) || (mlength m <? p)) with false
    by (symmetry; apply orb_false_iff; split; apply Z.ltb_ge; lia).
  reflexivity.
Qed.

Lemma keeps_bind {A B} (R : kmtrk -> kmdec -> Prop) (m : M A) (k : A -> M B) :
  keeps R m -> (forall a, keeps R (k a)) -> keeps R (bind m k).
Proof.
  intros Hm Hk t d Ht. unfold bind. specialize (Hm t d Ht).
  destruct (m t d) as [a t' d' | t' d' | |]; simpl in *; [apply Hk | ..]; auto.
Qed.

Lemma keeps_ret {A} (R : kmtrk -> kmdec -> Prop) (a : A) : keeps R (ret a).
Proof. intros t d Ht. exact Ht. Qed.

Lemma memRead_file (m : kmemfd) (buf : list Z) (n : Z) :
  same_file m (snd (memRead m buf n)).
Proof. unfold memRead, same_file. destruct (_ || _); cbn; auto. Qed.

Lemma memSeek_file (m m' : kmemfd) (off origin : Z) :
  memSeek m off origin = Some m' -> same_file m m'.
Proof.
  unfold memSeek, same_file. destruct (_ || _); [discriminate |].
  intro H. injection H as <-. cbn. auto.
Qed.

Lemma same_file_trans (m1 m2 m3 : kmemfd) :
  same_file m1 m2 -> same_file m2 m3 -> same_file m1 m3.
Proof. unfold same_file. intros [-> ->] [-> ->]. auto. Qed.

Lemma os2_sysex_fill_file (g : Z) (fuel i : nat) (sx : list Z) (t : kmtrk) (m : kmemfd) :
  let '(_, _, _, m') := os2_sysex_fill g fuel i sx t m in same_file m m'.
Proof.
  revert i sx t m. induction fuel as [| f IH]; intros i sx t m; cbn [os2_sysex_fill].
  - split; reflexivity.
  - pose proof (memRead_file m [nth i sx g] 1) as Hm.
    destruct (memRead m _ 1) as [[bs k] m']. cbn [snd] in Hm.
    destruct (_ =? 0xF7); [exact Hm |].
    specialize (IH (S i) (upd sx i (hd (nth i sx g) bs))
                  (set_offset t (u32 (offset t + 1))) m').
    destruct (os2_sysex_fill _ _ _ _ _ _) as [[[? ?] ?] m''].
    eapply same_file_trans; eassumption.
Qed.

Lemma os2_sysex_drain_file (fuel : nat) (s0 : Z) (t : kmtrk) (m : kmemfd) :
  match os2_sysex_drain fuel s0 t m with Some (_, m') => same_file m m' | None => True end.
Proof.
  revert s0 t m. induction fuel as [| f IH]; intros s0 t m; cbn [os2_sysex_drain]; [exact I |].
  pose proof (memRead_file m [s0] 1) as Hm.
  destruct (memRead m [s0] 1) as [[bs k] m']. cbn [snd] in Hm.
  destruct (_ =? 0xF7); [exact Hm |].
  destruct (k =? 0); [exact I |].
  specialize (IH (hd s0 bs) (set_offset t (u32 (offset t + 1))) m').
  destruct (os2_sysex_drain _ _ _ _) as [[? m''] |]; [| exact I].
  eapply same_file_trans; eassumption.
Qed.

(** *** Frame lemmas: what the parsers leave alone *)

Section Frame.

Variable R : kmtrk -> kmdec -> Prop.
Hypothesis R_offset : forall t d o, R t d -> R (set_offset t o) d.
Hypothesis R_mfd : forall t d m, same_file (mfd d) m -> R t d -> R t (set_mfd d m).
Hypothesis R_tempo : forall t d x, R t d -> R t (set_tempo d x).
Hypothesis R_timesig : forall t d a b, R t d -> R t (set_timesig d a b).

Lemma readVarQ_loop_keeps (fuel : nat) (b vq : Z) : keeps R (readVarQ_loop fuel b vq).
Proof.
  revert b vq. induction fuel as [| f IH]; intros b vq t d Ht; cbn [readVarQ_loop]; [exact Ht |].
  pose proof (memRead_file (mfd d) [b] 1) as Hm.
  destruct (memRead (mfd d) [b] 1) as [[bs k] m]. cbn [snd] in Hm.
  destruct (Z.testbit (hd b bs) 7); [apply IH | cbn [holds]]; auto.
Qed.

Lemma readVarQ_keeps (g : Z) : keeps R (readVarQ g).
Proof. apply readVarQ_loop_keeps. Qed.

Lemma read_data_keeps (g len : Z) : keeps R (read_data g len).
Proof.
  intros t d Ht. unfold read_data.
  pose proof (memRead_file (mfd d) (repeat g (Z.to_nat len)) len) as Hm.
  destruct (memRead _ _ _) as [[data k] m]. simpl. auto.
Qed.

Lemma decodeMetaEvent_keeps (g : Z) : keeps R (decodeMetaEvent g).
Proof.
  intros t d Ht. unfold decodeMetaEvent.
  destruct (length t <=? offset t); [exact Ht |].
  pose proof (memRead_file (mfd d) [g] 1) as Hm.
  destruct (memRead _ _ _) as [[tb k] m]. cbn [snd] in Hm.
  apply keeps_bind; [apply readVarQ_keeps | | auto].
  intro len. apply keeps_bind; [apply read_data_keeps |].
  intros data t' d' Ht'.
  repeat match goal with
  | |- context [if ?c then _ else _] => destruct c
  end; simpl; auto.
Qed.

Lemma os2_sysex_fill_keeps (g : Z) (fuel i : nat) (sx : list Z) (t : kmtrk) (m : kmemfd) (d : kmdec) :
  R t d -> let '(_, _, t', _) := os2_sysex_fill g fuel i sx t m in R t' d.
Proof.
  revert i sx t m. induction fuel as [| f IH]; intros i sx t m Ht; cbn [os2_sysex_fill]; [exact Ht |].
  destruct (memRead m _ 1) as [[bs k] m'].
  destruct (_ =? 0xF7); [auto | apply IH; auto].
Qed.

Lemma os2_sysex_drain_keeps (fuel : nat) (s0 : Z) (t : kmtrk) (m : kmemfd) (d : kmdec) :
  R t d -> match os2_sysex_drain fuel s0 t m with Some (t', _) => R t' d | None => True end.
Proof.
  revert s0 t m. induction fuel as [| f IH]; intros s0 t m Ht; cbn [os2_sysex_drain]; [exact I |].
  destruct (memRead m [s0] 1) as [[bs k] m'].
  destruct (_ =? 0xF7); [auto |].
  destruct (k =? 0); [exact I | apply IH; auto].
Qed.

Lemma read_status_keeps (g : Z) (t : kmtrk) (m : kmemfd) (d : kmdec) :
  R t d -> same_file (mfd d) m ->
  match read_status g t m with
  | (None, t1, m1) => R t1 (set_mfd d m1)
  | (Some (_, t1, m1), _, _) => R t1 (set_mfd d m1)
  end.
Proof.
  intros Ht Hm0. unfold read_status.
  pose proof (memRead_file m [g] 1) as Hm.
  destruct (memRead m _ 1) as [[sb k] m1]. cbn [snd] in Hm.
  destruct (_ <? 0x80); [destruct (memSeek _ _ _) eqn:Hs |];
    try apply memSeek_file in Hs; eauto 6 using same_file_trans.
Qed.

Hypothesis R_nextTick : forall t d x, R t d -> R (set_nextTick t x) d.

Lemma decodeDelta_keeps (g : Z) : keeps R (decodeDelta g).
Proof.
  intros t d Ht. unfold decodeDelta.
  destruct (length t <=? offset t); [simpl; auto |].
  apply keeps_bind; [apply readVarQ_keeps | | exact Ht].
  intros a t' d' Ht'. simpl. auto.
Qed.

Lemma decodeOS2SysExEvent_keeps (g : Z) : keeps R (decodeOS2SysExEvent g).
Proof.
  intros t d Ht. unfold decodeOS2SysExEvent.
  pose proof (os2_sysex_fill_keeps g 9 0 (repeat g 9) t (mfd d) d Ht) as Hf.
  pose proof (os2_sysex_fill_file g 9 0 (repeat g 9) t (mfd d)) as Hm.
  destruct (os2_sysex_fill g 9 0 (repeat g 9) t (mfd d)) as [[[i sx] t1] m].
  destruct (i =? 9)%nat.
  - pose proof (os2_sysex_drain_keeps (S (Z.to_nat (mlength m - moffset m))) (nth 0 sx g) t1 m d Hf)
      as Hd.
    pose proof (os2_sysex_drain_file (S (Z.to_nat (mlength m - moffset m))) (nth 0 sx g) t1 m)
      as Hm2.
    destruct (os2_sysex_drain _ _ _ _) as [[t2 m2] |]; simpl; eauto using same_file_trans.
  - repeat match goal with
    | |- context [if ?c then _ else _] => destruct c
    end; simpl; auto.
Qed.

Hypothesis R_status : forall t d s, R t d -> R (set_status t s) d.
Hypothesis R_emit : forall t d c, R t d -> R t (emit d c).

Lemma emit_opt_keeps (t : kmtrk) (d : kmdec) (c : option synth_call) :
  R t d -> R t (emit_opt d c).
Proof. destruct c; simpl; auto. Qed.

Lemma decodeEvent_keeps (g : Z) : keeps R (decodeEvent g).
Proof.
  intros t d Ht. unfold decodeEvent.
  destruct (length t <=? offset t); [exact Ht |].
  destruct (memSeek _ _ _) as [m0 |] eqn:Hm0; [| exact Ht].
  pose proof (read_status_keeps g t m0 d Ht (memSeek_file _ _ _ _ Hm0)) as Hs.
  destruct (read_status g t m0) as [[[[[st t1] m1] |] t1'] m1']; [| exact Hs].
  destruct (st <? 0x80); [exact Hs |].
  apply keeps_bind.
  - repeat match goal with
    | |- keeps _ (if ?c then _ else _) => destruct c
    end;
    first [apply readVarQ_keeps | apply keeps_ret
          | apply keeps_bind; [apply decodeMetaEvent_keeps | intro; apply keeps_ret]].
  - intro len. apply keeps_bind; [apply read_data_keeps |].
    intros data t' d' Ht'.
    destruct (_ && _); [exact Ht' | apply decodeDelta_keeps; apply emit_opt_keeps; exact Ht'].
  - destruct (st <? 0xF0); auto.
Qed.

Lemma decodeOS2Event_keeps (g : Z) : keeps R (decodeOS2Event g).
Proof.
  intros t d Ht. unfold decodeOS2Event.
  destruct (length t <=? offset t); [simpl; auto |].
  pose proof (read_status_keeps g t (mfd d) d Ht (conj eq_refl eq_refl)) as Hs.
  destruct (read_status g t (mfd d)) as [[[[[st t1] m1] |] t1'] m1']; [| exact Hs].
  destruct (st <? 0x80); [exact Hs |].
  apply keeps_bind; [apply read_data_keeps | |].
  - intros data t' d' Ht'.
    destruct (Z.land st 0xF0 =? 0xF0).
    + destruct (st =? 0xF8); [simpl; auto | apply decodeOS2SysExEvent_keeps; exact Ht'].
    + simpl. apply emit_opt_keeps. exact Ht'.
  - destruct (st <? 0xF0); auto.
Qed.

End Frame.

(** discharges the side conditions of the frame lemmas for a predicate that
    only reads fields the setters leave alone *)
Ltac frame := repeat intro; assumption.

Lemma hd_firstn_skipn (l : list Z) (n : nat) (x : Z) :
  (n < List.length l)%nat -> hd x (firstn 1 (skipn n l)) = nth n l x.
Proof.
  revert n. induction l as [| y l IH]; intros n H; simpl in H; [lia |].
  destruct n as [| n]; [reflexivity |]. simpl. apply IH. lia.
Qed.

Lemma read_status_explicit (g : Z) (t : kmtrk) (m : kmemfd) :
  0 <= moffset m < mlength m -> mlength m = Zlength (mbuffer m) ->
  0x80 <= nth (Z.to_nat (moffset m)) (mbuffer m) 0 ->
  read_status g t m
  = (Some (nth (Z.to_nat (moffset m)) (mbuffer m) 0, set_offset t (u32 (offset t + 1)),
           set_moffset m (moffset m + 1)),
     set_offset t (u32 (offset t + 1)), set_moffset m (moffset m + 1)).
Proof.
  intros Ho Hl Hst. unfold read_status.
  assert (Hn : (Z.to_nat (moffset m) < List.length (mbuffer m))%nat)
    by (rewrite Zlength_correct in Hl; lia).
  rewrite memRead_prefix by lia. cbn iota beta.
  change (skipn (Z.to_nat 1) [g]) with (@nil Z). rewrite app_nil_r.
  change (Z.to_nat 1) with 1%nat. rewrite hd_firstn_skipn by exact Hn.
  rewrite (nth_indep _ g 0 Hn).
  replace (nth (Z.to_nat (moffset m)) (mbuffer m) 0 <? 0x80) with false
    by (symmetry; apply Z.ltb_ge; lia).
  reflexivity.
Qed.

Lemma bytes_eqb_true (a b : list Z) : bytes_eqb a b = true <-> a = b.
Proof.
  revert b; induction a as [| x a IH]; intros [| y b]; simpl;
    try (split; intro H; congruence).
  rewrite andb_true_iff, Z.eqb_eq, IH. split; [intros [-> ->] | intro H; inversion H]; auto.
Qed.

(** C9 (amended): rejection of the header by [open].  For a file of at
    least 14 bytes, [initMidiInfo] fails and [openEx] returns the NULL
    decoder whenever the file fails the dialect test that [initMidiInfo]
    actually makes (bytes 0 to 6 equal to F0 00 00 3A 03 01 18 and byte 9
    equal to F7; byte 8 is not looked at) and either it does not begin with
    "MThd" 00 00 00 06, or its big-endian format field is 2 or more, or
    bit 15 of its big-endian division field is set. *)
Theorem open_rejects_header (g : Z) (file : list Z) :
  14 <= Zlength file ->
  ~ (firstn 7 file = [0xF0; 0x00; 0x00; 0x3A; 0x03; 0x01; 0x18] /\ nth 9 file 0 = 0xF7) ->
  (firstn 8 file <> [0x4D; 0x54; 0x68; 0x64; 0; 0; 0; 6]
   \/ 2 <= be16 (nth 8 file 0) (nth 9 file 0)
   \/ Z.testbit (be16 (nth 12 file 0) (nth 13 file 0)) 15 = true) ->
  initMidiInfo g (new_dec file) = None
  /\ forall fuel env, openEx g fuel file env = Done None.
Proof.
  intros Hlen Hnd Hrej.
  assert (Hinit : initMidiInfo g (new_dec file) = None).
  { destruct (header_reads g file Hlen) as [R1 R2].
    unfold initMidiInfo. rewrite R1. cbn iota beta.
    replace (skipn 10 (firstn 10 file ++ [g; g; g; g])) with [g; g; g; g].
    2:{ rewrite skipn_app, skipn_all2, length_firstn; [| rewrite length_firstn; lia].
        rewrite Zlength_correct in Hlen.
        replace (10 - Nat.min 10 (List.length file))%nat with 0%nat by lia.
        reflexivity. }
    rewrite R2. cbn iota beta. clear R1 R2.
    do 14 (destruct file as [| ? file]; [rewrite Zlength_correct in Hlen; simpl in Hlen; lia |]).
    cbn [firstn nth skipn app] in Hnd, Hrej |- *.
    unfold dialect_prefix. cbn [firstn nth skipn app].
    destruct (bytes_eqb _ [0xF0; 0x00; 0x00; 0x3A; 0x03; 0x01; 0x18] && (_ =? 0xF7)) eqn:Ed.
    { apply andb_true_iff in Ed. destruct Ed as [Ed1 Ed2].
      apply bytes_eqb_true in Ed1. apply Z.eqb_eq in Ed2. tauto. }
    destruct (bytes_eqb _ [0x4D; 0x54; 0x68; 0x64; 0; 0; 0; 6]) eqn:Em; [| reflexivity].
    apply bytes_eqb_true in Em. cbn [negb].
    destruct (2 <=? _) eqn:Ef; [reflexivity |].
    apply Z.leb_gt in Ef.
    destruct Hrej as [Hrej | [Hrej | Hrej]]; [congruence | lia |].
    rewrite Hrej. reflexivity. }
  split; [exact Hinit |].
  intros fuel env. unfold openEx. rewrite Hinit. reflexivity.
Qed.

Lemma open_rejects_header_witness :
  initMidiInfo 0 (new_dec [0x4D; 0x54; 0x68; 0x64; 0; 0; 0; 6; 0; 0; 0; 1; 0x80; 0]) = None
  /\ forall fuel env,
     openEx 0 fuel [0x4D; 0x54; 0x68; 0x64; 0; 0; 0; 6; 0; 0; 0; 1; 0x80; 0] env = Done None.
Proof.
  apply (open_rejects_header 0 [0x4D; 0x54; 0x68; 0x64; 0; 0; 0; 6; 0; 0; 0; 1; 0x80; 0]).
  - vm_compute. discriminate.
  - simpl. intros [H _]. discriminate H.
  - right. right. vm_compute. reflexivity.
Defined.

(** C9 counterexample: the file F0 00 00 3A 03 01 18 00 00 F7 is neither
    the dialect preamble of the specification (its byte [qq] is 00, not F7)
    nor an "MThd" file, yet [openEx] returns a decoder, in the dialect
    format with division 24. *)
Lemma open_accepts_preamble_qq_00 :
  nth 8 [0xF0; 0; 0; 0x3A; 3; 1; 0x18; 0; 0; 0xF7] 0 <> 0xF7
  /\ firstn 4 [0xF0; 0; 0; 0x3A; 3; 1; 0x18; 0; 0; 0xF7] <> [0x4D; 0x54; 0x68; 0x64]
  /\ exists d,
     openEx 0 100 [0xF0; 0; 0; 0x3A; 3; 1; 0x18; 0; 0; 0xF7]
       (mkEnv 16 2 44100 true true None) = Done (Some d)
     /\ format d = OS2MIDI /\ division d = 24.
Proof.
  split; [discriminate |]. split; [discriminate |].
  eexists. split; [vm_compute; reflexivity |]. split; reflexivity.
Qed.

(** C4 (amended): the dialect branch of [open].  For a file of at least 10
    bytes, when bytes 0 to 6 are F0 00 00 3A 03 01 18 and byte 9 is F7
    (byte 8, [qq], is not tested), with [pp] byte 7 masked to 7 bits and
    [div] equal to [24 / (((pp & 0x3F) + 1) * 3)] when bit 6 of [pp] is set
    and to [24 * (pp + 1)] otherwise, [initMidiInfo] fails when [div = 0]
    and otherwise returns a decoder in the dialect format with one track
    starting at byte 10 and division [div]; when the test fails, any decoder
    returned is in format 0 or 1. *)
Theorem initMidiInfo_dialect_branch (g : Z) (file : list Z) :
  10 <= Zlength file ->
  let pp := Z.land (nth 7 file 0) 0x7F in
  let div := if Z.testbit pp 6 then 24 / ((Z.land pp 0x3F + 1) * 3) else 24 * (pp + 1) in
  (firstn 7 file = [0xF0; 0x00; 0x00; 0x3A; 0x03; 0x01; 0x18] /\ nth 9 file 0 = 0xF7 ->
     (div = 0 -> initMidiInfo g (new_dec file) = None)
     /\ (div <> 0 -> exists d, initMidiInfo g (new_dec file) = Some d
           /\ format d = OS2MIDI /\ ntracks d = 1 /\ division d = div
           /\ map start (tracks d) = [10]))
  /\ (~ (firstn 7 file = [0xF0; 0x00; 0x00; 0x3A; 0x03; 0x01; 0x18] /\ nth 9 file 0 = 0xF7) ->
     forall d, initMidiInfo g (new_dec file) = Some d -> format d < 2).
Proof.
  intros Hlen pp div.
  pose proof (first_header_read g file Hlen) as R1.
  unfold initMidiInfo. rewrite R1. cbn iota beta. clear R1.
  assert (Hl := Hlen). rewrite Zlength_correct in Hl.
  do 10 (destruct file as [| ? file]; [simpl in Hl; lia |]).
  clear Hl. subst pp div. cbn [firstn nth app] in *.
  unfold dialect_prefix. cbn [firstn nth app].
  split.
  - intros [H7 H9]. injection H7 as -> -> -> -> -> -> ->. subst.
    cbn [bytes_eqb andb]. rewrite !Z.eqb_refl. cbn [andb].
    assert (Hdiv : os2_division z6 = (if Z.testbit (Z.land z6 0x7F) 6
        then 24 / ((Z.land (Z.land z6 0x7F) 0x3F + 1) * 3) else 24 * (Z.land z6 0x7F + 1))).
    { unfold os2_division, u16. apply Z.mod_small.
      rewrite land_7F. pose proof (Z.mod_pos_bound z6 (2 ^ 7) ltac:(lia)).
      destruct (Z.testbit _ 6).
      + assert (0 <= Z.land (z6 mod 2 ^ 7) 0x3F) by (apply Z.land_nonneg; lia).
        split; [apply Z.div_pos; lia |].
        apply Z.le_lt_trans with 24; [apply Z.div_le_upper_bound; lia | lia].
      + lia. }
    rewrite Hdiv. split.
    + intro H0. rewrite H0. reflexivity.
    + intro H0. apply Z.eqb_neq in H0. rewrite H0.
      rewrite memSeek_end0 by (simpl; lia). unfold memTell.
      rewrite memSeek_set by (simpl; lia).
      eexists. repeat split.
  - intros Hnd d.
    destruct (bytes_eqb _ [0xF0; 0x00; 0x00; 0x3A; 0x03; 0x01; 0x18] && (_ =? 0xF7)) eqn:Ed.
    { apply andb_true_iff in Ed. destruct Ed as [Ed1 Ed2].
      apply bytes_eqb_true in Ed1. apply Z.eqb_eq in Ed2. tauto. }
    destruct (memRead _ _ 4) as [[tl n] m]. cbn iota beta.
    destruct (negb _); [discriminate |].
    destruct (2 <=? _) eqn:Ef; [discriminate |].
    destruct (Z.testbit _ 15); [discriminate |].
    destruct (init_tracks _ _ _ _) as [[ts d'] |]; [| discriminate].
    intro Hd. injection Hd as <-. apply Z.leb_gt in Ef. exact Ef.
Qed.

Lemma initMidiInfo_dialect_branch_witness :
  let file := [0xF0; 0x00; 0x00; 0x3A; 0x03; 0x01; 0x18; 0x41; 0xF7; 0xF7] in
  exists d, initMidiInfo 0 (new_dec file) = Some d
    /\ format d = OS2MIDI /\ ntracks d = 1 /\ division d = 4 /\ map start (tracks d) = [10].
Proof.
  exact (proj2 (proj1 (initMidiInfo_dialect_branch 0
    [0xF0; 0x00; 0x00; 0x3A; 0x03; 0x01; 0x18; 0x41; 0xF7; 0xF7] ltac:(vm_compute; discriminate))
    (conj eq_refl eq_refl)) ltac:(vm_compute; discriminate)).
Defined.

(** C4 counterexample: the file F0 00 00 3A 03 01 18 41 12 F7 has
    [qq = 0x12], not F7, yet [initMidiInfo] takes the dialect branch. *)
Lemma dialect_branch_qq_unchecked :
  nth 8 [0xF0; 0x00; 0x00; 0x3A; 0x03; 0x01; 0x18; 0x41; 0x12; 0xF7] 0 <> 0xF7
  /\ exists d,
     initMidiInfo 0 (new_dec [0xF0; 0x00; 0x00; 0x3A; 0x03; 0x01; 0x18; 0x41; 0x12; 0xF7]) = Some d
     /\ format d = OS2MIDI /\ division d = 4.
Proof.
  split; [discriminate |]. eexists. split; [vm_compute; reflexivity |]. split; reflexivity.
Qed.

(** C7 (amended): the stored running status.  When [decodeEvent] (SMF) or
    [decodeOS2Event] (dialect) reads an explicit status byte [st >= 0x80]
    at the position of the track, every [Ret] or [Fail] outcome leaves the
    track's stored status equal to [st] when [st < 0xF0] and equal to the
    status it had before when [st >= 0xF0]. *)
Theorem explicit_status_update (g : Z) (t : kmtrk) (d : kmdec) :
  mlength (mfd d) = Zlength (mbuffer (mfd d)) ->
  offset t < length t ->
  (0 <= start t + offset t < mlength (mfd d) ->
    let st := nth (Z.to_nat (start t + offset t)) (mbuffer (mfd d)) 0 in
    0x80 <= st ->
    holds (status_is (if st <? 0xF0 then st else status t)) (decodeEvent g t d))
  /\ (0 <= moffset (mfd d) < mlength (mfd d) ->
    let st := nth (Z.to_nat (moffset (mfd d))) (mbuffer (mfd d)) 0 in
    0x80 <= st ->
    holds (status_is (if st <? 0xF0 then st else status t)) (decodeOS2Event g t d)).
Proof.
  intros Hl Hlt. split.
  - intros Hr st Hst. unfold decodeEvent.
    replace (length t <=? offset t) with false by (symmetry; apply Z.leb_gt; lia).
    rewrite memSeek_set by lia.
    rewrite read_status_explicit by (simpl; lia). cbn iota beta.
    change (moffset (set_moffset (mfd d) (start t + offset t))) with (start t + offset t).
    change (mbuffer (set_moffset (mfd d) (start t + offset t))) with (mbuffer (mfd d)).
    fold st.
    replace (st <? 0x80) with false by (symmetry; apply Z.ltb_ge; lia).
    apply keeps_bind.
    + repeat match goal with
      | |- keeps _ (if ?c then _ else _) => destruct c
      end;
      first [apply readVarQ_keeps; frame | apply keeps_ret
            | apply keeps_bind; [apply decodeMetaEvent_keeps; frame | intro; apply keeps_ret]].
    + intro len. apply keeps_bind; [apply read_data_keeps; frame |].
      intros data t' d' Ht'.
      destruct (_ && _); [exact Ht' | apply decodeDelta_keeps; frame].
    + destruct (st <? 0xF0); reflexivity.
  - intros Hr st Hst. unfold decodeOS2Event.
    replace (length t <=? offset t) with false by (symmetry; apply Z.leb_gt; lia).
    rewrite read_status_explicit by (simpl; lia). cbn iota beta. fold st.
    replace (st <? 0x80) with false by (symmetry; apply Z.ltb_ge; lia).
    apply keeps_bind; [apply read_data_keeps; frame | |].
    + intros data t' d' Ht'.
      destruct (Z.land st 0xF0 =? 0xF0); [| exact Ht'].
      destruct (st =? 0xF8); [exact Ht' | apply decodeOS2SysExEvent_keeps; frame].
    + destruct (st <? 0xF0); reflexivity.
Qed.

Lemma explicit_status_update_witness :
  holds (status_is 0x90)
    (decodeEvent 0 (mkTrk 0 7 0 0 0x90) (new_dec [0xFF; 0x01; 0x00; 0x00; 0xFF; 0x2F; 0x00]))
  /\ holds (status_is 0x91)
    (decodeOS2Event 0 (mkTrk 0 3 0 0 0x90) (new_dec [0x91; 0x3C; 0x40])).
Proof.
  split.
  - refine (proj1 (explicit_status_update 0 (mkTrk 0 7 0 0 0x90)
      (new_dec [0xFF; 0x01; 0x00; 0x00; 0xFF; 0x2F; 0x00]) eq_refl _) _ _).
    + simpl. lia.
    + split; [vm_compute; discriminate | vm_compute; reflexivity].
    + vm_compute. discriminate.
  - refine (proj2 (explicit_status_update 0 (mkTrk 0 3 0 0 0x90)
      (new_dec [0x91; 0x3C; 0x40]) eq_refl _) _ _).
    + simpl. lia.
    + split; [vm_compute; discriminate | vm_compute; reflexivity].
    + vm_compute. discriminate.
Defined.

(** C7 counterexample: on a track whose stored status is the channel status
    0x90, decoding the meta event FF 01 00 (status 0xFF, at least 0xF0)
    leaves the stored status at 0x90: it is not reset. *)
Lemma system_status_keeps_running_status :
  exists t' d',
    decodeEvent 0 (mkTrk 0 7 0 0 0x90) (new_dec [0xFF; 0x01; 0x00; 0x00; 0xFF; 0x2F; 0x00])
    = Ret tt t' d' /\ status t' = 0x90.
Proof. eexists. eexists. split; [vm_compute; reflexivity | reflexivity]. Qed.

(** C6 counterexample: the format 0 file with one track [00 FF 01 05 41]
    (a text meta event declaring 5 bytes of which only one is present, at
    the end of the chunk) opens, and after the first [kmdecDecode] the
    offset of its track is 9 while its length is 5. *)
Lemma open_decode_offset_exceeds_length :
  exists d d' n,
    openEx 0 100 [0x4D; 0x54; 0x68; 0x64; 0; 0; 0; 6; 0; 0; 0; 1; 0; 0x60;
                  0x4D; 0x54; 0x72; 0x6B; 0; 0; 0; 5; 0; 0xFF; 0x01; 0x05; 0x41]
      (mkEnv 16 2 44100 true true None) = Done (Some d)
    /\ kmdecDecode 0 100 (Some d) 1000 = Done (Some d', n)
    /\ map length (tracks d') = [5] /\ map offset (tracks d') = [9].
Proof.
  do 3 eexists. split; [vm_compute; reflexivity |].
  split; [vm_compute; reflexivity |]. split; vm_compute; reflexivity.
Qed.

Lemma bind_ret_holds {A B} (R Q : kmtrk -> kmdec -> Prop) (m : M A) (k : A -> M B) t d :
  keeps R m -> (forall a t d, R t d -> ret_holds Q (k a t d)) -> R t d ->
  ret_holds Q (bind m k t d).
Proof.
  intros Hm Hk Ht. unfold bind. specialize (Hm t d Ht).
  destruct (m t d) as [a t' d' | t' d' | |]; simpl in *; auto.
Qed.

Lemma readVarQ_loop_range (fuel : nat) :
  forall (b vq v : Z) (t t' : kmtrk) (d d' : kmdec),
  0 <= vq -> readVarQ_loop fuel b vq t d = Ret v t' d' ->
  0 <= v < (vq + 1) * 2 ^ (7 * Z.of_nat fuel).
Proof.
  induction fuel as [| f IH]; intros b vq v t t' d d' Hvq H; cbn [readVarQ_loop] in H;
    [discriminate |].
  destruct (memRead (mfd d) [b] 1) as [[bs k] m].
  assert (Hr := Z.mod_pos_bound (hd b bs) (2 ^ 7) ltac:(lia)).
  rewrite land_7F, lor_shiftl_low in H by lia.
  replace (7 * Z.of_nat (S f)) with (7 + 7 * Z.of_nat f) by lia.
  rewrite Z.pow_add_r by lia.
  assert (0 < 2 ^ (7 * Z.of_nat f)) by (apply Z.pow_pos_nonneg; lia).
  destruct (Z.testbit (hd b bs) 7).
  - apply IH in H; [| nia]. nia.
  - injection H as <- _ _. nia.
Qed.

Lemma readVarQ_range (g v : Z) (t t' : kmtrk) (d d' : kmdec) :
  readVarQ g t d = Ret v t' d' -> 0 <= v < 2 ^ 28.
Proof.
  intro H. apply readVarQ_loop_range in H; [| lia]. exact H.
Qed.

Lemma decodeDelta_next (g : Z) (t : kmtrk) (d : kmdec) :
  ret_holds (fun t' _ => next_step (nextTick t) (nextTick t')) (decodeDelta g t d).
Proof.
  unfold decodeDelta.
  destruct (length t <=? offset t); [left; reflexivity |].
  unfold bind.
  destruct (readVarQ g t d) as [v t1 d1 | | |] eqn:Hr; simpl; auto.
  pose proof (readVarQ_range _ _ _ _ _ _ Hr) as Hv.
  assert (Hn : nextTick t1 = nextTick t).
  { pose proof (readVarQ_keeps (fun t' _ => nextTick t' = nextTick t)
      ltac:(frame) ltac:(frame) g t d eq_refl) as K.
    rewrite Hr in K. exact K. }
  right. right. exists v. split; [exact Hv | rewrite Hn; reflexivity].
Qed.

Lemma land7F_range (x : Z) : 0 <= Z.land x 0x7F < 2 ^ 7.
Proof. rewrite land_7F. apply Z.mod_pos_bound. lia. Qed.

Lemma lor7_range (x y : Z) : 0 <= Z.lor (Z.shiftl (Z.land x 0x7F) 7) (Z.land y 0x7F) < 2 ^ 14.
Proof.
  pose proof (land7F_range x). pose proof (land7F_range y).
  rewrite lor_shiftl_low by lia. lia.
Qed.

Lemma decodeEvent_next (g : Z) (t : kmtrk) (d : kmdec) :
  ret_holds (fun t' _ => next_step (nextTick t) (nextTick t')) (decodeEvent g t d).
Proof.
  set (R := fun (t' : kmtrk) (_ : kmdec) => nextTick t' = nextTick t).
  unfold decodeEvent.
  destruct (length t <=? offset t); [right; left; reflexivity |].
  destruct (memSeek _ _ _) as [m0 |] eqn:Hm0; [| exact I].
  pose proof (read_status_keeps R ltac:(frame) ltac:(frame) g t m0 d eq_refl
    (memSeek_file _ _ _ _ Hm0)) as Hs.
  destruct (read_status g t m0) as [[[[[st t1] m1] |] t1'] m1']; [| exact I].
  destruct (st <? 0x80); [exact I |].
  apply bind_ret_holds with (R := R).
  - repeat match goal with
    | |- keeps _ (if ?c then _ else _) => destruct c
    end;
    first [apply readVarQ_keeps; frame | apply keeps_ret
          | apply keeps_bind; [apply decodeMetaEvent_keeps; frame | intro; apply keeps_ret]].
  - intros len t0 d0 H0.
    apply bind_ret_holds with (R := R); [apply read_data_keeps; frame | | exact H0].
    intros data t3 d3 H3. destruct (_ && _); [exact I |].
    pose proof (decodeDelta_next g t3
      (emit_opt d3 (channel_call (Z.land st 0xF0) (Z.land st 0x0F)
         (Z.land (nth 0 data g) 0x7F) (Z.land (nth 1 data g) 0x7F)))) as K.
    unfold R in H3. rewrite <- H3. exact K.
  - destruct (st <? 0xF0); exact Hs.
Qed.

Lemma decodeOS2SysExEvent_next (g : Z) (t : kmtrk) (d : kmdec) :
  ret_holds (fun t' _ => next_step (nextTick t) (nextTick t')) (decodeOS2SysExEvent g t d).
Proof.
  set (R := fun (t' : kmtrk) (_ : kmdec) => nextTick t' = nextTick t).
  unfold decodeOS2SysExEvent.
  pose proof (os2_sysex_fill_keeps R ltac:(frame) g 9 0 (repeat g 9) t (mfd d) d eq_refl) as Hf.
  destruct (os2_sysex_fill g 9 0 (repeat g 9) t (mfd d)) as [[[i sx] t1] m].
  unfold R in Hf.
  destruct (i =? 9)%nat.
  - pose proof (os2_sysex_drain_keeps R ltac:(frame) (S (Z.to_nat (mlength m - moffset m)))
      (nth 0 sx g) t1 m d Hf) as Hd.
    destruct (os2_sysex_drain _ _ _ _) as [[t2 m2] |]; [| exact I].
    right. left. exact Hd.
  - repeat match goal with
    | |- context [if ?c then _ else _] => destruct c
    end; cbn [ret_holds nextTick set_nextTick]; try exact I; try (right; left; exact Hf).
    all: match goal with
         | |- context [u32 (nextTick ?t0 + ?x)] =>
             right; right; exists x; split; [| rewrite Hf; reflexivity]
         end.
    all: pose proof (lor7_range (nth 5 sx g) (nth 4 sx g));
         pose proof (land7F_range (nth 3 sx g)); lia.
Qed.

Lemma decodeOS2Event_next (g : Z) (t : kmtrk) (d : kmdec) :
  ret_holds (fun t' _ => next_step (nextTick t) (nextTick t')) (decodeOS2Event g t d).
Proof.
  set (R := fun (t' : kmtrk) (_ : kmdec) => nextTick t' = nextTick t).
  unfold decodeOS2Event.
  destruct (length t <=? offset t); [left; reflexivity |].
  pose proof (read_status_keeps R ltac:(frame) ltac:(frame) g t (mfd d) d eq_refl
    (conj eq_refl eq_refl)) as Hs.
  destruct (read_status g t (mfd d)) as [[[[[st t1] m1] |] t1'] m1']; [| exact I].
  destruct (st <? 0x80); [exact I |].
  apply bind_ret_holds with (R := R); [apply read_data_keeps; frame | |].
  - intros data t3 d3 H3. unfold R in H3.
    destruct (Z.land st 0xF0 =? 0xF0).
    + destruct (st =? 0xF8).
      * right. right. exists 1. split; [lia | rewrite H3; reflexivity].
      * pose proof (decodeOS2SysExEvent_next g t3 d3) as K. rewrite <- H3. exact K.
    + right. left. exact H3.
  - destruct (st <? 0xF0); exact Hs.
Qed.

Lemma decodeTrackEvent_next (g : Z) (d : kmdec) (t : kmtrk) (d0 : kmdec) :
  ret_holds (fun t' _ => next_step (nextTick t) (nextTick t')) (decodeTrackEvent g d t d0).
Proof.
  unfold decodeTrackEvent.
  destruct (format d =? OS2MIDI); [apply decodeOS2Event_next | apply decodeEvent_next].
Qed.

Lemma decodeTrackEvent_tick (g : Z) (d : kmdec) (t : kmtrk) (d0 : kmdec) :
  holds (tick_is (tick d0)) (decodeTrackEvent g d t d0).
Proof.
  unfold decodeTrackEvent.
  destruct (format d =? OS2MIDI).
  - apply decodeOS2Event_keeps; [frame .. | reflexivity].
  - apply decodeEvent_keeps; [frame .. | reflexivity].
Qed.

Lemma decode_tracks_next (g : Z) (ts : list kmtrk) :
  forall (pre : list kmtrk) (n : Z) (d d' : kmdec) (nt : Z),
  decode_tracks g pre ts n d = TOk d' nt ->
  tick d' = tick d
  /\ exists ts', tracks d' = rev pre ++ ts'
     /\ Forall2 (fun t t' => if nextTick t <=? tick d then next_step (nextTick t) (nextTick t')
                             else t' = t) ts ts'.
Proof.
  induction ts as [| t rest IH]; intros pre n d d' nt H; cbn [decode_tracks] in H.
  - injection H as <- _. split; [reflexivity |].
    exists []. rewrite app_nil_r. split; [reflexivity | constructor].
  - destruct (nextTick t <=? tick d) eqn:Hle.
    + pose proof (decodeTrackEvent_next g d t d) as Kn.
      pose proof (decodeTrackEvent_tick g d t d) as Kt.
      revert H.
      destruct (decodeTrackEvent g d t d) as [u t' d1 | | |]; try discriminate.
      intro H. apply IH in H. destruct H as [Htk [ts' [Htr Hf]]].
      cbn [ret_holds holds] in Kn, Kt. unfold tick_is in Kt.
      split; [congruence |].
      exists (t' :: ts'). split; [rewrite Htr; simpl; rewrite <- app_assoc; reflexivity |].
      constructor; [rewrite Hle; exact Kn | rewrite <- Kt; exact Hf].
    + apply IH in H. destruct H as [Htk [ts' [Htr Hf]]].
      split; [exact Htk |].
      exists (t :: ts'). split; [rewrite Htr; simpl; rewrite <- app_assoc; reflexivity |].
      constructor; [rewrite Hle; reflexivity | exact Hf].
Qed.

(** C5 counterexample: after opening the format 0 file whose track is
    [00 90 3C 40 00 80 3C 40 00 FF 2F 00] (division 96), step 1 of the
    first scheduler call decodes the note-on at tick 0 and reads the zero
    delta that follows: the track ends with [nextTick = 0 = tick], neither
    greater than [tick] nor [END_OF_TRACK]. *)
Lemma step1_zero_delta_stays :
  exists d d' nt,
    openEx 0 100 [0x4D; 0x54; 0x68; 0x64; 0; 0; 0; 6; 0; 0; 0; 1; 0; 0x60;
                  0x4D; 0x54; 0x72; 0x6B; 0; 0; 0; 12;
                  0; 0x90; 0x3C; 0x40; 0; 0x80; 0x3C; 0x40; 0; 0xFF; 0x2F; 0]
      (mkEnv 16 2 44100 true true None) = Done (Some d)
    /\ map nextTick (tracks d) = [0] /\ tick d = 0
    /\ decode_tracks 0 [] (tracks d) END_OF_TRACK d = TOk d' nt
    /\ tick d' = 0 /\ map nextTick (tracks d') = [0].
Proof.
  do 3 eexists. split; [vm_compute; reflexivity |].
  repeat split; vm_compute; reflexivity.
Qed.

(** C1 (divergence): after opening the format 0 file with division 480
    whose track is [00 FF 51 03 00 03 E8 CE 10 90 3C 40 00 FF 2F 00] (a
    tempo of 1000 us per quarter note, then a note-on 10000 ticks later)
    with the default 10 ms clock unit, step 1 of the first scheduler call
    decodes the tempo event and leaves the smallest next tick at 10000.
    [ticksPerSec = 480000], and [ticksPerSec * clockUnit = 4.8e9] is
    computed in 32-bit [int] and wraps to 505032704, so the call advances
    [tick] to 505 and [clock] to 1052 us, where the specified arithmetic
    gives [delta = 4800], [tick = 4800] and [clock = 10000]. *)
Lemma advance_clock_unit_product_wraps :
  exists d dm d1,
    openEx 0 100 [0x4D; 0x54; 0x68; 0x64; 0; 0; 0; 6; 0; 0; 0; 1; 0x01; 0xE0;
                  0x4D; 0x54; 0x72; 0x6B; 0; 0; 0; 16;
                  0; 0xFF; 0x51; 3; 0; 3; 0xE8; 0xCE; 0x10; 0x90; 0x3C; 0x40;
                  0; 0xFF; 0x2F; 0]
      (mkEnv 16 2 44100 true true None) = Done (Some d)
    /\ tick d = 0 /\ clock d = 0 /\ clockUnit d = 10000
    /\ decode_tracks 0 [] (tracks d) END_OF_TRACK d = TOk dm 10000
    /\ tick dm = 0 /\ tempo dm = 1000 /\ division dm = 480
    /\ decode 0 d DECODE_SEEK = advance DECODE_SEEK dm 10000
    /\ advance DECODE_SEEK dm 10000 = DRet 0 d1
    /\ tick d1 = 505 /\ clock d1 = 1052
    /\ claim_advance dm 10000 = (4800, 10000).
Proof.
  do 3 eexists. split; [vm_compute; reflexivity |].
  split; [vm_compute; reflexivity |]. split; [vm_compute; reflexivity |].
  split; [vm_compute; reflexivity |].
  split; [vm_compute; reflexivity |].
  repeat split; vm_compute; reflexivity.
Qed.

(** *** Seeking *)

Lemma seek_clamp_arith (oc dur off : Z) :
  0 <= oc < 2 ^ 63 -> -2 ^ 31 <= off < 2 ^ 31 ->
  (let c := u64 (oc + Z.quot (CLOCK_BASE * off) 1000) in
   if (off <? 0) && (oc <? c) then 0 else if dur <? c then dur else c)
  = (let x := oc + off * 1000 in
     if x <? 0 then 0 else if dur <? x then dur else x).
Proof.
  intros Hoc Hoff. cbv zeta.
  replace (CLOCK_BASE * off) with (off * 1000 * 1000) by (unfold CLOCK_BASE; lia).
  rewrite Z.quot_mul by lia. unfold u64.
  destruct (Z.ltb_spec (oc + off * 1000) 0) as [Hneg | Hpos].
  - rewrite <- (Z.mod_unique (oc + off * 1000) (2 ^ 64) (-1) (oc + off * 1000 + 2 ^ 64))
      by lia.
    replace (off <? 0) with true by (symmetry; apply Z.ltb_lt; lia).
    replace (oc <? oc + off * 1000 + 2 ^ 64) with true by (symmetry; apply Z.ltb_lt; lia).
    reflexivity.
  - rewrite Z.mod_small by lia.
    replace ((off <? 0) && (oc <? oc + off * 1000)) with false; [reflexivity |].
    destruct (Z.ltb_spec off 0); [| reflexivity].
    symmetry. apply Z.ltb_ge. lia.
Qed.

(** C3: for a decoder whose clock and duration are below 2^63 and an
    [int] offset, [kmdecSeek] with whence [BEGIN], [CURRENT] or [END]
    computes the target clock of the specification (the origin's clock
    plus the offset, clamped to 0 below zero and to [duration] above it);
    it resets the decoder first exactly when that target is earlier than
    the current clock, runs the scheduler until the clock reaches the
    target or the stream ends, and returns 0 exactly when the clock reached
    the target.  After opening the file of scenario S2 (division 480, tempo
    changes 500000 and 1000000 us per quarter note, 480 ticks apart, end of
    track 480 ticks later), [seek(10000, BEGIN)] returns 0 and the position
    equals the duration (1499 ms). *)
Theorem seek_clamps_and_resets :
  (forall g fuel d off whence,
     0 <= clock d < 2 ^ 63 -> 0 <= duration d < 2 ^ 63 ->
     -2 ^ 31 <= off < 2 ^ 31 ->
     whence = KMDEC_SEEK_SET \/ whence = KMDEC_SEEK_CUR \/ whence = KMDEC_SEEK_END ->
     exists c,
       claim_seek_target d off whence = Some c
       /\ seek_target d off whence = Some c
       /\ kmdecSeek g fuel (Some d) off whence
          = match seek_loop g fuel (if c <? clock d then snd (reset g d) else d) c with
            | Done d' => Done (Some d', if c <=? clock d' then 0 else -1)
            | Crashed => Crashed
            | Hung => Hung
            | OutOfFuel => OutOfFuel
            end)
  /\ (exists d d',
       openEx 0 1000 [0x4D; 0x54; 0x68; 0x64; 0; 0; 0; 6; 0; 0; 0; 1; 0x01; 0xE0;
                      0x4D; 0x54; 0x72; 0x6B; 0; 0; 0; 20;
                      0; 0xFF; 0x51; 3; 0x07; 0xA1; 0x20;
                      0x83; 0x60; 0xFF; 0x51; 3; 0x0F; 0x42; 0x40;
                      0x83; 0x60; 0xFF; 0x2F; 0]
         (mkEnv 16 2 44100 true true None) = Done (Some d)
       /\ kmdecSeek 0 1000 (Some d) 10000 KMDEC_SEEK_SET = Done (Some d', 0)
       /\ kmdecGetPosition (Some d') = kmdecGetDuration (Some d')
       /\ kmdecGetDuration (Some d') = 1499).
Proof.
  split.
  - intros g fuel d off whence Hc Hd Hoff Hw.
    assert (Hst : seek_target d off whence = claim_seek_target d off whence).
    { unfold seek_target, claim_seek_target.
      destruct Hw as [-> | [-> | ->]]; cbn -[u64 CLOCK_BASE Z.pow Z.quot];
        f_equal; apply seek_clamp_arith; lia. }
    assert (Hs : exists c, claim_seek_target d off whence = Some c).
    { unfold claim_seek_target.
      destruct Hw as [-> | [-> | ->]]; cbn -[Z.pow]; eexists; reflexivity. }
    destruct Hs as [c Hs]. exists c.
    split; [exact Hs |]. split; [rewrite Hst; exact Hs |].
    unfold kmdecSeek. rewrite Hst, Hs. reflexivity.
  - do 2 eexists. split; [vm_compute; reflexivity |].
    split; [vm_compute; reflexivity |].
    split; vm_compute; reflexivity.
Qed.

Lemma seek_clamps_and_resets_witness :
  exists c,
    claim_seek_target (new_dec []) 5 KMDEC_SEEK_SET = Some c
    /\ seek_target (new_dec []) 5 KMDEC_SEEK_SET = Some c
    /\ kmdecSeek 0 10%nat (Some (new_dec [])) 5 KMDEC_SEEK_SET
       = match seek_loop 0 10%nat (if c <? clock (new_dec []) then snd (reset 0 (new_dec []))
                               else new_dec []) c with
         | Done d' => Done (Some d', if c <=? clock d' then 0 else -1)
         | Crashed => Crashed
         | Hung => Hung
         | OutOfFuel => OutOfFuel
         end.
Proof.
  apply (proj1 seek_clamps_and_resets 0 10%nat (new_dec []) 5 KMDEC_SEEK_SET);
    [simpl; lia | simpl; lia | lia | left; reflexivity].
Defined.

(** ** The duration invariant *)

Lemma resp_bind {A B C : Type} (E : kmdec -> C) (m : M A) (k : A -> M B) :
  resp E m -> (forall a, resp E (k a)) -> resp E (bind m k).
Proof.
  intros Hm Hk t d1 d2 H. unfold bind.
  specialize (Hm t d1 d2 H).
  destruct (m t d1) as [a1 t1 e1 | t1 e1 | |], (m t d2) as [a2 t2 e2 | t2 e2 | |];
    cbn [orel] in Hm; try contradiction; cbn [orel]; try exact I.
  - destruct Hm as [-> [-> He]]. apply Hk. exact He.
  - exact Hm.
Qed.

Lemma resp_ret {A B : Type} (E : kmdec -> B) (a : A) : resp E (ret a).
Proof. intros t d1 d2 H. cbn. auto. Qed.

Section Respect.

Context {B : Type} (E : kmdec -> B).
Hypothesis E_mfd : forall d1 d2, E d1 = E d2 -> mfd d1 = mfd d2.
Hypothesis E_set_mfd : forall d1 d2 m, E d1 = E d2 -> E (set_mfd d1 m) = E (set_mfd d2 m).

Lemma readVarQ_loop_resp (fuel : nat) (b vq : Z) : resp E (readVarQ_loop fuel b vq).
Proof.
  revert b vq. induction fuel as [| f IH]; intros b vq t d1 d2 H; cbn [readVarQ_loop].
  - cbn. auto.
  - rewrite (E_mfd _ _ H).
    destruct (memRead (mfd d2) [b] 1) as [[bs k] m].
    destruct (Z.testbit (hd b bs) 7); [apply IH; auto | cbn; auto].
Qed.

Lemma readVarQ_resp (g : Z) : resp E (readVarQ g).
Proof. apply readVarQ_loop_resp. Qed.

Lemma read_data_resp (g len : Z) : resp E (read_data g len).
Proof.
  intros t d1 d2 H. unfold read_data. rewrite (E_mfd _ _ H).
  destruct (memRead _ _ _) as [[data k] m]. cbn. auto.
Qed.

Lemma decodeDelta_resp (g : Z) : resp E (decodeDelta g).
Proof.
  intros t d1 d2 H. unfold decodeDelta.
  destruct (length t <=? offset t); [cbn; auto |].
  apply resp_bind; [apply readVarQ_resp | | exact H].
  intros a t' e1 e2 He. cbn. auto.
Qed.

Hypothesis E_tempo : forall d1 d2 x, E d1 = E d2 -> E (set_tempo d1 x) = E (set_tempo d2 x).
Hypothesis E_timesig : forall d1 d2 a b, E d1 = E d2 -> E (set_timesig d1 a b) = E (set_timesig d2 a b).

Lemma decodeMetaEvent_resp (g : Z) : resp E (decodeMetaEvent g).
Proof.
  intros t d1 d2 H. unfold decodeMetaEvent.
  destruct (length t <=? offset t); [cbn; auto |].
  rewrite (E_mfd _ _ H).
  destruct (memRead _ _ _) as [[tb k] m].
  apply resp_bind; [apply readVarQ_resp | | auto].
  intro len. apply resp_bind; [apply read_data_resp |].
  intros data t' e1 e2 He.
  repeat match goal with
  | |- context [if ?c then _ else _] => destruct c
  end; cbn; auto.
Qed.

Lemma decodeOS2SysExEvent_resp (g : Z) : resp E (decodeOS2SysExEvent g).
Proof.
  intros t d1 d2 H. unfold decodeOS2SysExEvent. rewrite (E_mfd _ _ H).
  destruct (os2_sysex_fill g 9 0 (repeat g 9) t (mfd d2)) as [[[i sx] t1] m].
  destruct (i =? 9)%nat.
  - destruct (os2_sysex_drain _ _ _ _) as [[t2 m2] |]; cbn; auto.
  - repeat match goal with
    | |- context [if ?c then _ else _] => destruct c
    end; cbn; auto.
Qed.

Hypothesis E_emit : forall d1 d2 c, E d1 = E d2 -> E (emit d1 c) = E (emit d2 c).

Lemma emit_opt_resp (d1 d2 : kmdec) (c : option synth_call) :
  E d1 = E d2 -> E (emit_opt d1 c) = E (emit_opt d2 c).
Proof. destruct c; cbn; auto. Qed.

Lemma decodeOS2Event_resp (g : Z) : resp E (decodeOS2Event g).
Proof.
  intros t d1 d2 H. unfold decodeOS2Event.
  destruct (length t <=? offset t); [cbn; auto |].
  rewrite (E_mfd _ _ H).
  destruct (read_status g t (mfd d2)) as [[[[[st t1] m1] |] t1'] m1']; [| cbn; auto].
  destruct (st <? 0x80); [cbn; auto |].
  apply resp_bind; [apply read_data_resp | | auto].
  intros data t' e1 e2 He.
  destruct (Z.land st 0xF0 =? 0xF0).
  - destruct (st =? 0xF8); [cbn; auto | apply decodeOS2SysExEvent_resp; exact He].
  - cbn. split; [reflexivity | split; [reflexivity | apply emit_opt_resp; exact He]].
Qed.

End Respect.

Ltac dec_eq := intros;
  repeat match goal with d : kmdec |- _ => destruct d end;
  unfold erase, norm in *; cbn in *;
  match goal with H : mkDec _ _ _ _ _ _ _ _ _ _ _ _ _ _ _ _ _ = _ |- _ =>
    injection H; clear H; intros; subst end;
  first [reflexivity | f_equal; assumption].

Lemma erase_mfd (d1 d2 : kmdec) : erase d1 = erase d2 -> mfd d1 = mfd d2.
Proof. intro H. exact (f_equal mfd H). Qed.
Lemma erase_set_mfd (d1 d2 : kmdec) (m : kmemfd) :
  erase d1 = erase d2 -> erase (set_mfd d1 m) = erase (set_mfd d2 m).
Proof. dec_eq. Qed.
Lemma erase_tempo (d1 d2 : kmdec) (x : Z) :
  erase d1 = erase d2 -> erase (set_tempo d1 x) = erase (set_tempo d2 x).
Proof. dec_eq. Qed.
Lemma erase_timesig (d1 d2 : kmdec) (a b : Z) :
  erase d1 = erase d2 -> erase (set_timesig d1 a b) = erase (set_timesig d2 a b).
Proof. dec_eq. Qed.
Lemma erase_emit (d1 d2 : kmdec) (c : synth_call) :
  erase d1 = erase d2 -> erase (emit d1 c) = erase (emit d2 c).
Proof. dec_eq. Qed.

Lemma erase_norm (d1 d2 : kmdec) : erase d1 = erase d2 -> norm d1 = norm d2.
Proof. dec_eq. Qed.

Lemma norm_erase_set_mfd (d1 d2 : kmdec) (m : kmemfd) :
  norm d1 = norm d2 -> erase (set_mfd d1 m) = erase (set_mfd d2 m).
Proof.
  intros H. destruct d1, d2. unfold erase, norm in *. cbn in *.
  injection H. intros. subst. reflexivity.
Qed.

Lemma norm_set_mfd (d1 d2 : kmdec) (m : kmemfd) :
  norm d1 = norm d2 -> norm (set_mfd d1 m) = norm (set_mfd d2 m).
Proof. intro H. apply erase_norm, norm_erase_set_mfd, H. Qed.

Lemma norm_os2_erase (d1 d2 : kmdec) :
  norm d1 = norm d2 -> format d1 = OS2MIDI -> erase d1 = erase d2.
Proof.
  intros H Hf. destruct d1, d2. unfold erase, norm in *. cbn in *. subst.
  injection H. intros. subst. rewrite Z.eqb_refl in *. subst. reflexivity.
Qed.

Lemma norm_field (d1 d2 : kmdec) : norm d1 = norm d2 ->
  format d1 = format d2 /\ ntracks d1 = ntracks d2 /\ division d1 = division d2
  /\ tracks d1 = tracks d2 /\ clockUnit d1 = clockUnit d2
  /\ sampleRate d1 = sampleRate d2 /\ sampleSize d1 = sampleSize d2
  /\ tempo d1 = tempo d2 /\ numerator d1 = numerator d2
  /\ denominator d1 = denominator d2 /\ tick d1 = tick d2 /\ clock d1 = clock d2
  /\ mbuffer (mfd d1) = mbuffer (mfd d2) /\ mlength (mfd d1) = mlength (mfd d2).
Proof.
  intro H. destruct d1 as [[b1 l1 o1] ? ? ? ? ? ? ? ? ? ? ? ? ? ? ? ?],
                    d2 as [[b2 l2 o2] ? ? ? ? ? ? ? ? ? ? ? ? ? ? ? ?].
  unfold norm in H. cbn in *. injection H. intros. subst.
  match goal with H : (if ?c then _ else _) = _ |- _ =>
    destruct c; cbn in H; injection H; intros; subst end;
  repeat split; reflexivity.
Qed.

Lemma orel_erase_norm {A : Type} (o1 o2 : outcome A) : orel erase o1 o2 -> orel norm o1 o2.
Proof.
  destruct o1, o2; cbn; try tauto.
  - intros [-> [-> H]]. auto using erase_norm.
  - intros [-> H]. auto using erase_norm.
Qed.

Ltac erase_hyps := first [exact erase_mfd | exact erase_set_mfd | exact erase_tempo
                         | exact erase_timesig | exact erase_emit].

Lemma memSeek_set_norm (d1 d2 : kmdec) (p : Z) : norm d1 = norm d2 ->
  memSeek (mfd d1) p SEEK_SET = memSeek (mfd d2) p SEEK_SET.
Proof.
  intro H. destruct (norm_field d1 d2 H) as (_ & _ & _ & _ & _ & _ & _ & _ & _ & _ & _ & _ & Hb & Hl).
  unfold memSeek, set_moffset. rewrite Hb, Hl. reflexivity.
Qed.

Lemma decodeEvent_resp_norm (g : Z) (t : kmtrk) (d1 d2 : kmdec) :
  norm d1 = norm d2 -> orel norm (decodeEvent g t d1) (decodeEvent g t d2).
Proof.
  intro H. unfold decodeEvent.
  destruct (length t <=? offset t); [cbn; auto |].
  rewrite (memSeek_set_norm d1 d2 _ H).
  destruct (memSeek (mfd d2) _ _) as [m0 |]; [| cbn; auto].
  destruct (read_status g t m0) as [[[[[st t1] m1] |] t1'] m1'];
    [| cbn; auto using norm_set_mfd].
  destruct (st <? 0x80); [cbn; auto using norm_set_mfd |].
  apply orel_erase_norm.
  refine (resp_bind erase _ _ _ _ _ _ _ (norm_erase_set_mfd _ _ _ H)).
  - repeat match goal with
    | |- resp _ (if ?c then _ else _) => destruct c
    end;
    first [apply readVarQ_resp; erase_hyps | apply resp_ret
          | apply resp_bind; [apply decodeMetaEvent_resp; erase_hyps | intro; apply resp_ret]].
  - intro len. apply resp_bind; [apply read_data_resp; erase_hyps |].
    intros data t' e1 e2 He.
    destruct (_ && _); [cbn; auto |].
    apply decodeDelta_resp; [erase_hyps .. |]. apply emit_opt_resp; [erase_hyps | exact He].
Qed.

Lemma decodeTrackEvent_resp (g : Z) (t : kmtrk) (d1 d2 : kmdec) :
  norm d1 = norm d2 -> orel norm (decodeTrackEvent g d1 t d1) (decodeTrackEvent g d2 t d2).
Proof.
  intro H. pose proof (norm_field d1 d2 H) as [Hf _].
  unfold decodeTrackEvent. rewrite Hf.
  destruct (format d2 =? OS2MIDI) eqn:Ho; [| apply decodeEvent_resp_norm; exact H].
  apply orel_erase_norm. apply decodeOS2Event_resp; [erase_hyps .. |].
  apply norm_os2_erase; [exact H | rewrite Hf; apply Z.eqb_eq; exact Ho].
Qed.

Lemma norm_set_tracks (d1 d2 : kmdec) (ts : list kmtrk) :
  norm d1 = norm d2 -> norm (set_tracks d1 ts) = norm (set_tracks d2 ts).
Proof. dec_eq. Qed.

Lemma decode_tracks_resp (g : Z) (ts : list kmtrk) :
  forall pre nt d1 d2, norm d1 = norm d2 ->
  trel (decode_tracks g pre ts nt d1) (decode_tracks g pre ts nt d2).
Proof.
  induction ts as [| t rest IH]; intros pre nt d1 d2 H; cbn [decode_tracks].
  - cbn. auto using norm_set_tracks.
  - pose proof (norm_field d1 d2 H) as (_ & _ & _ & _ & _ & _ & _ & _ & _ & _ & Htk & _).
    rewrite Htk.
    destruct (nextTick t <=? tick d2); [| apply IH; exact H].
    pose proof (decodeTrackEvent_resp g t d1 d2 H) as Hr.
    destruct (decodeTrackEvent g d1 t d1) as [u1 t1 e1 | t1 e1 | |],
             (decodeTrackEvent g d2 t d2) as [u2 t2 e2 | t2 e2 | |];
      cbn [orel] in Hr; try contradiction; cbn [trel]; try exact I.
    + destruct Hr as [_ [<- He]]. apply IH. exact He.
    + destruct Hr as [<- He]. apply norm_set_tracks. exact He.
Qed.

Lemma advance_resp (mode : Z) (d1 d2 : kmdec) (nt : Z) :
  norm d1 = norm d2 -> drel (advance mode d1 nt) (advance mode d2 nt).
Proof.
  intro H. destruct d1, d2. unfold norm in H. cbn in H.
  injection H; clear H; intros; subst.
  unfold advance, set_buf, emit, set_time. simpl.
  repeat match goal with
  | |- context [if ?c then _ else _] => destruct c
  | |- context [match cdiv32 ?a ?b with _ => _ end] => destruct (cdiv32 a b)
  end; cbn [drel]; try exact I;
  (split; [reflexivity |]); unfold norm; cbn; f_equal; assumption.
Qed.

Lemma decode_resp (g : Z) (d1 d2 : kmdec) (mode : Z) :
  norm d1 = norm d2 -> drel (decode g d1 mode) (decode g d2 mode).
Proof.
  intro H. unfold decode.
  pose proof (norm_field d1 d2 H) as (_ & _ & _ & Htr & _).
  pose proof (decode_tracks_resp g (tracks d1) [] END_OF_TRACK d1 d2 H) as Hr.
  rewrite <- Htr.
  destruct (decode_tracks g [] (tracks d1) END_OF_TRACK d1) as [e1 n1 | e1 | |],
           (decode_tracks g [] (tracks d1) END_OF_TRACK d2) as [e2 n2 | e2 | |];
    cbn [trel] in Hr; try contradiction; cbn [drel]; try exact I.
  - destruct Hr as [<- He].
    pose proof (norm_field e1 e2 He) as (_ & _ & _ & _ & _ & _ & _ & _ & _ & _ & Htk & _).
    rewrite Htk. destruct (n1 =? END_OF_TRACK); [cbn; auto |].
    destruct (tick e2 <? n1); [apply advance_resp; exact He | cbn; auto].
  - auto.
Qed.

Lemma decodeTrackEvent_statics (g : Z) (d : kmdec) (t : kmtrk) (d0 : kmdec) :
  holds (fun t' d' => span t' = span t /\ statics d' = statics d0 /\ duration d' = duration d0)
    (decodeTrackEvent g d t d0).
Proof.
  unfold decodeTrackEvent.
  destruct (format d =? OS2MIDI); [apply decodeOS2Event_keeps | apply decodeEvent_keeps];
    try (split; [reflexivity | split; reflexivity]);
    intros *; unfold statics, span, same_file; cbn;
    try (intros [-> ->]); intros [H1 [H2 H3]]; rewrite <- H1, <- H2, <- H3; auto.
Qed.

Lemma decode_tracks_statics (g : Z) (ts : list kmtrk) :
  forall pre nt d,
  tframe (fun d' => statics d' = statics d /\ duration d' = duration d
                    /\ map span (tracks d') = map span (rev pre ++ ts))
    (decode_tracks g pre ts nt d).
Proof.
  induction ts as [| t rest IH]; intros pre nt d; cbn [decode_tracks].
  - cbn. rewrite app_nil_r. auto.
  - assert (Hm : forall t', span t' = span t ->
              map span (rev (t' :: pre) ++ rest) = map span (rev pre ++ t :: rest)).
    { intros t' Ht. cbn [rev]. rewrite <- app_assoc. cbn [app].
      rewrite !map_app. cbn [map]. rewrite Ht. reflexivity. }
    destruct (nextTick t <=? tick d).
    + pose proof (decodeTrackEvent_statics g d t d) as K.
      destruct (decodeTrackEvent g d t d) as [u t' d1 | t' d1 | |]; cbn [holds] in K;
        cbn [tframe]; try exact I.
      * destruct K as [Hs [Hst Hdu]].
        specialize (IH (t' :: pre) (if nextTick t' <? nt then nextTick t' else nt) d1).
        destruct (decode_tracks _ _ _ _ _); cbn [tframe] in *; try exact I;
          (destruct IH as [H1 [H2 H3]]; rewrite H1, H2, H3, Hm by exact Hs; auto).
      * destruct K as [Hs [Hst Hdu]]. cbn [statics duration tracks set_tracks].
        unfold statics in Hst |- *. cbn. rewrite Hst, Hdu. split; [reflexivity | split; [reflexivity |]].
        rewrite !map_app. cbn [map]. rewrite Hs. reflexivity.
    + specialize (IH (t :: pre) (if nextTick t <? nt then nextTick t else nt) d).
      destruct (decode_tracks _ _ _ _ _); cbn [tframe] in *; try exact I;
        (destruct IH as [H1 [H2 H3]]; rewrite H1, H2, H3, Hm by reflexivity; auto).
Qed.

Lemma advance_statics (mode : Z) (d : kmdec) (nt r : Z) (d' : kmdec) :
  advance mode d nt = DRet r d' ->
  statics d' = statics d /\ duration d' = duration d /\ tracks d' = tracks d.
Proof.
  unfold advance.
  repeat match goal with
  | |- context [if ?c then _ else _] => destruct c
  | |- context [match cdiv32 ?a ?b with _ => _ end] => destruct (cdiv32 a b)
  end; intro H; try discriminate; injection H as <- <-; auto.
Qed.

Lemma decode_statics (g : Z) (d : kmdec) (mode r : Z) (d' : kmdec) :
  decode g d mode = DRet r d' ->
  statics d' = statics d /\ duration d' = duration d /\ spans d' = spans d.
Proof.
  unfold decode, spans.
  pose proof (decode_tracks_statics g (tracks d) [] END_OF_TRACK d) as K.
  destruct (decode_tracks g [] (tracks d) END_OF_TRACK d) as [d1 n | d1 | |];
    cbn [tframe rev app] in K; try discriminate.
  - destruct K as [H1 [H2 H3]].
    destruct (n =? END_OF_TRACK); [intro H; injection H as <- <-; auto |].
    destruct (tick d1 <? n); [| intro H; injection H as <- <-; auto].
    intro H. apply advance_statics in H. destruct H as [E1 [E2 E3]].
    rewrite E1, E2, E3. auto.
  - intro H. injection H as <- <-. exact K.
Qed.

Lemma s32_id (x : Z) : - 2 ^ 31 <= x < 2 ^ 31 -> s32 x = x.
Proof.
  intro H. unfold s32. rewrite Z.mod_small by lia. lia.
Qed.

Lemma u32_id (x : Z) : 0 <= x < 2 ^ 32 -> u32 x = x.
Proof. intro H. unfold u32. apply Z.mod_small. exact H. Qed.

Lemma u32_s32 (a x : Z) : u32 (a + s32 x) = u32 (a + x).
Proof.
  unfold u32, s32.
  rewrite (Z.mod_eq (x + 2 ^ 31) (2 ^ 32)) by lia.
  replace (a + (x + 2 ^ 31 - 2 ^ 32 * ((x + 2 ^ 31) / 2 ^ 32) - 2 ^ 31))
    with (a + x + (- ((x + 2 ^ 31) / 2 ^ 32)) * 2 ^ 32) by ring.
  apply Z.mod_add. lia.
Qed.

Lemma u32_range (x : Z) : 0 <= u32 x < 2 ^ 32.
Proof. unfold u32. apply Z.mod_pos_bound. lia. Qed.

Lemma decode_tracks_nt_le (g : Z) (ts : list kmtrk) :
  forall pre n d d' nt, decode_tracks g pre ts n d = TOk d' nt -> nt <= n.
Proof.
  induction ts as [| t rest IH]; intros pre n d d' nt H; cbn [decode_tracks] in H.
  - injection H as _ <-. lia.
  - destruct (nextTick t <=? tick d).
    + destruct (decodeTrackEvent g d t d) as [u t' d1 | | |]; try discriminate.
      apply IH in H. destruct (nextTick t' <? n) eqn:E; [apply Z.ltb_lt in E |]; lia.
    + apply IH in H. destruct (nextTick t <? n) eqn:E; [apply Z.ltb_lt in E |]; lia.
Qed.

Lemma decodeTrackEvent_clock (g : Z) (d : kmdec) (t : kmtrk) (d0 : kmdec) :
  holds (fun _ d' => clock d' = clock d0) (decodeTrackEvent g d t d0).
Proof.
  unfold decodeTrackEvent.
  destruct (format d =? OS2MIDI).
  - apply decodeOS2Event_keeps; [frame .. | reflexivity].
  - apply decodeEvent_keeps; [frame .. | reflexivity].
Qed.

Lemma decode_tracks_clock (g : Z) (ts : list kmtrk) :
  forall pre nt d, tframe (fun d' => clock d' = clock d) (decode_tracks g pre ts nt d).
Proof.
  induction ts as [| t rest IH]; intros pre nt d; cbn [decode_tracks].
  - reflexivity.
  - destruct (nextTick t <=? tick d).
    + pose proof (decodeTrackEvent_clock g d t d) as K.
      destruct (decodeTrackEvent g d t d) as [u t' d1 | t' d1 | |]; cbn [holds] in K;
        cbn [tframe]; try exact I.
      * specialize (IH (t' :: pre) (if nextTick t' <? nt then nextTick t' else nt) d1).
        destruct (decode_tracks _ _ _ _ _); cbn [tframe] in *; congruence.
      * exact K.
    + apply IH.
Qed.

(** the [nt] step 1 returns is at most the next tick of every track it leaves *)
Lemma decode_tracks_min (g : Z) (ts : list kmtrk) :
  forall pre n d d' nt, decode_tracks g pre ts n d = TOk d' nt ->
  exists ts', tracks d' = rev pre ++ ts' /\ Forall (fun t => nt <= nextTick t) ts'.
Proof.
  induction ts as [| t rest IH]; intros pre n d d' nt H; cbn [decode_tracks] in H.
  - injection H as <- _. exists []. rewrite app_nil_r. split; [reflexivity | constructor].
  - assert (Hstep : forall t1 d1,
              decode_tracks g (t1 :: pre) rest (if nextTick t1 <? n then nextTick t1 else n) d1
              = TOk d' nt ->
              exists ts', tracks d' = rev pre ++ ts' /\ Forall (fun t => nt <= nextTick t) ts').
    { intros t1 d1 H1.
      pose proof (decode_tracks_nt_le g rest _ _ _ _ _ H1) as Hle.
      destruct (IH _ _ _ _ _ H1) as [ts' [Htr Hf]].
      exists (t1 :: ts'). split.
      - rewrite Htr. cbn [rev]. rewrite <- app_assoc. reflexivity.
      - constructor; [| exact Hf].
        destruct (nextTick t1 <? n) eqn:E; [lia | apply Z.ltb_ge in E; lia]. }
    destruct (nextTick t <=? tick d).
    + destruct (decodeTrackEvent g d t d) as [u t' d1 | | |]; try discriminate.
      exact (Hstep t' d1 H).
    + exact (Hstep t d H).
Qed.

(** C5 (amended): step 1 of the scheduler.  When the loop over the tracks
    ([decode_tracks], step 1 of [decode]) decodes one event of every track
    with [nextTick <= tick] and succeeds, [tick] is unchanged and each such
    track ends with [nextTick] equal to [END_OF_TRACK], or unchanged, or
    moved forward by a delta below [2^28] modulo [2^32]; a zero delta
    leaves it at or below [tick].  The other tracks are unchanged.  When a
    track is left with [nextTick <= tick], the scheduler call returns 0
    with the decoder of step 1 itself, [tick] and [clock] unchanged: time
    does not advance, and the next call starts from that decoder, where the
    track again passes the test [nextTick <= tick] of step 1. *)
Theorem step1_next_ticks (g : Z) (d d' : kmdec) (nt mode : Z) :
  decode_tracks g [] (tracks d) END_OF_TRACK d = TOk d' nt ->
  tick d' = tick d
  /\ Forall2 (fun t t' => if nextTick t <=? tick d then next_step (nextTick t) (nextTick t')
                          else t' = t) (tracks d) (tracks d')
  /\ (tick d < END_OF_TRACK -> Exists (fun t => nextTick t <= tick d') (tracks d') ->
      decode g d mode = DRet 0 d' /\ tick d' = tick d /\ clock d' = clock d).
Proof.
  intro H. destruct (decode_tracks_next g (tracks d) [] END_OF_TRACK d d' nt H)
    as [Htk [ts' [Htr Hf]]].
  split; [exact Htk |]. split; [rewrite Htr; exact Hf |].
  intros Hend Hex.
  pose proof (decode_tracks_clock g (tracks d) [] END_OF_TRACK d) as Hc.
  rewrite H in Hc. cbn [tframe] in Hc.
  destruct (decode_tracks_min g (tracks d) [] END_OF_TRACK d d' nt H) as [ts2 [Htr2 Hmin]].
  cbn [rev app] in Htr2. rewrite Htr2 in Hex.
  apply Exists_exists in Hex as [t [Hin Hle]].
  rewrite Forall_forall in Hmin. specialize (Hmin t Hin).
  unfold decode. rewrite H.
  replace (nt =? END_OF_TRACK) with false by (symmetry; apply Z.eqb_neq; lia).
  replace (tick d' <? nt) with false by (symmetry; apply Z.ltb_ge; lia).
  auto.
Qed.

Lemma step1_next_ticks_witness :
  let d0 := set_tracks (new_dec [0; 0x90; 0x3C; 0x40; 0; 0x80; 0x3C; 0x40; 0; 0xFF; 0x2F; 0])
              [mkTrk 0 12 1 0 0] in
  exists d' nt,
    decode_tracks 0 [] (tracks d0) END_OF_TRACK d0 = TOk d' nt
    /\ tick d' = tick d0
    /\ Forall2 (fun t t' => if nextTick t <=? tick d0 then next_step (nextTick t) (nextTick t')
                            else t' = t) (tracks d0) (tracks d')
    /\ tick d0 < END_OF_TRACK /\ Exists (fun t => nextTick t <= tick d') (tracks d')
    /\ decode 0 d0 DECODE_PLAY = DRet 0 d' /\ clock d' = clock d0.
Proof.
  intro d0.
  set (r := decode_tracks 0 [] (tracks d0) END_OF_TRACK d0).
  exists (match r with TOk d' _ => d' | _ => d0 end), (match r with TOk _ nt => nt | _ => 0 end).
  assert (E : r = TOk (match r with TOk d' _ => d' | _ => d0 end)
                      (match r with TOk _ nt => nt | _ => 0 end)) by (vm_compute; reflexivity).
  assert (Ht : tick d0 < END_OF_TRACK) by (vm_compute; reflexivity).
  assert (Hx : Exists (fun t => nextTick t <= tick (match r with TOk d' _ => d' | _ => d0 end))
                 (tracks (match r with TOk d' _ => d' | _ => d0 end))).
  { vm_compute. apply Exists_cons_hd. discriminate. }
  destruct (step1_next_ticks 0 d0 _ _ DECODE_PLAY E) as (H1 & H2 & H3).
  destruct (H3 Ht Hx) as (H4 & _ & H5).
  repeat split; assumption.
Defined.

(** the time never reaches [END_OF_TRACK] *)
Lemma advance_tick (mode : Z) (d : kmdec) (nt r : Z) (d' : kmdec) :
  0 <= tick d < nt -> nt < END_OF_TRACK ->
  advance mode d nt = DRet r d' -> 0 <= tick d' < END_OF_TRACK.
Proof.
  intros Ht Hn. unfold advance. cbv zeta.
  destruct (tempo d =? 0); [discriminate |].
  set (tps := s32 (division d * CLOCK_BASE / tempo d)).
  set (dl1 := s32 (Z.quot (s32 (tps * clockUnit d)) CLOCK_BASE)).
  set (dl2 := if dl1 =? 0 then 1 else dl1).
  assert (Hdl : 0 <= u32 (tick d + (if nt <? u32 (tick d + dl2)
                                    then s32 (u32 (nt - tick d)) else dl2)) < END_OF_TRACK).
  { destruct (nt <? u32 (tick d + dl2)) eqn:E.
    - apply Z.ltb_lt in E. rewrite u32_s32.
      rewrite (u32_id (nt - tick d)) by (unfold END_OF_TRACK in *; lia).
      rewrite u32_id by (unfold END_OF_TRACK in *; lia). lia.
    - apply Z.ltb_ge in E. pose proof (u32_range (tick d + dl2)). lia. }
  destruct (mode =? DECODE_PLAY).
  - destruct (cdiv32 _ _) as [samples |]; [| discriminate].
    destruct (s32 (samples * sampleSize d) <? 0).
    + intro H. injection H as _ <-. unfold END_OF_TRACK in *. lia.
    + destruct (tps =? 0); [discriminate |].
      intro H. injection H as _ <-. exact Hdl.
  - destruct (tps =? 0); [discriminate |].
    intro H. injection H as _ <-. exact Hdl.
Qed.

Lemma decode_tracks_tick (g : Z) (ts : list kmtrk) :
  forall pre nt d, tframe (fun d' => tick d' = tick d) (decode_tracks g pre ts nt d).
Proof.
  induction ts as [| t rest IH]; intros pre nt d; cbn [decode_tracks].
  - reflexivity.
  - destruct (nextTick t <=? tick d).
    + pose proof (decodeTrackEvent_tick g d t d) as K.
      destruct (decodeTrackEvent g d t d) as [u t' d1 | t' d1 | |]; cbn [holds] in K;
        unfold tick_is in K; cbn [tframe]; try exact I.
      * specialize (IH (t' :: pre) (if nextTick t' <? nt then nextTick t' else nt) d1).
        destruct (decode_tracks _ _ _ _ _); cbn [tframe] in *; congruence.
      * exact K.
    + apply IH.
Qed.

Lemma decode_tick (g : Z) (d : kmdec) (mode r : Z) (d' : kmdec) :
  0 <= tick d < END_OF_TRACK -> decode g d mode = DRet r d' -> 0 <= tick d' < END_OF_TRACK.
Proof.
  intro Ht. unfold decode.
  destruct (decode_tracks g [] (tracks d) END_OF_TRACK d) as [d1 n | d1 | |] eqn:E;
    try discriminate.
  - pose proof (decode_tracks_next g (tracks d) [] END_OF_TRACK d d1 n E) as [Hk _].
    pose proof (decode_tracks_nt_le g (tracks d) [] END_OF_TRACK d d1 n E) as Hn.
    destruct (n =? END_OF_TRACK) eqn:En; [intro H; injection H as _ <-; lia |].
    apply Z.eqb_neq in En.
    destruct (tick d1 <? n) eqn:Elt; [| intro H; injection H as _ <-; lia].
    apply Z.ltb_lt in Elt. apply advance_tick; lia.
  - intro H. injection H as _ <-.
    pose proof (decode_tracks_tick g (tracks d) [] END_OF_TRACK d) as K.
    rewrite E in K. cbn [tframe] in K. rewrite K. exact Ht.
Qed.

Lemma decode_tracks_ended (g : Z) (d : kmdec) (ts : list kmtrk) :
  tick d < END_OF_TRACK -> forallb (fun t => nextTick t =? END_OF_TRACK) ts = true ->
  forall pre, decode_tracks g pre ts END_OF_TRACK d
              = TOk (set_tracks d (rev pre ++ ts)) END_OF_TRACK.
Proof.
  intros Ht. induction ts as [| t rest IH]; intros Hall pre; cbn [decode_tracks].
  - rewrite app_nil_r. reflexivity.
  - cbn [forallb] in Hall. apply andb_true_iff in Hall as [He Hall].
    apply Z.eqb_eq in He. rewrite He.
    replace (END_OF_TRACK <=? tick d) with false by (symmetry; apply Z.leb_gt; exact Ht).
    rewrite Z.ltb_irrefl. rewrite IH by exact Hall.
    cbn [rev]. rewrite <- app_assoc. reflexivity.
Qed.

Lemma set_tracks_same (d : kmdec) : set_tracks d (tracks d) = d.
Proof. destruct d. reflexivity. Qed.

(** once every track has ended, [decode] returns [-1] and changes nothing *)
Lemma decode_ended (g : Z) (d : kmdec) (mode : Z) :
  tick d < END_OF_TRACK -> all_tracks_ended d = true -> decode g d mode = DRet (-1) d.
Proof.
  intros Ht Hall. unfold decode.
  rewrite (decode_tracks_ended g d (tracks d) Ht Hall []).
  rewrite Z.eqb_refl. cbn [rev app]. rewrite set_tracks_same. reflexivity.
Qed.

(** rendering does not change where a step of the scheduler goes, except
    that a failed allocation of the sample buffer ends the call with the
    decoder as it was *)
Lemma advance_mode_cases (mode : Z) (d : kmdec) (nt r r2 : Z) (d' x : kmdec) :
  mode = DECODE_SEEK \/ mode = DECODE_PLAY ->
  advance DECODE_SEEK d nt = DRet r d' -> advance mode d nt = DRet r2 x ->
  (r2 = r /\ norm x = norm d') \/ (r2 = -1 /\ x = d).
Proof.
  intros [-> | ->] Hs Hm; [left; rewrite Hs in Hm; injection Hm as <- <-; auto |].
  revert Hs Hm. unfold advance. cbv zeta.
  change (DECODE_SEEK =? DECODE_PLAY) with false.
  change (DECODE_PLAY =? DECODE_PLAY) with true.
  cbv iota beta.
  destruct (tempo d =? 0); [discriminate |].
  destruct (cdiv32 _ _) as [samples |]; [| discriminate].
  destruct (s32 (samples * sampleSize d) <? 0).
  - intros _ H. injection H as <- <-. auto.
  - destruct (s32 (division d * CLOCK_BASE / tempo d) =? 0); [discriminate |].
    intros H1 H2. injection H1 as <- <-. injection H2 as <- <-.
    left. split; [reflexivity |]. destruct d; reflexivity.
Qed.

(** step 1 leaves every track alone when all of them are ahead of [tick] *)
Lemma decode_tracks_idle (g : Z) (ts : list kmtrk) :
  forall pre n d, Forall (fun t => tick d < nextTick t) ts ->
  decode_tracks g pre ts n d
  = TOk (set_tracks d (rev pre ++ ts))
        (fold_left (fun m t => if nextTick t <? m then nextTick t else m) ts n).
Proof.
  induction ts as [| t rest IH]; intros pre n d H; cbn [decode_tracks fold_left].
  - rewrite app_nil_r. reflexivity.
  - inversion H as [| ? ? Ht Hr]; subst.
    replace (nextTick t <=? tick d) with false by (symmetry; apply Z.leb_gt; lia).
    rewrite IH by exact Hr. cbn [rev]. rewrite <- app_assoc. reflexivity.
Qed.

(** the [nt] step 1 returns is the minimum of [END_OF_TRACK] and the next
    ticks of the tracks it leaves *)
Lemma decode_tracks_fold (g : Z) (ts : list kmtrk) :
  forall pre n d d' nt, decode_tracks g pre ts n d = TOk d' nt ->
  exists ts', tracks d' = rev pre ++ ts'
    /\ nt = fold_left (fun m t => if nextTick t <? m then nextTick t else m) ts' n.
Proof.
  induction ts as [| t rest IH]; intros pre n d d' nt H; cbn [decode_tracks] in H.
  - injection H as <- <-. exists []. rewrite app_nil_r. split; reflexivity.
  - assert (Hstep : forall t1 d1,
              decode_tracks g (t1 :: pre) rest (if nextTick t1 <? n then nextTick t1 else n) d1
              = TOk d' nt ->
              exists ts', tracks d' = rev pre ++ ts'
                /\ nt = fold_left (fun m t => if nextTick t <? m then nextTick t else m) ts' n).
    { intros t1 d1 H1.
      destruct (IH _ _ _ _ _ H1) as [ts' [Htr Hf]].
      exists (t1 :: ts'). split.
      - rewrite Htr. cbn [rev]. rewrite <- app_assoc. reflexivity.
      - exact Hf. }
    destruct (nextTick t <=? tick d).
    + destruct (decodeTrackEvent g d t d) as [u t' d1 | | |]; try discriminate.
      exact (Hstep t' d1 H).
    + exact (Hstep t d H).
Qed.

(** from a decoder left after step 1, a call does step 1 again without
    decoding anything and then goes on as the interrupted call would have *)
Lemma mid_step_decode (g : Z) (d e : kmdec) (mode r r2 : Z) (d' e' : kmdec) :
  mode = DECODE_SEEK \/ mode = DECODE_PLAY -> mid_step g d e ->
  decode g d DECODE_SEEK = DRet r d' -> decode g e mode = DRet r2 e' ->
  (r2 = r /\ norm e' = norm d') \/ (r2 = -1 /\ mid_step g d e').
Proof.
  intros Hm (d1 & nt & E & Hne & Hlt & Hn) Hs He.
  unfold decode in Hs. rewrite E in Hs.
  replace (nt =? END_OF_TRACK) with false in Hs by (symmetry; apply Z.eqb_neq; exact Hne).
  replace (tick d1 <? nt) with true in Hs by (symmetry; apply Z.ltb_lt; exact Hlt).
  pose proof (norm_field e d1 Hn) as (_ & _ & _ & Etr & _ & _ & _ & _ & _ & _ & Etk & _).
  destruct (decode_tracks_min g (tracks d) [] END_OF_TRACK d d1 nt E) as [ts1 [Htr1 Hmin]].
  destruct (decode_tracks_fold g (tracks d) [] END_OF_TRACK d d1 nt E) as [ts2 [Htr2 Hnt]].
  cbn [rev app] in Htr1, Htr2.
  assert (ts1 = ts2) by congruence. subst ts1. rewrite Htr2 in Hmin.
  assert (Hid : decode_tracks g [] (tracks e) END_OF_TRACK e = TOk e nt).
  { rewrite Etr, Htr2, decode_tracks_idle.
    - cbn [rev app]. rewrite <- Hnt, <- Htr2, <- Etr, set_tracks_same. reflexivity.
    - eapply Forall_impl; [| exact Hmin]. intros t Ht. cbn beta in *. lia. }
  unfold decode in He. rewrite Hid in He.
  replace (nt =? END_OF_TRACK) with false in He by (symmetry; apply Z.eqb_neq; exact Hne).
  replace (tick e <? nt) with true in He by (symmetry; apply Z.ltb_lt; lia).
  pose proof (advance_resp mode e d1 nt Hn) as R. rewrite He in R.
  destruct (advance mode d1 nt) as [r3 x | |] eqn:Ea; cbn [drel] in R; try contradiction.
  destruct R as [<- Hx].
  destruct (advance_mode_cases mode d1 nt r r2 d' x Hm Hs Ea) as [[-> Hn'] | [-> ->]].
  - left. split; [reflexivity | congruence].
  - right. split; [reflexivity |]. exists d1, nt. auto.
Qed.

(** a call from [d] in seek or play mode ends where the seek-mode call ends,
    or after step 1 *)
Lemma decode_mode_cases (g : Z) (d : kmdec) (mode r r2 : Z) (d' x : kmdec) :
  mode = DECODE_SEEK \/ mode = DECODE_PLAY ->
  decode g d DECODE_SEEK = DRet r d' -> decode g d mode = DRet r2 x ->
  (r2 = r /\ norm x = norm d') \/ (r2 = -1 /\ mid_step g d x).
Proof.
  intros Hm Hs Hx. unfold decode in Hs, Hx.
  destruct (decode_tracks g [] (tracks d) END_OF_TRACK d) as [d1 nt | d1 | |] eqn:E;
    try discriminate.
  - destruct (nt =? END_OF_TRACK) eqn:En.
    + injection Hs as <- <-. injection Hx as <- <-. auto.
    + destruct (tick d1 <? nt) eqn:Elt.
      * destruct (advance_mode_cases mode d1 nt r r2 d' x Hm Hs Hx) as [H | [-> ->]];
          [left; exact H |].
        right. split; [reflexivity |]. exists d1, nt.
        split; [exact E |]. split; [apply Z.eqb_neq; exact En |].
        split; [apply Z.ltb_lt; exact Elt | reflexivity].
      * injection Hs as <- <-. injection Hx as <- <-. auto.
  - injection Hs as <- <-. injection Hx as <- <-. auto.
Qed.

Lemma norm_statics (d1 d2 : kmdec) : norm d1 = norm d2 ->
  statics d1 = statics d2 /\ spans d1 = spans d2 /\ tick d1 = tick d2 /\ clock d1 = clock d2.
Proof.
  intro H. pose proof (norm_field d1 d2 H)
    as (E1 & E2 & E3 & E4 & E5 & E6 & E7 & _ & _ & _ & E11 & E12 & E13 & E14).
  unfold statics, spans. rewrite E1, E2, E3, E4, E5, E6, E7, E11, E12, E13, E14. auto.
Qed.

Lemma prescan_clock (g : Z) (f : nat) :
  forall d dN, prescan_clean g f d = true -> prescan g f d = Done dN -> clock d <= clock dN.
Proof.
  induction f as [| f IH]; intros d dN Hc Hs; [discriminate |].
  cbn [prescan_clean prescan] in Hc, Hs.
  destruct (decode g d DECODE_SEEK) as [r d' | |]; try discriminate.
  apply andb_true_iff in Hc as [Hc Hr]. apply Z.leb_le in Hc.
  destruct (r =? -1).
  - injection Hs as <-. exact Hc.
  - specialize (IH d' dN Hr Hs). lia.
Qed.

Section Replay.

(** [d0]: the decoder the pre-scan starts from; [dN0]: where it stops *)
Variables (g : Z) (d0 : kmdec) (f0 : nat) (dN0 : kmdec).
Hypothesis reset_d0 : forall e, statics e = statics d0 -> spans e = spans d0 ->
  exists x, reset g e = (0, x) /\ norm x = norm d0 /\ duration x = duration e.
Hypothesis clean0 : prescan_clean g f0 d0 = true.
Hypothesis scan0 : prescan g f0 d0 = Done dN0.
Hypothesis tick0 : tick d0 = 0.
Hypothesis clock0 : clock d0 = 0.

Local Abbreviation on_scan := (scan_point g d0 dN0).
Local Abbreviation Inv := (replay_inv g d0 dN0).

Lemma on_scan_d0 : on_scan d0.
Proof.
  exists f0, dN0. rewrite tick0, clock0. unfold END_OF_TRACK.
  repeat split; try lia; auto.
Qed.

Lemma on_scan_step (d : kmdec) :
  on_scan d -> exists r d', decode g d DECODE_SEEK = DRet r d' /\ on_scan d'.
Proof.
  intros (f & dN & Ht & Hc & Hs & Hp & Hclean & Hscan & HdN).
  destruct f as [| f]; [discriminate |].
  cbn [prescan_clean prescan] in Hclean, Hscan.
  destruct (decode g d DECODE_SEEK) as [r d' | |] eqn:E; try discriminate.
  exists r, d'. split; [reflexivity |].
  apply andb_true_iff in Hclean as [Hmono Hnext]. apply Z.leb_le in Hmono.
  pose proof (decode_tick g d DECODE_SEEK r d' Ht E) as Ht'.
  pose proof (decode_statics g d DECODE_SEEK r d' E) as (Hs' & _ & Hp').
  destruct (r =? -1).
  - injection Hscan as <-.
    exists 1%nat, d'. split; [exact Ht' | split; [lia | split; [congruence | split; [congruence |]]]].
    cbn [prescan_clean prescan].
    rewrite (decode_ended g d' DECODE_SEEK (proj2 Ht') Hnext).
    rewrite Z.leb_refl, Hnext. cbn. auto.
  - exists f, dN. repeat split; try lia; try congruence; assumption.
Qed.

Lemma Inv_decode (e : kmdec) (mode r : Z) (e' : kmdec) :
  mode = DECODE_SEEK \/ mode = DECODE_PLAY ->
  Inv e -> decode g e mode = DRet r e' -> Inv e'.
Proof.
  intros Hm [Hdur [d [Hon Hn]]] He.
  pose proof (on_scan_step d Hon) as (r2 & d2 & Hd & Hon2).
  pose proof (decode_statics g e mode r e' He) as (_ & Hdur' & _).
  split; [congruence |].
  destruct Hn as [Hn | Hmid].
  - pose proof (decode_resp g e d mode Hn) as Hrel. rewrite He in Hrel.
    destruct (decode g d mode) as [r1 x | |] eqn:Ex; cbn [drel] in Hrel; try contradiction.
    destruct Hrel as [<- Hx].
    destruct (decode_mode_cases g d mode r2 r d2 x Hm Hd Ex) as [[_ Hx2] | [_ Hmid]].
    + exists d2. split; [exact Hon2 | left; congruence].
    + exists d. split; [exact Hon | right].
      destruct Hmid as (d1 & nt & E & Hne & Hlt & Hn1). exists d1, nt.
      split; [exact E | split; [exact Hne | split; [exact Hlt | congruence]]].
  - destruct (mid_step_decode g d e mode r2 r d2 e' Hm Hmid Hd He) as [[_ Hx2] | [_ Hmid']].
    + exists d2. split; [exact Hon2 | left; exact Hx2].
    + exists d. split; [exact Hon | right; exact Hmid'].
Qed.

Lemma Inv_set_buf (e : kmdec) (a b : Z) : Inv e -> Inv (set_buf e a b).
Proof. intros [H1 H2]. split; [exact H1 | exact H2]. Qed.

Lemma Inv_decode_loop (fuel : nat) :
  forall e size total e' n, Inv e -> decode_loop g fuel e size total = Done (e', n) -> Inv e'.
Proof.
  induction fuel as [| f IH]; intros e size total e' n Hi H; cbn [decode_loop] in H;
    [discriminate |].
  destruct (size <=? 0); [injection H as <- _; exact Hi |].
  destruct (bufLen e =? 0) eqn:Eb.
  - destruct (decode g e DECODE_PLAY) as [r e1 | |] eqn:E; try discriminate.
    pose proof (Inv_decode e DECODE_PLAY r e1 (or_intror eq_refl) Hi E) as Hi1.
    destruct (r =? -1); [injection H as <- _; exact Hi1 |].
    eapply IH; [apply Inv_set_buf; exact Hi1 | exact H].
  - cbn beta iota in H. change (0 =? -1) with false in H. cbn iota zeta in H.
    eapply IH; [apply Inv_set_buf; exact Hi | exact H].
Qed.

Lemma Inv_reset (e : kmdec) : Inv e -> Inv (snd (reset g e)).
Proof.
  intros [Hdur [d [Hon Hn]]].
  assert (Hse : statics e = statics d /\ spans e = spans d).
  { destruct Hn as [Hn | (d1 & nt & E & _ & _ & Hn)].
    - pose proof (norm_statics e d Hn) as (Hs & Hp & _). auto.
    - pose proof (norm_statics e d1 Hn) as (Hs & Hp & _).
      pose proof (decode_tracks_statics g (tracks d) [] END_OF_TRACK d) as K.
      rewrite E in K. cbn [tframe rev app] in K. destruct K as (Hs1 & _ & Hp1).
      split; [congruence |]. rewrite Hp. unfold spans. exact Hp1. }
  destruct Hse as [Hs Hp].
  destruct Hon as (_ & _ & _ & _ & Hs0 & Hp0 & _).
  destruct (reset_d0 e ltac:(congruence) ltac:(congruence)) as (x & Hr & Hx & Hdx).
  rewrite Hr. cbn [snd]. split; [congruence |].
  exists d0. split; [exact on_scan_d0 | left; exact Hx].
Qed.

Lemma Inv_seek_loop (fuel : nat) :
  forall e c e', Inv e -> seek_loop g fuel e c = Done e' -> Inv e'.
Proof.
  induction fuel as [| f IH]; intros e c e' Hi H; cbn [seek_loop] in H; [discriminate |].
  destruct (clock e <? c); [| injection H as <-; exact Hi].
  destruct (decode g e DECODE_SEEK) as [r e1 | |] eqn:E; try discriminate.
  pose proof (Inv_decode e DECODE_SEEK r e1 (or_introl eq_refl) Hi E) as Hi1.
  destruct (r =? -1); [injection H as <-; exact Hi1 | eapply IH; eassumption].
Qed.

Lemma Inv_api (e : kmdec) : Inv e ->
  (forall fuel size e' n, kmdecDecode g fuel (Some e) size = Done (Some e', n) -> Inv e')
  /\ (forall fuel off origin e' r, kmdecSeek g fuel (Some e) off origin = Done (Some e', r) -> Inv e').
Proof.
  intro Hi. split.
  - intros fuel size e' n H. unfold kmdecDecode in H.
    destruct (decode_loop g fuel e size 0) as [[e1 n1] | | |] eqn:E; try discriminate.
    injection H as <- _. eapply Inv_decode_loop; eassumption.
  - intros fuel off origin e' r H. unfold kmdecSeek in H.
    destruct (seek_target e off origin) as [c |]; [| injection H as <- _; exact Hi].
    destruct (seek_loop g fuel (if c <? clock e then snd (reset g e) else e) c) eqn:E;
      try discriminate.
    injection H as <- _. eapply Inv_seek_loop; [| exact E].
    destruct (c <? clock e); [apply Inv_reset |]; exact Hi.
Qed.

Lemma Inv_clock (e : kmdec) : Inv e -> 0 <= clock e <= clock dN0 /\ duration e = clock dN0.
Proof.
  intros [Hdur [d [Hon Hn]]].
  assert (Hc : clock e = clock d).
  { destruct Hn as [Hn | (d1 & nt & E & _ & _ & Hn)].
    - exact (proj2 (proj2 (proj2 (norm_statics e d Hn)))).
    - pose proof (norm_statics e d1 Hn) as (_ & _ & _ & Hc).
      pose proof (decode_tracks_clock g (tracks d) [] END_OF_TRACK d) as K.
      rewrite E in K. cbn [tframe] in K. congruence. }
  destruct Hon as (f & dN & _ & Hc0 & _ & _ & Hclean & Hscan & HdN).
  pose proof (prescan_clock g f d dN Hclean Hscan). lia.
Qed.

End Replay.

Lemma readVarQ_loop_status (fuel : nat) :
  forall b vq t d s,
  readVarQ_loop fuel b vq (set_status t s) d = status_map s (readVarQ_loop fuel b vq t d).
Proof.
  induction fuel as [| f IH]; intros b vq t d s; cbn [readVarQ_loop]; [reflexivity |].
  destruct (memRead (mfd d) [b] 1) as [[bs k] m].
  replace (set_offset (set_status t s) (u32 (offset (set_status t s) + 1)))
    with (set_status (set_offset t (u32 (offset t + 1))) s) by reflexivity.
  destruct (Z.testbit _ 7); [apply IH | reflexivity].
Qed.

(** the running status of a track plays no part in reading a delta *)
Lemma decodeDelta_status (g : Z) (t : kmtrk) (d : kmdec) (s : Z) :
  decodeDelta g (set_status t s) d = status_map s (decodeDelta g t d).
Proof.
  unfold decodeDelta. cbn [length offset set_status].
  destruct (length t <=? offset t); [reflexivity |].
  unfold bind. unfold readVarQ. rewrite readVarQ_loop_status.
  destruct (readVarQ_loop 4 g 0 t d); reflexivity.
Qed.

(** a delta read moves the file offset and nothing else of the decoder *)
Lemma decodeDelta_dec (g : Z) (t : kmtrk) (d : kmdec) :
  holds (fun _ d' => exists m, d' = set_mfd d m /\ same_file (mfd d) m) (decodeDelta g t d).
Proof.
  apply decodeDelta_keeps.
  - intros; assumption.
  - intros t' d1 m Hm [m1 [-> H1]]. exists m. rewrite set_mfd_twice. split; [reflexivity |].
    eapply same_file_trans; [exact H1 | exact Hm].
  - intros; assumption.
  - exists (mfd d). split; [destruct d; reflexivity | split; reflexivity].
Qed.

Lemma set_status_twice (t : kmtrk) (a b : Z) : set_status (set_status t a) b = set_status t b.
Proof. reflexivity. Qed.

Lemma set_status_same (t : kmtrk) : set_status t (status t) = t.
Proof. destruct t; reflexivity. Qed.

Lemma decodeDelta_fresh (g : Z) (file : list Z) (L : Z) (t0 : kmtrk) (e : kmdec) (s : Z) :
  fresh_track g file L t0 -> mfd e = mkMem file L (start t0) ->
  exists m, decodeDelta g (set_status (mkTrk (start t0) (length t0) 0 0 0) s) e
            = Ret tt (set_status t0 s) (set_mfd e m) /\ same_file (mfd e) m.
Proof.
  intros (Hst & Hs0 & dd & dd' & Hdd & Hdec) He.
  rewrite decodeDelta_status.
  pose proof (decodeDelta_resp mfd (fun _ _ H => H) (fun _ _ _ _ => eq_refl) g
                (mkTrk (start t0) (length t0) 0 0 0) dd e ltac:(congruence)) as R.
  pose proof (decodeDelta_dec g (mkTrk (start t0) (length t0) 0 0 0) e) as K.
  rewrite Hdec in R.
  destruct (decodeDelta g (mkTrk (start t0) (length t0) 0 0 0) e) as [u t1 e1 | | |];
    cbn [orel] in R; try contradiction.
  destruct R as [<- [<- _]]. cbn [holds] in K. destruct K as [m [-> Hm]].
  exists m. split; [reflexivity | exact Hm].
Qed.

Lemma reset_tracks_smf (g : Z) (file : list Z) (L : Z) (ts0 : list kmtrk) :
  Forall (fresh_track g file L) ts0 -> Forall (fun t => status t = 0) ts0 ->
  forall ts pre e, format e <> OS2MIDI -> mbuffer (mfd e) = file -> mlength (mfd e) = L ->
  map span ts = map span ts0 ->
  exists m, reset_tracks g pre ts e = (Some (rev pre ++ ts0), set_mfd e m)
            /\ same_file (mfd e) m.
Proof.
  induction 1 as [| t0 rest0 Hf Hall IH]; intros Hst ts pre e Hfmt Hb Hl Hsp.
  - destruct ts; [| discriminate]. exists (mfd e). cbn. rewrite app_nil_r.
    split; [destruct e; reflexivity | split; reflexivity].
  - apply Forall_cons_iff in Hst as [Hs0 Hst'].
    destruct ts as [| t ts]; [discriminate |].
    cbn [map] in Hsp. unfold span in Hsp. injection Hsp as Hs1 Hl1 Hsp.
    destruct Hf as (Hrange & Hs00 & Hrest). 
    cbn [reset_tracks].
    cbn [start set_nextTick set_offset].
    rewrite memSeek_set by (rewrite Hs1; lia).
    cbn [format set_mfd]. replace (negb (format e =? OS2MIDI)) with true
      by (symmetry; apply negb_true_iff, Z.eqb_neq; exact Hfmt).
    destruct (decodeDelta_fresh g file L t0 (set_mfd e (set_moffset (mfd e) (start t)))
                (status t) (conj Hrange (conj Hs00 Hrest)))
      as [m1 [Hd Hm1]].
    { cbn. unfold set_moffset. rewrite Hb, Hl, Hs1. reflexivity. }
    replace (set_nextTick (set_offset t 0) 0)
      with (set_status (mkTrk (start t0) (length t0) 0 0 0) (status t))
      by (destruct t; cbn in Hs1, Hl1 |- *; rewrite Hs1, Hl1; reflexivity).
    rewrite Hd. rewrite set_status_twice, <- Hs0, set_status_same.
    rewrite set_mfd_twice.
    destruct (IH Hst' ts (t0 :: pre) (set_mfd e m1)) as [m [Hr Hm]];
      [exact Hfmt | destruct Hm1 as [Hb1 _]; cbn in Hb1 |- *; congruence
      | destruct Hm1 as [_ Hl1']; cbn in Hl1' |- *; congruence | exact Hsp |].
    rewrite Hr, set_mfd_twice. exists m.
    cbn [rev]. rewrite <- app_assoc. split; [reflexivity |].
    destruct Hm1 as [Hb1 Hl1'], Hm as [Hb2 Hl2]. cbn in *. split; congruence.
Qed.

Lemma norm_intro (a b : kmdec) :
  (if format a =? OS2MIDI then mfd a = mfd b else same_file (mfd a) (mfd b)) ->
  format a = format b -> ntracks a = ntracks b -> division a = division b ->
  tracks a = tracks b -> clockUnit a = clockUnit b -> sampleRate a = sampleRate b ->
  sampleSize a = sampleSize b -> tempo a = tempo b -> numerator a = numerator b ->
  denominator a = denominator b -> tick a = tick b -> clock a = clock b ->
  norm a = norm b.
Proof.
  destruct a as [[ba la oa] ? ? ? ? ? ? ? ? ? ? ? ? ? ? ? ?],
           b as [[bb lb ob] ? ? ? ? ? ? ? ? ? ? ? ? ? ? ? ?].
  unfold norm, same_file. cbn. intros Hm. intros. subst.
  destruct (_ =? OS2MIDI); [rewrite Hm; reflexivity |].
  destruct Hm as [-> ->]. reflexivity.
Qed.

(** [reset] brings any decoder over the same file, header, settings and
    tracks back to the decoder [openEx] starts its pre-scan from *)
Lemma reset_fresh (g : Z) (d0 e : kmdec) :
  fresh_state g d0 -> statics e = statics d0 -> spans e = spans d0 ->
  exists x, reset g e = (0, x) /\ norm x = norm d0 /\ duration x = duration e.
Proof.
  intros (Htk & Hck & Htp & Hnu & Hde & Htr) Hs Hp.
  unfold statics in Hs. injection Hs as Hb Hl Hf Hn Hdv Hcu Hra Hsz.
  unfold reset.
  destruct (format d0 =? OS2MIDI) eqn:Eos.
  - destruct Htr as (st & len & Ht0 & Ho & Hr).
    unfold spans in Hp. rewrite Ht0 in Hp.
    destruct (tracks e) as [| t [| ? ?]] eqn:Ete; try discriminate.
    cbn in Hp. injection Hp as Hst Hlen.
    cbn [reset_tracks]. rewrite memSeek_set by (cbn; lia).
    cbn [format set_mfd]. rewrite Hf, Eos. cbn [negb reset_tracks rev app].
    eexists. split; [reflexivity |]. split; [| reflexivity].
    apply norm_intro; cbn; try congruence.
    + rewrite Hf, Eos. unfold set_moffset. rewrite Hb, Hl, Hst, <- Ho.
      destruct (mfd d0); reflexivity.
    + rewrite Ht0. destruct t as [s0 l0 o0 n0 u0]. cbn in Hst, Hlen |- *. subst. reflexivity.
  - assert (Hfmt : format e <> OS2MIDI) by (apply Z.eqb_neq; congruence).
    assert (Hst : Forall (fun t => status t = 0) (tracks d0)).
    { eapply Forall_impl; [| exact Htr]. intros t (_ & H & _). exact H. }
    destruct (reset_tracks_smf g _ _ (tracks d0) Htr Hst (tracks e) [] e Hfmt Hb Hl Hp)
      as [m [Hr [Hmb Hml]]].
    rewrite Hr. cbn [rev app].
    eexists. split; [reflexivity |]. split; [| reflexivity].
    apply norm_intro; cbn; try congruence.
    rewrite Hf, Eos. split; congruence.
Qed.

Lemma memRead_ok (m : kmemfd) (buf : list Z) (n : Z) :
  mem_ok m -> 0 <= n -> mem_ok (snd (memRead m buf n)).
Proof.
  unfold mem_ok, memRead. intros H Hn.
  destruct ((n =? 0) || (mlength m =? moffset m)); cbn; lia.
Qed.

Lemma memSeek_ok (m m' : kmemfd) (off origin : Z) :
  memSeek m off origin = Some m' -> mem_ok m'.
Proof.
  unfold memSeek, mem_ok.
  destruct (_ || _) eqn:E; [discriminate |].
  apply orb_false_iff in E as [E1 E2]. apply Z.ltb_ge in E1, E2. intro H. injection H as <-. cbn. lia.
Qed.

Lemma memSeek_set_inv (m m' : kmemfd) (p : Z) :
  memSeek m p SEEK_SET = Some m' -> m' = set_moffset m p.
Proof.
  unfold memSeek. cbn - [Z.ltb]. destruct (_ || _); [discriminate |].
  intro H. injection H as <-. reflexivity.
Qed.

Lemma decodeDelta_span (g : Z) (t : kmtrk) (d : kmdec) :
  holds (fun t' _ => start t' = start t /\ length t' = length t /\ status t' = status t)
    (decodeDelta g t d).
Proof. apply decodeDelta_keeps; [frame .. | auto]. Qed.

Lemma init_tracks_fresh (g : Z) (n : nat) :
  forall data pre d ts d', init_tracks g n data pre d = Some (ts, d') ->
  mem_ok (mfd d) -> Forall (fresh_track g (mbuffer (mfd d)) (mlength (mfd d))) pre ->
  exists m, d' = set_mfd d m /\ same_file (mfd d) m
    /\ Forall (fresh_track g (mbuffer (mfd d)) (mlength (mfd d))) ts.
Proof.
  induction n as [| k IH]; intros data pre d ts d' H Hok Hpre; cbn [init_tracks] in H.
  - injection H as <- <-. exists (mfd d).
    split; [destruct d; reflexivity | split; [split; reflexivity | apply Forall_rev; exact Hpre]].
  - pose proof (memRead_ok (mfd d) data 8 Hok ltac:(lia)) as Hok1.
    pose proof (memRead_file (mfd d) data 8) as Hf1.
    destruct (memRead (mfd d) data 8) as [[data1 c] m] eqn:Er. cbn [snd] in Hok1, Hf1.
    destruct (negb _); [discriminate |].
    set (t := mkTrk (memTell m) (be32 (nth 4 data1 g) (nth 5 data1 g) (nth 6 data1 g)
                                      (nth 7 data1 g)) 0 0 0) in H.
    pose proof (decodeDelta_span g t (set_mfd d m)) as Ks.
    pose proof (decodeDelta_dec g t (set_mfd d m)) as Kd.
    destruct (decodeDelta g t (set_mfd d m)) as [u t1 d1 | | |] eqn:Ed; try discriminate.
    cbn [holds] in Ks, Kd. destruct Kd as [m1 [-> Hf2]]. rewrite set_mfd_twice in H.
    change (mfd (set_mfd d m1)) with m1 in H.
    change (mfd (set_mfd d m)) with m in Hf2.
    destruct (memSeek m1 (start t1 + length t1) SEEK_SET) as [m2 |] eqn:Es; [| discriminate].
    rewrite set_mfd_twice in H.
    pose proof (memSeek_file _ _ _ _ Es) as Hf3.
    assert (Hf : same_file (mfd d) m2) by eauto using same_file_trans.
    destruct Hf as [Hb Hl].
    assert (Hfresh : fresh_track g (mbuffer (mfd d)) (mlength (mfd d)) t1).
    { destruct Ks as (Hs & Hln & Hst). cbn in Hs, Hln, Hst.
      destruct Hf1 as [Hb1 Hl1]. unfold mem_ok in Hok1.
      split; [unfold memTell in Hs; lia | split; [exact Hst |]].
      exists (set_mfd d m), (set_mfd d m1). split.
      - cbn. rewrite Hs. unfold memTell. destruct m; cbn in *; congruence.
      - rewrite Hs, Hln. destruct u. exact Ed. }
    destruct (IH data1 (t1 :: pre) (set_mfd d m2) ts d' H (memSeek_ok _ _ _ _ Es))
      as [m' [-> [Hf' Hts]]].
    { cbn [mfd set_mfd]. rewrite Hb, Hl. constructor; assumption. }
    exists m'. rewrite set_mfd_twice. cbn [mfd set_mfd] in Hf', Hts.
    rewrite Hb, Hl in Hts. split; [reflexivity | split; [| exact Hts]].
    destruct Hf' as [Hb' Hl']. split; congruence.
Qed.

Lemma initMidiInfo_fresh (g : Z) (file : list Z) (d : kmdec) :
  initMidiInfo g (new_dec file) = Some d ->
  tick d = 0 /\ clock d = 0
  /\ if format d =? OS2MIDI then
       exists st len, tracks d = [mkTrk st len 0 0 0]
         /\ moffset (mfd d) = st /\ 0 <= st <= mlength (mfd d)
     else Forall (fresh_track g (mbuffer (mfd d)) (mlength (mfd d))) (tracks d).
Proof.
  assert (Hok0 : mem_ok (mfd (new_dec file))).
  { unfold mem_ok. cbn. pose proof (Zlength_correct file). lia. }
  unfold initMidiInfo.
  pose proof (memRead_ok _ (repeat g 14) 10 Hok0 ltac:(lia)) as Hok1.
  destruct (memRead (mfd (new_dec file)) (repeat g 14) 10) as [[data c] m].
  cbn [snd] in Hok1.
  destruct (dialect_prefix g data).
  - destruct (os2_division _ =? 0); [discriminate |].
    destruct (memSeek m 0 SEEK_END) as [m1 |]; [| discriminate].
    destruct (memSeek m1 (memTell m) SEEK_SET) as [m2 |] eqn:E2; [| discriminate].
    intro H. injection H as <-.
    split; [reflexivity | split; [reflexivity |]].
    cbn [format set_header]. rewrite Z.eqb_refl.
    pose proof (memSeek_ok _ _ _ _ E2) as Hok2. apply memSeek_set_inv in E2.
    eexists _, _. split; [reflexivity |].
    cbn. rewrite E2 in Hok2 |- *. unfold mem_ok in Hok2. cbn in Hok2 |- *.
    split; [reflexivity | lia].
  - pose proof (memRead_ok m (skipn 10 data) 4 Hok1 ltac:(lia)) as Hok2.
    destruct (memRead m (skipn 10 data) 4) as [[tl c'] m'].
    cbn [snd] in Hok2. cbv zeta.
    remember (firstn 10 data ++ tl) as data' eqn:Hd. clear Hd.
    destruct (negb _); [discriminate |].
    destruct (2 <=? _) eqn:Efmt; [discriminate |]. apply Z.leb_gt in Efmt.
    destruct (Z.testbit _ 15); [discriminate |].
    destruct (init_tracks g _ _ [] (set_mfd (new_dec file) m')) as [[ts d1] |] eqn:Ei;
      [| discriminate].
    intro H. injection H as <-.
    destruct (init_tracks_fresh g _ _ _ _ _ _ Ei Hok2 (Forall_nil _)) as [m2 [-> [Hf Hts]]].
    split; [reflexivity | split; [reflexivity |]].
    cbn [format set_header].
    match goal with |- context [?f =? OS2MIDI] =>
      replace (f =? OS2MIDI) with false by (symmetry; apply Z.eqb_neq; unfold OS2MIDI; lia) end.
    cbn [mfd set_header set_mfd tracks]. cbn [mfd set_mfd] in Hf, Hts.
    destruct Hf as [-> ->]. exact Hts.
Qed.

Lemma open_prescan_fresh (g : Z) (file : list Z) (env : audio_env) (d0 : kmdec) :
  open_prescan_state g file env = Some d0 -> fresh_state g d0.
Proof.
  unfold open_prescan_state.
  destruct (initMidiInfo g (new_dec file)) as [d |] eqn:E; [| discriminate].
  apply initMidiInfo_fresh in E. destruct E as (Ht & Hc & Htr).
  destruct (negb _); [discriminate |].
  destruct (negb _); [discriminate |].
  destruct (negb _); [discriminate |].
  intro H. injection H as <-.
  split; [exact Ht | split; [exact Hc | split; [reflexivity | split; [reflexivity | split; [reflexivity |]]]]].
  exact Htr.
Qed.

Lemma openEx_split (g : Z) (fuel : nat) (file : list Z) (env : audio_env) :
  openEx g fuel file env =
  match open_prescan_state g file env with
  | None => Done None
  | Some d =>
      match prescan g fuel d with
      | Done d =>
          let '(r, d) := reset g (set_duration d (clock d)) in
          if r =? -1 then Done None else Done (Some d)
      | Crashed => Crashed
      | Hung => Hung
      | OutOfFuel => OutOfFuel
      end
  end.
Proof.
  unfold openEx, open_prescan_state.
  destruct (initMidiInfo g (new_dec file)); [| reflexivity].
  repeat match goal with |- context [if ?c then _ else _] => destruct c end; reflexivity.
Qed.

Lemma prescan_statics (g : Z) (f : nat) :
  forall d dN, prescan g f d = Done dN -> statics dN = statics d /\ spans dN = spans d.
Proof.
  induction f as [| f IH]; intros d dN H; cbn [prescan] in H; [discriminate |].
  destruct (decode g d DECODE_SEEK) as [r d' | |] eqn:E; try discriminate.
  pose proof (decode_statics g d DECODE_SEEK r d' E) as (Hs & _ & Hp).
  destruct (r =? -1).
  - injection H as <-. auto.
  - destruct (IH d' dN H). split; congruence.
Qed.

Lemma ms_le (c D : Z) :
  0 <= c <= D -> D < 2 ^ 31 * 1000 ->
  s32 (u64 (1000 * c) / CLOCK_BASE) <= s32 (u64 (1000 * D) / CLOCK_BASE).
Proof.
  intros Hc HD. unfold u64, CLOCK_BASE.
  rewrite !Z.mod_small by lia.
  assert (0 <= 1000 * c / 1000000 <= 1000 * D / 1000000).
  { split; [apply Z.div_pos; lia | apply Z.div_le_mono; lia]. }
  assert (1000 * D / 1000000 < 2 ^ 31) by (apply Z.div_lt_upper_bound; lia).
  rewrite !s32_id by lia. lia.
Qed.

(** C2 (amended): take a file that [openEx] accepts and whose pre-scan is
    clean ([prescan_reaches_end]).  Clean means the pre-scan stops because
    every track has reached its end-of-track, not on a decoding error, and
    its clock never decreases.  If the duration is also below 2^31 ms, then
    [kmdecGetPosition] is at most [kmdecGetDuration] on every decoder that a
    sequence of [kmdecDecode] and [kmdecSeek] calls reaches from the opened
    one.  The proof shows that every such decoder agrees, on everything the
    scheduler reads, with a decoder on the pre-scan's path, or with one that
    a call from such a decoder left after step 1 when it could not allocate
    its sample buffer; its clock is at most the final pre-scan clock, the
    duration. *)
Theorem duration_bounds_position (g : Z) (fuel : nat) (file : list Z) (env : audio_env)
  (d e : kmdec) :
  openEx g fuel file env = Done (Some d) -> prescan_reaches_end g fuel file env = true ->
  duration d < 2 ^ 31 * 1000 -> api_reachable g d e ->
  kmdecGetPosition (Some e) <= kmdecGetDuration (Some e).
Proof.
  intros Ho Hpr HD Hr.
  rewrite openEx_split in Ho. unfold prescan_reaches_end in Hpr.
  destruct (open_prescan_state g file env) as [d0 |] eqn:Eo; [| discriminate].
  destruct (prescan g fuel d0) as [dN0 | | |] eqn:Es; try discriminate.
  destruct (reset g (set_duration dN0 (clock dN0))) as [r x] eqn:Er.
  destruct (r =? -1); [discriminate |]. injection Ho as <-.
  pose proof (open_prescan_fresh g file env d0 Eo) as Hf.
  pose proof Hf as (Htk & Hck & _).
  pose proof (fun e => reset_fresh g d0 e Hf) as Hreset.
  destruct (prescan_statics g fuel d0 dN0 Es) as [Hs Hp].
  destruct (Hreset (set_duration dN0 (clock dN0)) Hs Hp) as (x' & Hr' & Hn' & Hd').
  rewrite Er in Hr'. injection Hr' as -> <-.
  assert (Hx : replay_inv g d0 dN0 x).
  { split; [exact Hd' | exists d0; split; [eapply on_scan_d0; eassumption | left; exact Hn']]. }

  assert (He : replay_inv g d0 dN0 e).
  { induction Hr as [| e1 e2 f1 size n Hr1 IH Hdec | e1 e2 f1 off origin r1 Hr1 IH Hsk].
    - exact Hx.
    - exact (proj1 (Inv_api g d0 fuel dN0 Hreset Hpr Es Htk Hck e1 IH) f1 size e2 n Hdec).
    - exact (proj2 (Inv_api g d0 fuel dN0 Hreset Hpr Es Htk Hck e1 IH) f1 off origin e2 r1 Hsk). }
  destruct (Inv_clock g d0 dN0 e He) as [Hc HdE].
  unfold kmdecGetPosition, kmdecGetDuration.
  rewrite HdE. apply ms_le; [lia |]. rewrite Hd' in HD. exact HD.
Qed.

Lemma duration_bounds_position_witness :
  exists d d',
    openEx 0 1000 [0x4D; 0x54; 0x68; 0x64; 0; 0; 0; 6; 0; 0; 0; 1; 0x01; 0xE0;
                   0x4D; 0x54; 0x72; 0x6B; 0; 0; 0; 20;
                   0; 0xFF; 0x51; 3; 0x07; 0xA1; 0x20;
                   0x83; 0x60; 0xFF; 0x51; 3; 0x0F; 0x42; 0x40;
                   0x83; 0x60; 0xFF; 0x2F; 0]
      (mkEnv 16 2 44100 true true None) = Done (Some d)
    /\ prescan_reaches_end 0 1000
         [0x4D; 0x54; 0x68; 0x64; 0; 0; 0; 6; 0; 0; 0; 1; 0x01; 0xE0;
          0x4D; 0x54; 0x72; 0x6B; 0; 0; 0; 20;
          0; 0xFF; 0x51; 3; 0x07; 0xA1; 0x20;
          0x83; 0x60; 0xFF; 0x51; 3; 0x0F; 0x42; 0x40;
          0x83; 0x60; 0xFF; 0x2F; 0]
         (mkEnv 16 2 44100 true true None) = true
    /\ duration d < 2 ^ 31 * 1000
    /\ kmdecSeek 0 1000 (Some d) 700 KMDEC_SEEK_SET = Done (Some d', 0)
    /\ kmdecGetPosition (Some d') <= kmdecGetDuration (Some d').
Proof.
  do 2 eexists. split; [vm_compute; reflexivity |].
  split; [vm_compute; reflexivity |].
  split; [vm_compute; reflexivity |].
  split; [vm_compute; reflexivity |].
  eapply (duration_bounds_position 0 1000
           [0x4D; 0x54; 0x68; 0x64; 0; 0; 0; 6; 0; 0; 0; 1; 0x01; 0xE0;
            0x4D; 0x54; 0x72; 0x6B; 0; 0; 0; 20;
            0; 0xFF; 0x51; 3; 0x07; 0xA1; 0x20;
            0x83; 0x60; 0xFF; 0x51; 3; 0x0F; 0x42; 0x40;
            0x83; 0x60; 0xFF; 0x2F; 0]
           (mkEnv 16 2 44100 true true None)).
  - vm_compute. reflexivity.
  - vm_compute. reflexivity.
  - vm_compute. reflexivity.
  - eapply (api_seek _ _ _ _ 1000 700 KMDEC_SEEK_SET 0); [apply api_open |].
    vm_compute. reflexivity.
Defined.

(** C2 counterexample: an SMF file of division 96 whose one track holds a
    note-on at tick 0 and then a SysEx event [F0 01 00], whose data does not
    end in [F7].  [decodeEvent] fails on that event with the track's offset
    already past it.  The pre-scan stops there with clock 0, so the duration
    is 0.  After [openEx], the first [kmdecDecode] call fails on the same event
    and returns 0 bytes.  The second call resumes after it, and the position
    reaches 244 ms, above the duration of 0. *)
Lemma prescan_error_position_exceeds_duration :
  exists d e1 e2,
    openEx 0 1000 [0x4D; 0x54; 0x68; 0x64; 0; 0; 0; 6; 0; 0; 0; 1; 0; 0x60;
                   0x4D; 0x54; 0x72; 0x6B; 0; 0; 0; 12;
                   0; 0x90; 0x3C; 0x40; 0; 0xF0; 1; 0; 0x60; 0xFF; 0x2F; 0]
      (mkEnv 16 2 44100 true true None) = Done (Some d)
    /\ kmdecGetDuration (Some d) = 0
    /\ kmdecDecode 0 1000 (Some d) 100000000 = Done (Some e1, 0)
    /\ kmdecDecode 0 1000 (Some e1) 100000000 = Done (Some e2, 43052)
    /\ kmdecGetDuration (Some e2) = 0
    /\ kmdecGetPosition (Some e2) = 244.
Proof.
  do 3 eexists. split; [vm_compute; reflexivity |].
  split; [vm_compute; reflexivity |].
  split; [vm_compute; reflexivity |].
  split; [vm_compute; reflexivity |].
  split; vm_compute; reflexivity.
Qed.

(** [defaultSeek] rejects with [-1] every [int] origin outside 0..2
    (negative origins included, through the conversion to [size_t]) and
    otherwise calls [lseek] with the same offset and origin. *)
Theorem defaultSeek_origin_check (size_t_bits : Z) (lseek : Z -> Z -> Z) (offset origin : Z) :
  32 <= size_t_bits -> - 2 ^ 31 <= origin < 2 ^ 31 ->
  defaultSeek size_t_bits lseek offset origin
  = if (0 <=? origin) && (origin <=? 2) then lseek offset origin else -1.
Proof.
  intros Hw Ho. unfold defaultSeek.
  assert (Hp : 2 ^ 32 <= 2 ^ size_t_bits) by (apply Z.pow_le_mono_r; lia).
  destruct (Z.leb_spec 0 origin) as [Hn | Hn].
  - rewrite Z.mod_small by lia.
    destruct (Z.leb_spec origin 2) as [H2 | H2]; cbn [andb].
    + replace (3 <=? origin) with false by (symmetry; apply Z.leb_gt; lia).
      assert (origin = 0 \/ origin = 1 \/ origin = 2) as [-> | [-> | ->]] by lia; reflexivity.
    + replace (3 <=? origin) with true by (symmetry; apply Z.leb_le; lia). reflexivity.
  - rewrite <- (Z.mod_unique origin (2 ^ size_t_bits) (-1) (origin + 2 ^ size_t_bits)) by lia.
    replace (3 <=? origin + 2 ^ size_t_bits) with true by (symmetry; apply Z.leb_le; lia).
    reflexivity.
Qed.

Lemma msToTime_opp (n : Z) :
  msToTime (- n) =
  let '(h, m, s, hund) := msToTime n in (- h, - m, - s, - hund).
Proof.
  unfold msToTime. cbv zeta.
  rewrite (Z.quot_opp_l n 1000), (Z.rem_opp_l n 1000) by lia.
  rewrite (Z.quot_opp_l (Z.rem n 1000) 10) by lia.
  rewrite (Z.quot_opp_l (Z.quot n 1000) 60), (Z.rem_opp_l (Z.quot n 1000) 60) by lia.
  rewrite (Z.quot_opp_l (Z.quot (Z.quot n 1000) 60) 60),
    (Z.rem_opp_l (Z.quot (Z.quot n 1000) 60) 60) by lia.
  reflexivity.
Qed.

Lemma msToTime_nonneg (n : Z) : 0 <= n ->
  let '(h, m, s, hund) := msToTime n in
  h * 3600000 + m * 60000 + s * 1000 + hund * 10 + Z.rem n 10 = n
  /\ 0 <= h /\ 0 <= m < 60 /\ 0 <= s < 60 /\ 0 <= hund < 100.
Proof.
  intro Hn. unfold msToTime.
  assert (Hq : 0 <= Z.quot n 1000) by (apply Z.quot_pos; lia).
  assert (Hq2 : 0 <= Z.quot (Z.quot n 1000) 60) by (apply Z.quot_pos; lia).
  assert (Hr : 0 <= Z.rem n 1000) by (apply Z.rem_nonneg; lia).
  rewrite !Z.rem_mod_nonneg, !Z.quot_div_nonneg by (try apply Z.mod_pos_bound; try apply Z.div_pos; lia).
  pose proof (Z.div_mod n 1000 ltac:(lia)) as E1.
  pose proof (Z.div_mod (n mod 1000) 10 ltac:(lia)) as E2.
  pose proof (Z.div_mod (n / 1000) 60 ltac:(lia)) as E3.
  pose proof (Z.div_mod (n / 1000 / 60) 60 ltac:(lia)) as E4.
  pose proof (Z.mod_pos_bound n 1000 ltac:(lia)).
  pose proof (Z.mod_pos_bound (n mod 1000) 10 ltac:(lia)).
  pose proof (Z.mod_pos_bound (n / 1000) 60 ltac:(lia)).
  pose proof (Z.mod_pos_bound (n / 1000 / 60) 60 ltac:(lia)).
  assert (Hd : 0 <= n mod 1000 / 10 < 100).
  { split; [apply Z.div_pos; lia | apply Z.div_lt_upper_bound; lia]. }
  assert (H10 : n mod 10 = (n mod 1000) mod 10).
  { rewrite <- (Z.mod_mod_divide n 1000 10); [reflexivity |]. exists 100. lia. }
  assert (0 <= n / 1000 / 60 / 60) by (repeat apply Z.div_pos; lia).
  split; [| lia]. rewrite H10. lia.
Qed.

Lemma msToTime_nonpos (n : Z) : n <= 0 ->
  let '(h, m, s, hund) := msToTime n in
  h * 3600000 + m * 60000 + s * 1000 + hund * 10 + Z.rem n 10 = n
  /\ h <= 0 /\ -60 < m <= 0 /\ -60 < s <= 0 /\ -100 < hund <= 0.
Proof.
  intro Hn. replace n with (- (- n)) by lia.
  rewrite msToTime_opp.
  pose proof (msToTime_nonneg (- n) ltac:(lia)) as H.
  destruct (msToTime (- n)) as [[[h m] s] hund].
  rewrite Z.rem_opp_l by lia. lia.
Qed.

(** [msToTime] splits a millisecond count into hours, minutes, seconds and
    hundredths with nothing lost but the last digit; for a non-negative
    count minutes and seconds lie in [0, 60) and hundredths in [0, 100), for
    a negative one all parts are non-positive. *)
Theorem msToTime_decomposes (ms : Z) :
  let '(h, m, s, hund) := msToTime ms in
  h * 3600000 + m * 60000 + s * 1000 + hund * 10 + Z.rem ms 10 = ms
  /\ (0 <= ms -> 0 <= h /\ 0 <= m < 60 /\ 0 <= s < 60 /\ 0 <= hund < 100)
  /\ (ms <= 0 -> h <= 0 /\ -60 < m <= 0 /\ -60 < s <= 0 /\ -100 < hund <= 0).
Proof.
  pose proof (msToTime_nonneg ms) as P. pose proof (msToTime_nonpos ms) as N.
  destruct (msToTime ms) as [[[h m] s] hund].
  destruct (Z.leb_spec 0 ms) as [Hn | Hn].
  - destruct (P Hn) as [E R]. split; [exact E | split; [intros _; exact R |]].
    intro. destruct (N ltac:(lia)) as [_ R']. exact R'.
  - destruct (N ltac:(lia)) as [E R]. split; [exact E | split; [intros; lia | intros _; exact R]].
Qed.

Lemma defaultSeek_origin_check_witness :
  (32 <= 64 /\ - 2 ^ 31 <= -1 < 2 ^ 31) /\
  defaultSeek 64 (fun o w => o + 10 * w) 5 (-1)
  = if (0 <=? -1) && (-1 <=? 2) then (fun o w => o + 10 * w) 5 (-1) else -1.
Proof.
  split; [lia | apply (defaultSeek_origin_check 64 (fun o w => o + 10 * w) 5 (-1)); lia].
Defined.

Lemma Zlength_nonneg_Z (l : list Z) : 0 <= Zlength l.
Proof. rewrite Zlength_correct. lia. Qed.

Lemma memOpen_room (length size : Z) :
  size mod MEMFD_BUF_DELTA = 0 -> 0 <= length <= size ->
  let size' := if length =? size then size + MEMFD_BUF_DELTA else size in
  1 <= MEMFD_BUF_DELTA - length mod MEMFD_BUF_DELTA
  /\ length + (MEMFD_BUF_DELTA - length mod MEMFD_BUF_DELTA) <= size'
  /\ size' mod MEMFD_BUF_DELTA = 0 /\ length <= size'.
Proof.
  intros Hs Hl size'. unfold MEMFD_BUF_DELTA in *.
  pose proof (Z.mod_pos_bound length (64 * 1024) ltac:(lia)) as Hm.
  subst size'. destruct (Z.eqb_spec length size) as [-> | Hne].
  - rewrite Hs. split; [lia |]. split; [lia |]. split; [| lia].
    rewrite Zplus_mod, Hs, Z_mod_same_full. reflexivity.
  - split; [lia |]. split; [| split; [exact Hs | lia]].
    pose proof (Z.div_mod length (64 * 1024) ltac:(lia)) as Hd.
    pose proof (Z.div_mod size (64 * 1024) ltac:(lia)) as Hd2. rewrite Hs in Hd2.
    assert (length / (64 * 1024) < size / (64 * 1024)) by nia.
    nia.
Qed.

Lemma memOpen_grow (length size : Z) :
  0 <= size -> (length = size -> size + MEMFD_BUF_DELTA < 2 ^ 32) ->
  (if length =? size then u32 (size + MEMFD_BUF_DELTA) else size)
  = (if length =? size then size + MEMFD_BUF_DELTA else size).
Proof.
  intros H0 H. destruct (Z.eqb_spec length size); [| reflexivity].
  apply u32_id. unfold MEMFD_BUF_DELTA in *. lia.
Qed.

Lemma memOpen_loop_stream (lim : nat -> Z) (Hlim : forall k, 1 <= lim k) :
  forall fuel rest k buffer size,
  Zlength rest < Z.of_nat fuel ->
  size mod MEMFD_BUF_DELTA = 0 -> Zlength buffer <= size ->
  1 <= Zlength buffer + Zlength rest < 2 ^ 32 - MEMFD_BUF_DELTA ->
  memOpen_loop (stream_read lim) fuel (rest, k) buffer (Zlength buffer) size
  = Done (Some (mkMem (buffer ++ rest) (Zlength (buffer ++ rest)) 0)).
Proof.
  assert (HD : 0 < MEMFD_BUF_DELTA) by (unfold MEMFD_BUF_DELTA; lia).
  induction fuel as [| f IH]; intros rest k buffer size Hf Hs Hb Hr;
    [pose proof (Zlength_nonneg_Z rest); lia |].
  cbn [memOpen_loop stream_read].
  pose proof (Zlength_nonneg_Z buffer) as Hb0.
  pose proof (Zlength_nonneg_Z rest) as Hr0.
  rewrite memOpen_grow by lia.
  destruct (memOpen_room (Zlength buffer) size Hs ltac:(lia)) as (Hr1 & Hr2 & Hr3 & Hr4).
  set (size' := if Zlength buffer =? size then size + MEMFD_BUF_DELTA else size) in *.
  replace ((Zlength buffer =? size) && (size' =? 0)) with false
    by (symmetry; apply andb_false_iff; right; apply Z.eqb_neq; lia).
  set (req := MEMFD_BUF_DELTA - Zlength buffer mod MEMFD_BUF_DELTA) in *.
  pose proof (Hlim k) as Hk.
  destruct rest as [| x rest'].
  - rewrite Zlength_nil in Hr.
    replace (Zlength buffer =? 0) with false by (symmetry; apply Z.eqb_neq; lia).
    rewrite firstn_nil. cbn. rewrite app_nil_r. reflexivity.
  - set (n := Z.min req (lim k)).
    assert (Hn : 1 <= n) by (unfold n; lia).
    set (chunk := firstn (Z.to_nat n) (x :: rest')).
    assert (Hc : Zlength chunk = Z.min n (Zlength (x :: rest'))).
    { unfold chunk. rewrite !Zlength_correct, length_firstn. lia. }
    assert (Hc1 : 1 <= Zlength chunk)
      by (rewrite Hc, Zlength_cons; pose proof (Zlength_nonneg_Z rest'); lia).
    assert (Hsk : Zlength (skipn (Z.to_nat n) (x :: rest'))
                  = Zlength (x :: rest') - Zlength chunk).
    { unfold chunk. rewrite !Zlength_correct, length_skipn, length_firstn. lia. }
    cbv beta iota.
    replace (Zlength chunk =? 0) with false by (symmetry; apply Z.eqb_neq; lia).
    replace (size' <? Zlength buffer + Zlength chunk) with false
      by (symmetry; apply Z.ltb_ge; unfold n in Hc; lia).
    rewrite u32_id by lia.
    rewrite <- Zlength_app_Z.
    rewrite IH.
    + unfold chunk. rewrite <- app_assoc, firstn_skipn. reflexivity.
    + lia.
    + exact Hr3.
    + rewrite Zlength_app_Z. unfold n in Hc. lia.
    + rewrite Zlength_app_Z. lia.
Qed.

(** [memOpen] on a descriptor that returns at least one byte per call while
    data is left reads the whole of a non-empty file shorter than
    [2^32 - MEMFD_BUF_DELTA] bytes: the memory file holds exactly its bytes,
    with [length] equal to the file size and [offset] 0. *)
Theorem memOpen_reads_whole_file (lim : nat -> Z) (file : list Z) (fuel : nat) :
  (forall k, 1 <= lim k) -> 0 < Zlength file < 2 ^ 32 - MEMFD_BUF_DELTA ->
  Zlength file < Z.of_nat fuel ->
  memOpen (stream_read lim) fuel (file, O) = Done (Some (mkMem file (Zlength file) 0)).
Proof.
  intros Hlim Hz Hf. unfold memOpen.
  exact (memOpen_loop_stream lim Hlim fuel file O [] 0 Hf eq_refl ltac:(cbn; lia)
           ltac:(unfold MEMFD_BUF_DELTA in *; cbn; lia)).
Qed.

Lemma memOpen_loop_no_crash {St : Type} (io_read : St -> Z -> read_reply * St)
  (avail : St -> Z) :
  (forall s req bytes s', 1 <= req -> io_read s req = (ReadOk bytes, s') ->
     Zlength bytes <= req /\ avail s' = avail s - Zlength bytes) ->
  (forall s, 0 <= avail s) ->
  forall fuel s buffer length size,
  size mod MEMFD_BUF_DELTA = 0 -> 1 <= length <= size ->
  length + avail s < 2 ^ 32 - MEMFD_BUF_DELTA ->
  memOpen_loop io_read fuel s buffer length size <> Crashed.
Proof.
  intros Hio Hav. assert (HD : 0 < MEMFD_BUF_DELTA) by (unfold MEMFD_BUF_DELTA; lia).
  induction fuel as [| f IH]; intros s buffer length size Hs Hl Hb; cbn [memOpen_loop];
    [discriminate |].
  pose proof (Hav s) as Ha.
  rewrite memOpen_grow by lia.
  destruct (memOpen_room length size Hs ltac:(lia)) as (Hr1 & Hr2 & Hr3 & Hr4).
  set (size' := if length =? size then size + MEMFD_BUF_DELTA else size) in *.
  replace ((length =? size) && (size' =? 0)) with false
    by (symmetry; apply andb_false_iff; right; apply Z.eqb_neq; lia).
  cbv beta iota.
  destruct (io_read s _) as [[| bytes] s'] eqn:E; [discriminate |].
  apply Hio in E; [| exact Hr1]. destruct E as [Hle Hs'].
  pose proof (Zlength_nonneg_Z bytes). pose proof (Hav s').
  destruct (Zlength bytes =? 0).
  - replace (length =? 0) with false by (symmetry; apply Z.eqb_neq; lia). discriminate.
  - replace (size' <? length + Zlength bytes) with false by (symmetry; apply Z.ltb_ge; lia).
    rewrite u32_id by lia.
    apply IH; [exact Hr3 | lia | lia].
Qed.

(** [memOpen] crashes only on an empty file.  Take a descriptor whose reads
    store no more bytes than requested and no more than are left
    ([avail]), on a file shorter than [2^32 - MEMFD_BUF_DELTA] bytes.  Then
    [memOpen] crashes exactly when its first read returns 0: the shrink
    [realloc(buffer, 0)] frees the buffer and the [fail] path frees it
    again.  Otherwise no read overruns the buffer and the shrink succeeds. *)
Theorem memOpen_crashes_only_when_empty {St : Type} (io_read : St -> Z -> read_reply * St)
  (avail : St -> Z) (fuel : nat) (s : St) :
  (forall s req bytes s', 1 <= req -> io_read s req = (ReadOk bytes, s') ->
     Zlength bytes <= req /\ avail s' = avail s - Zlength bytes) ->
  (forall s, 0 <= avail s) -> avail s < 2 ^ 32 - MEMFD_BUF_DELTA ->
  memOpen io_read (S fuel) s = Crashed
  <-> exists s', io_read s MEMFD_BUF_DELTA = (ReadOk [], s').
Proof.
  intros Hio Hav Hs. assert (HD : 0 < MEMFD_BUF_DELTA) by (unfold MEMFD_BUF_DELTA; lia).
  unfold memOpen. cbn [memOpen_loop].
  change (0 =? 0) with true. cbv beta iota.
  change (u32 (0 + MEMFD_BUF_DELTA)) with MEMFD_BUF_DELTA.
  change (MEMFD_BUF_DELTA =? 0) with false.
  change (MEMFD_BUF_DELTA - 0 mod MEMFD_BUF_DELTA) with MEMFD_BUF_DELTA.
  cbv beta iota.
  destruct (io_read s MEMFD_BUF_DELTA) as [[| bytes] s'] eqn:E.
  - split; [discriminate | intros [s'' H]; discriminate H].
  - pose proof (Hio s MEMFD_BUF_DELTA bytes s' ltac:(lia) E) as [Hle Hs'].
    pose proof (Hav s') as Has.
    destruct (Zlength bytes =? 0) eqn:Ez.
    + apply Z.eqb_eq in Ez.
      destruct bytes as [| b bytes];
        [| rewrite Zlength_cons in Ez; pose proof (Zlength_nonneg_Z bytes); lia].
      split; [intros _; eauto | intros _; reflexivity].
    + split; [| intros [s'' H]; injection H as -> _; discriminate Ez].
      intro H. exfalso. revert H.
      replace (MEMFD_BUF_DELTA <? 0 + Zlength bytes) with false
        by (symmetry; apply Z.ltb_ge; lia).
      apply Z.eqb_neq in Ez. pose proof (Zlength_nonneg_Z bytes).
      rewrite u32_id by lia.
      apply (memOpen_loop_no_crash io_read avail Hio Hav); [reflexivity | lia | lia].
Qed.

Lemma memOpen_reads_whole_file_witness :
  (forall k, 1 <= (fun _ : nat => 2) k)
  /\ 0 < Zlength [0x4D; 0x54; 0x68; 0x64; 0] < 2 ^ 32 - MEMFD_BUF_DELTA
  /\ Zlength [0x4D; 0x54; 0x68; 0x64; 0] < Z.of_nat 8
  /\ memOpen (stream_read (fun _ => 2)) 8 ([0x4D; 0x54; 0x68; 0x64; 0], O)
     = Done (Some (mkMem [0x4D; 0x54; 0x68; 0x64; 0] 5 0)).
Proof.
  split; [intro k; lia |]. split; [vm_compute; split; reflexivity |].
  split; [vm_compute; reflexivity |].
  apply (memOpen_reads_whole_file (fun _ => 2) [0x4D; 0x54; 0x68; 0x64; 0] 8);
    [intro k; lia | vm_compute; split; reflexivity | vm_compute; reflexivity].
Defined.

Lemma memOpen_crashes_only_when_empty_witness :
  memOpen (stream_read (fun _ => 70000)) 1 ([], O) = Crashed
  /\ memOpen (stream_read (fun _ => 70000)) 3 ([1; 2; 3], O) <> Crashed.
Proof.
  assert (Hio : forall s req bytes s', 1 <= req ->
            stream_read (fun _ => 70000) s req = (ReadOk bytes, s') ->
            Zlength bytes <= req /\ Zlength (fst s') = Zlength (fst s) - Zlength bytes).
  { intros [rest k] req bytes s' Hreq H. cbn in H. injection H as <- <-. cbn.
    rewrite !Zlength_correct, length_skipn, length_firstn. lia. }
  assert (Hav : forall s : list Z * nat, 0 <= Zlength (fst s))
    by (intros [rest k]; apply Zlength_nonneg_Z).
  split.
  - apply (proj2 (memOpen_crashes_only_when_empty (stream_read (fun _ => 70000))
                    (fun s => Zlength (fst s)) O ([], O) Hio Hav
                    ltac:(vm_compute; reflexivity))).
    exists ([], 1%nat). vm_compute. reflexivity.
  - intro H.
    apply (proj1 (memOpen_crashes_only_when_empty (stream_read (fun _ => 70000))
                    (fun s => Zlength (fst s)) 2 ([1; 2; 3], O) Hio Hav
                    ltac:(vm_compute; reflexivity))) in H.
    destruct H as [s' H]. vm_compute in H. discriminate H.
Defined.

Lemma set_moffset_same (m : kmemfd) : set_moffset m (moffset m) = m.
Proof. destruct m; reflexivity. Qed.

(** [memRead] on a consistent memory file: it copies the
    [min n (length - offset)] bytes at the offset over the front of [buf] *)
Lemma memRead_spec (m : kmemfd) (buf : list Z) (n : Z) :
  mlength m = Zlength (mbuffer m) -> 0 <= moffset m <= mlength m -> 0 <= n ->
  memRead m buf n
  = (firstn (Z.to_nat (Z.min n (mlength m - moffset m))) (skipn (Z.to_nat (moffset m)) (mbuffer m))
       ++ skipn (Z.to_nat (Z.min n (mlength m - moffset m))) buf,
     Z.min n (mlength m - moffset m),
     set_moffset m (moffset m + Z.min n (mlength m - moffset m))).
Proof.
  intros Hl Ho Hn. unfold memRead.
  destruct (Z.eqb_spec n 0) as [-> | Hn0]; cbn [orb].
  - replace (Z.min 0 (mlength m - moffset m)) with 0 by lia.
    rewrite Z.add_0_r, set_moffset_same. reflexivity.
  - destruct (Z.eqb_spec (mlength m) (moffset m)) as [He | He]; [| reflexivity].
    replace (Z.min n (mlength m - moffset m)) with 0 by lia.
    rewrite Z.add_0_r, set_moffset_same. reflexivity.
Qed.

Lemma firstn_app_exact (k : nat) (l r : list Z) :
  List.length l = k -> firstn k (l ++ r) = l.
Proof. intros <-. rewrite firstn_app, firstn_all, Nat.sub_diag, firstn_O, app_nil_r. reflexivity. Qed.

Lemma firstn_add_Z (n k : nat) (l : list Z) :
  firstn (n + k) l = firstn n l ++ firstn k (skipn n l).
Proof.
  revert l. induction n as [| n IH]; intros [| x l]; cbn; try reflexivity.
  - rewrite firstn_nil. reflexivity.
  - rewrite IH. reflexivity.
Qed.

(** two consecutive [memRead]s of [a] then [b] bytes leave the memory file
    where one [memRead] of [a + b] bytes does, report the same total, and
    copy the same bytes in the same order, as long as [a + b] fits in the
    [int] the single read stores its length in. *)
Theorem memRead_split (m : kmemfd) (buf1 buf2 buf : list Z) (a b : Z) :
  mlength m = Zlength (mbuffer m) -> 0 <= moffset m <= mlength m -> 0 <= a -> 0 <= b ->
  a + b < 2 ^ 31 ->
  let '(x1, k1, m1) := memRead m buf1 a in
  let '(x2, k2, m2) := memRead m1 buf2 b in
  let '(x, k, m') := memRead m buf (a + b) in
  m2 = m' /\ k = k1 + k2
  /\ firstn (Z.to_nat k) x = firstn (Z.to_nat k1) x1 ++ firstn (Z.to_nat k2) x2.
Proof.
  intros Hl Ho Ha Hb _.
  rewrite (memRead_spec m buf1 a Hl Ho Ha).
  set (k1 := Z.min a (mlength m - moffset m)).
  set (m1 := set_moffset m (moffset m + k1)).
  assert (Hl1 : mlength m1 = Zlength (mbuffer m1)) by exact Hl.
  assert (Ho1 : 0 <= moffset m1 <= mlength m1) by (cbn; unfold k1; lia).
  rewrite (memRead_spec m1 buf2 b Hl1 Ho1 Hb).
  rewrite (memRead_spec m buf (a + b) Hl Ho ltac:(lia)).
  change (mlength m1) with (mlength m). change (moffset m1) with (moffset m + k1).
  change (mbuffer m1) with (mbuffer m).
  set (k2 := Z.min b (mlength m - (moffset m + k1))).
  assert (Hk : Z.min (a + b) (mlength m - moffset m) = k1 + k2) by (unfold k1, k2; lia).
  rewrite Hk. split; [| split; [reflexivity |]].
  - unfold m1, set_moffset. cbn. f_equal. lia.
  - rewrite Zlength_correct in Hl.
    assert (Hlen : forall j, 0 <= j -> j <= mlength m - moffset m ->
              List.length (firstn (Z.to_nat j) (skipn (Z.to_nat (moffset m)) (mbuffer m)))
              = Z.to_nat j).
    { intros j Hj1 Hj2. rewrite length_firstn, length_skipn. lia. }
    rewrite !firstn_app_exact.
    + replace (Z.to_nat (k1 + k2)) with (Z.to_nat k1 + Z.to_nat k2)%nat by (unfold k1, k2; lia).
      rewrite firstn_add_Z. f_equal.
      rewrite skipn_skipn. f_equal. f_equal. unfold k1. lia.
    + rewrite length_firstn, length_skipn. unfold k2. lia.
    + apply Hlen; unfold k1; lia.
    + apply Hlen; unfold k1, k2; lia.
Qed.

Lemma memRead_split_witness :
  let m := mkMem [10; 20; 30; 40; 50] 5 1 in
  (mlength m = Zlength (mbuffer m) /\ 0 <= moffset m <= mlength m /\ 0 <= 2 /\ 0 <= 3
   /\ 2 + 3 < 2 ^ 31)
  /\ let '(x1, k1, m1) := memRead m [0; 0] 2 in
     let '(x2, k2, m2) := memRead m1 [0; 0; 0] 3 in
     let '(x, k, m') := memRead m [0; 0; 0; 0; 0] (2 + 3) in
     m2 = m' /\ k = k1 + k2
     /\ firstn (Z.to_nat k) x = firstn (Z.to_nat k1) x1 ++ firstn (Z.to_nat k2) x2.
Proof.
  cbv zeta. split; [vm_compute; repeat split; discriminate |].
  apply (memRead_split (mkMem [10; 20; 30; 40; 50] 5 1) [0; 0] [0; 0; 0] [0; 0; 0; 0; 0] 2 3);
    [reflexivity | cbn; lia | lia | lia | lia].
Defined.

Lemma set_moffset_add0 (m : kmemfd) : set_moffset m (moffset m + 0) = m.
Proof. destruct m; cbn. rewrite Z.add_0_r. reflexivity. Qed.

Lemma mfd_set_mfd (d : kmdec) (m : kmemfd) : mfd (set_mfd d m) = m.
Proof. reflexivity. Qed.
Lemma offset_set_offset (t : kmtrk) (o : Z) : offset (set_offset t o) = o.
Proof. reflexivity. Qed.
Lemma moffset_set_moffset (m : kmemfd) (o : Z) : moffset (set_moffset m o) = o.
Proof. reflexivity. Qed.

Lemma read_data_at (g len : Z) (t : kmtrk) (d : kmdec) (pre data post : list Z) :
  mbuffer (mfd d) = pre ++ data ++ post ->
  mlength (mfd d) = Zlength (mbuffer (mfd d)) ->
  moffset (mfd d) = Zlength pre ->
  Zlength data = len ->
  read_data g len t d
  = Ret data (set_offset t (u32 (offset t + len)))
      (set_mfd d (set_moffset (mfd d) (moffset (mfd d) + len))).
Proof.
  intros Hb Hl Ho Hd. unfold read_data.
  assert (Hpre : 0 <= Zlength pre) by (rewrite Zlength_correct; lia).
  assert (Hpost : 0 <= Zlength post) by (rewrite Zlength_correct; lia).
  destruct (Z.eq_dec len 0) as [-> | Hn].
  - destruct data; [| rewrite Zlength_cons in Hd; rewrite Zlength_correct in Hd; lia].
    unfold memRead. cbn - [Z.add]. rewrite set_moffset_add0.
    destruct d; reflexivity.
  - assert (Hdl : 0 <= len) by (rewrite <- Hd, Zlength_correct; lia).
    rewrite memRead_prefix by (rewrite ?Hl, ?Ho, ?Hb, ?Zlength_app_Z; lia).
    rewrite Hb, Ho, Zlength_correct, Nat2Z.id, skipn_app, skipn_all, Nat.sub_diag.
    cbn [app skipn]. rewrite <- Hd, Zlength_correct, Nat2Z.id, firstn_app, firstn_all, Nat.sub_diag.
    rewrite skipn_all2 by (rewrite repeat_length; lia).
    cbn [firstn]. rewrite !app_nil_r. reflexivity.
Qed.

Lemma readVarQ_vlq_at (g : Z) (t : kmtrk) (d : kmdec) (pre post : list Z) (v : Z) :
  mlength (mfd d) = Zlength (mbuffer (mfd d)) ->
  moffset (mfd d) = Zlength pre ->
  0 <= v < 2 ^ 28 ->
  mbuffer (mfd d) = pre ++ vlq_encode v ++ post ->
  readVarQ g t d
  = Ret v (set_offset t (u32 (offset t + Zlength (vlq_encode v))))
      (set_mfd d (set_moffset (mfd d) (moffset (mfd d) + Zlength (vlq_encode v)))).
Proof.
  intros Hl Ho Hv Hb.
  destruct (vlq_encode_shape v Hv) as (cont & Henc & Hall & Hlen & Hfold).
  rewrite Henc in Hb |- *. rewrite <- app_assoc in Hb. simpl in Hb.
  assert (Hx : 0 <= v mod 2 ^ 7 < 128) by (pose proof (Z.mod_pos_bound v (2 ^ 7)); lia).
  unfold readVarQ.
  rewrite (readVarQ_loop_chain cont (v mod 2 ^ 7) 4 g 0 t d pre post Hall Hx Hlen Hb Hl Ho).
  rewrite Hfold, Zlength_app_Z. reflexivity.
Qed.

Lemma vlq_encode_len (v : Z) : 1 <= Zlength (vlq_encode v) <= 4.
Proof.
  unfold vlq_encode.
  destruct (v <? 2 ^ 7); [|destruct (v <? 2 ^ 14); [|destruct (v <? 2 ^ 21)]]; cbn; lia.
Qed.

(** the meta event [type len data] read from the middle of the file: the
    three reads of [decodeMetaEvent] before its [switch] *)
Lemma meta_reads (g type len : Z) (data : list Z) (t : kmtrk) (d : kmdec) (pre post : list Z) :
  mlength (mfd d) = Zlength (mbuffer (mfd d)) ->
  moffset (mfd d) = Zlength pre ->
  mbuffer (mfd d) = pre ++ type :: vlq_encode len ++ data ++ post ->
  0 <= len < 2 ^ 28 -> Zlength data = len ->
  let n := 1 + Zlength (vlq_encode len) + len in
  let t' := set_offset t (u32 (offset t + n)) in
  let d' := set_mfd d (set_moffset (mfd d) (moffset (mfd d) + n)) in
  memRead (mfd d) [g] 1 = ([type], 1, set_moffset (mfd d) (moffset (mfd d) + 1))
  /\ readVarQ g (set_offset t (u32 (offset t + 1)))
       (set_mfd d (set_moffset (mfd d) (moffset (mfd d) + 1)))
     = Ret len (set_offset t (u32 (offset t + 1 + Zlength (vlq_encode len))))
         (set_mfd d (set_moffset (mfd d) (moffset (mfd d) + 1 + Zlength (vlq_encode len))))
  /\ read_data g len (set_offset t (u32 (offset t + 1 + Zlength (vlq_encode len))))
         (set_mfd d (set_moffset (mfd d) (moffset (mfd d) + 1 + Zlength (vlq_encode len))))
     = Ret data t' d'.
Proof.
  intros Hl Ho Hb Hv Hd n t' d'.
  split; [apply (memRead_one _ g pre type (vlq_encode len ++ data ++ post)); assumption |].
  split.
  - rewrite (readVarQ_vlq_at g _ _ (pre ++ [type]) (data ++ post) len); cbn [mfd].
    + rewrite set_offset_twice, set_mfd_twice, mfd_set_mfd, offset_set_offset,
        moffset_set_moffset, set_moffset_twice, u32_add_u32.
      reflexivity.
    + cbn. exact Hl.
    + cbn. rewrite Ho, Zlength_app_Z. reflexivity.
    + exact Hv.
    + cbn. rewrite Hb, <- app_assoc. reflexivity.
  - rewrite (read_data_at g len _ _ (pre ++ type :: vlq_encode len) data post); cbn [mfd].
    + subst t' d' n. rewrite set_offset_twice, set_mfd_twice, mfd_set_mfd, offset_set_offset,
        moffset_set_moffset, set_moffset_twice, u32_add_u32.
      f_equal; [f_equal; f_equal; lia |]. f_equal. f_equal. lia.
    + cbn. rewrite Hb, <- app_assoc. reflexivity.
    + cbn. exact Hl.
    + cbn. rewrite Ho, Zlength_app_Z, Zlength_cons. lia.
    + exact Hd.
Qed.

(** a meta event moves the track offset past its type, its length and the
    declared number of data bytes, whether or not they are in the file *)
Lemma meta_offset_declared (g type len : Z) (t : kmtrk) (d : kmdec) (pre rest : list Z) :
  mlength (mfd d) = Zlength (mbuffer (mfd d)) ->
  moffset (mfd d) = Zlength pre ->
  mbuffer (mfd d) = pre ++ type :: vlq_encode len ++ rest ->
  0 <= len < 2 ^ 28 ->
  offset t < length t ->
  let t' := set_offset t (u32 (offset t + (1 + Zlength (vlq_encode len) + len))) in
  exists d', decodeMetaEvent g t d = Ret tt t' d' \/ decodeMetaEvent g t d = Fail t' d'.
Proof.
  intros Hl Ho Hb Hv Ht t'.
  unfold decodeMetaEvent.
  replace (length t <=? offset t) with false by (symmetry; apply Z.leb_gt; lia).
  rewrite (memRead_one _ g pre type (vlq_encode len ++ rest) Hb Hl Ho).
  cbn [hd]. unfold bind.
  rewrite (readVarQ_vlq_at g _ _ (pre ++ [type]) rest len); cbn [mfd].
  2: { cbn. exact Hl. }
  2: { cbn. rewrite Ho, Zlength_app_Z. reflexivity. }
  2: exact Hv.
  2: { cbn. rewrite Hb, <- app_assoc. reflexivity. }
  unfold read_data.
  destruct (memRead _ _ len) as [[data k] m].
  repeat rewrite ?set_offset_twice, ?offset_set_offset, ?u32_add_u32.
  assert (E : u32 (u32 (offset t + 1) + Zlength (vlq_encode len) + len)
              = u32 (offset t + (1 + Zlength (vlq_encode len) + len)))
    by (rewrite <- Z.add_assoc, u32_add_u32; f_equal; lia).
  rewrite E. fold t'.
  repeat match goal with
  | |- context [if ?c then _ else _] => destruct c
  end; eauto.
Qed.

(** C6 (amended): a track's offset is not kept at or below its length.  A
    meta event moves the offset of its track past its type byte, its length
    bytes and the full declared number of data bytes (modulo 2^32), whether
    or not these lie inside the chunk or the file, and whether the event
    succeeds or fails; so a meta event whose declared length runs past the
    end of the chunk leaves the offset beyond the length.  Every parser
    treats [length <= offset] as the end of the track: [decodeEvent] reads
    nothing and returns 0 leaving track and decoder unchanged, while
    [decodeDelta] and [decodeOS2Event] set [nextTick] to [END_OF_TRACK] and
    change nothing else. *)
Theorem offset_past_length_ends_track (g : Z) (t : kmtrk) (d : kmdec) :
  (forall type len pre rest,
     mlength (mfd d) = Zlength (mbuffer (mfd d)) ->
     moffset (mfd d) = Zlength pre ->
     mbuffer (mfd d) = pre ++ type :: vlq_encode len ++ rest ->
     0 <= len < 2 ^ 28 -> offset t < length t ->
     exists d',
       decodeMetaEvent g t d
         = Ret tt (set_offset t (u32 (offset t + (1 + Zlength (vlq_encode len) + len)))) d'
       \/ decodeMetaEvent g t d
         = Fail (set_offset t (u32 (offset t + (1 + Zlength (vlq_encode len) + len)))) d')
  /\ (length t <= offset t ->
      decodeEvent g t d = Ret tt t d
      /\ decodeDelta g t d = Ret tt (set_nextTick t END_OF_TRACK) d
      /\ decodeOS2Event g t d = Ret tt (set_nextTick t END_OF_TRACK) d).
Proof.
  split.
  - intros type len pre rest Hl Ho Hb Hv Ht.
    exact (meta_offset_declared g type len t d pre rest Hl Ho Hb Hv Ht).
  - intro H. apply Z.leb_le in H.
    unfold decodeEvent, decodeDelta, decodeOS2Event. rewrite H. repeat split.
Qed.

Lemma offset_past_length_ends_track_witness :
  offset (mkTrk 0 4 1 0 0) < length (mkTrk 0 4 1 0 0)
  /\ (exists d',
        decodeMetaEvent 0 (mkTrk 0 4 1 0 0)
          (set_mfd (new_dec []) (mkMem [0xFF; 0x01; 5; 0x41] 4 1))
        = Ret tt (mkTrk 0 4 8 0 0) d'
      \/ decodeMetaEvent 0 (mkTrk 0 4 1 0 0)
          (set_mfd (new_dec []) (mkMem [0xFF; 0x01; 5; 0x41] 4 1))
        = Fail (mkTrk 0 4 8 0 0) d')
  /\ length (mkTrk 0 4 8 0 0) < offset (mkTrk 0 4 8 0 0)
  /\ decodeEvent 0 (mkTrk 22 5 9 0 0) (new_dec [])
    = Ret tt (mkTrk 22 5 9 0 0) (new_dec [])
  /\ decodeDelta 0 (mkTrk 22 5 9 0 0) (new_dec [])
    = Ret tt (set_nextTick (mkTrk 22 5 9 0 0) END_OF_TRACK) (new_dec [])
  /\ decodeOS2Event 0 (mkTrk 22 5 9 0 0) (new_dec [])
    = Ret tt (set_nextTick (mkTrk 22 5 9 0 0) END_OF_TRACK) (new_dec []).
Proof.
  destruct (offset_past_length_ends_track 0 (mkTrk 0 4 1 0 0)
              (set_mfd (new_dec []) (mkMem [0xFF; 0x01; 5; 0x41] 4 1))) as [H1 _].
  destruct (offset_past_length_ends_track 0 (mkTrk 22 5 9 0 0) (new_dec [])) as [_ H2].
  split; [cbn; lia |]. split.
  - exact (H1 1 5 [0xFF] [0x41] eq_refl eq_refl eq_refl ltac:(lia) ltac:(cbn; lia)).
  - split; [cbn; lia |]. apply H2. cbn. lia.
Defined.


Lemma land_7F_small (x : Z) : 0 <= x < 128 -> Z.land x 0x7F = x.
Proof. intro H. rewrite land_7F. apply Z.mod_small. exact H. Qed.

Lemma tempo_bytes (a b c : Z) :
  0 <= b < 256 -> 0 <= c < 256 ->
  Z.lor (Z.lor (Z.shiftl a 16) (Z.shiftl b 8)) c = a * 2 ^ 16 + b * 2 ^ 8 + c.
Proof.
  intros Hb Hc.
  replace (Z.lor (Z.shiftl a 16) (Z.shiftl b 8)) with (Z.shiftl (Z.lor (Z.shiftl a 8) b) 8)
    by (rewrite Z.shiftl_lor, Z.shiftl_shiftl by lia; reflexivity).
  rewrite lor_shiftl_low, lor_shiftl_low by lia. lia.
Qed.

Lemma u8_pow2 (k : Z) : 0 <= k -> u8 (Z.shiftl 1 k) = if k <? 8 then 2 ^ k else 0.
Proof.
  intro Hk. rewrite Z.shiftl_1_l. unfold u8.
  destruct (Z.ltb_spec k 8).
  - apply Z.mod_small. split; [apply Z.pow_nonneg; lia | apply Z.pow_lt_mono_r; lia].
  - replace k with ((k - 8) + 8) by lia. rewrite Z.pow_add_r by lia.
    apply Z.mod_mul. lia.
Qed.

Ltac meta_open g type len data t d pre post Hl Ho Hb Hv Hd Ht :=
  unfold decodeMetaEvent;
  replace (length t <=? offset t) with false by (symmetry; apply Z.leb_gt; lia);
  let H1 := fresh "H" in let H2 := fresh "H" in let H3 := fresh "H" in
  destruct (meta_reads g type len data t d pre post Hl Ho Hb Hv Hd) as (H1 & H2 & H3);
  rewrite H1; cbn [hd]; unfold bind; rewrite H2, H3; cbv beta zeta.

(** the Set Tempo meta event [51 03 a b c] sets the decoder's tempo to the
    24-bit big-endian value [a b c] and advances track and memory file by
    its 5 bytes. *)
Theorem meta_tempo_sets_tempo (g : Z) (t : kmtrk) (d : kmdec) (pre post : list Z) (a b c : Z) :
  mlength (mfd d) = Zlength (mbuffer (mfd d)) ->
  moffset (mfd d) = Zlength pre ->
  mbuffer (mfd d) = pre ++ [0x51; 3; a; b; c] ++ post ->
  0 <= b < 256 -> 0 <= c < 256 ->
  offset t < length t ->
  decodeMetaEvent g t d
  = Ret tt (set_offset t (u32 (offset t + 5)))
      (set_tempo (set_mfd d (set_moffset (mfd d) (moffset (mfd d) + 5)))
         (a * 2 ^ 16 + b * 2 ^ 8 + c)).
Proof.
  intros Hl Ho Hb HB HC Ht.
  assert (Hv : 0 <= 3 < 2 ^ 28) by lia. assert (Hd : Zlength [a; b; c] = 3) by reflexivity.
  meta_open g 0x51 3 [a; b; c] t d pre post Hl Ho Hb Hv Hd Ht.
  cbn - [Z.lor Z.shiftl]. rewrite tempo_bytes by lia. reflexivity.
Qed.

(** the Time Signature meta event [58 04 nn dd cc bb] sets numerator [nn]
    and denominator [2 ^ dd] (0 when [dd >= 8], as the [int] shift gives on
    a byte) and skips its 6 bytes. *)
Theorem meta_timesig_power_of_two (g : Z) (t : kmtrk) (d : kmdec) (pre post : list Z) (nn dd cc bb : Z) :
  mlength (mfd d) = Zlength (mbuffer (mfd d)) ->
  moffset (mfd d) = Zlength pre ->
  mbuffer (mfd d) = pre ++ [0x58; 4; nn; dd; cc; bb] ++ post ->
  0 <= dd < 31 ->
  offset t < length t ->
  decodeMetaEvent g t d
  = Ret tt (set_offset t (u32 (offset t + 6)))
      (set_timesig (set_mfd d (set_moffset (mfd d) (moffset (mfd d) + 6)))
         nn (if dd <? 8 then 2 ^ dd else 0)).
Proof.
  intros Hl Ho Hb Hdd Ht.
  assert (Hv : 0 <= 4 < 2 ^ 28) by lia. assert (Hd : Zlength [nn; dd; cc; bb] = 4) by reflexivity.
  meta_open g 0x58 4 [nn; dd; cc; bb] t d pre post Hl Ho Hb Hv Hd Ht.
  cbn - [Z.shiftl u8]. rewrite u8_pow2 by lia. reflexivity.
Qed.

(** the End of Track meta event [2F 00] succeeds only when it ends exactly
    at the end of the track chunk; anywhere else it is a decoding error. *)
Theorem meta_end_of_track_at_end (g : Z) (t : kmtrk) (d : kmdec) (pre post : list Z) :
  mlength (mfd d) = Zlength (mbuffer (mfd d)) ->
  moffset (mfd d) = Zlength pre ->
  mbuffer (mfd d) = pre ++ [0x2F; 0] ++ post ->
  offset t < length t ->
  decodeMetaEvent g t d
  = let t' := set_offset t (u32 (offset t + 2)) in
    let d' := set_mfd d (set_moffset (mfd d) (moffset (mfd d) + 2)) in
    if u32 (offset t + 2) =? length t then Ret tt t' d' else Fail t' d'.
Proof.
  intros Hl Ho Hb Ht.
  assert (Hv : 0 <= 0 < 2 ^ 28) by lia. assert (Hd : Zlength (@nil Z) = 0) by reflexivity.
  meta_open g 0x2F 0 (@nil Z) t d pre post Hl Ho Hb Hv Hd Ht.
  reflexivity.
Qed.

(** every other meta event is skipped by its VLQ length; it fails when a
    Sequence Number, Channel Prefix, SMPTE Offset or Key Signature event has
    a length other than 2, 1, 5 or 2. *)
Theorem meta_other_skipped (g type len : Z) (data : list Z) (t : kmtrk) (d : kmdec) (pre post : list Z) :
  mlength (mfd d) = Zlength (mbuffer (mfd d)) ->
  moffset (mfd d) = Zlength pre ->
  mbuffer (mfd d) = pre ++ type :: vlq_encode len ++ data ++ post ->
  0 <= len < 2 ^ 28 -> Zlength data = len ->
  offset t < length t ->
  type <> 0x2F -> type <> 0x51 -> type <> 0x58 ->
  decodeMetaEvent g t d
  = let n := 1 + Zlength (vlq_encode len) + len in
    let t' := set_offset t (u32 (offset t + n)) in
    let d' := set_mfd d (set_moffset (mfd d) (moffset (mfd d) + n)) in
    if ((type =? 0x00) && negb (len =? 2)) || ((type =? 0x20) && negb (len =? 1))
       || ((type =? 0x54) && negb (len =? 5)) || ((type =? 0x59) && negb (len =? 2))
    then Fail t' d' else Ret tt t' d'.
Proof.
  intros Hl Ho Hb Hv Hd Ht N2F N51 N58.
  meta_open g type len data t d pre post Hl Ho Hb Hv Hd Ht.
  rewrite (proj2 (Z.eqb_neq type 0x2F) N2F), (proj2 (Z.eqb_neq type 0x51) N51),
    (proj2 (Z.eqb_neq type 0x58) N58).
  destruct (Z.eqb_spec type 0x00); [subst type; cbn; destruct (len =? 2); reflexivity |].
  destruct (Z.eqb_spec type 0x20); [subst type; cbn; destruct (len =? 1); reflexivity |].
  destruct (Z.eqb_spec type 0x54); [subst type; cbn; destruct (len =? 5); reflexivity |].
  destruct (Z.eqb_spec type 0x59); [subst type; cbn; destruct (len =? 2); reflexivity |].
  reflexivity.
Qed.

Lemma upd_middle (l1 l2 : list Z) (y x : Z) :
  upd (l1 ++ y :: l2) (List.length l1) x = l1 ++ x :: l2.
Proof. induction l1 as [| a l1 IH]; cbn; [reflexivity | rewrite IH; reflexivity]. Qed.

Lemma nth_middle_Z (l1 l2 : list Z) (y g : Z) : nth (List.length l1) (l1 ++ y :: l2) g = y.
Proof. induction l1 as [| a l1 IH]; cbn; [reflexivity | exact IH]. Qed.

(** the first loop of [decodeOS2SysExEvent] up to the terminating [0xF7] *)
Lemma os2_sysex_fill_stop (g : Z) (body : list Z) :
  forall (fuel : nat) (done rest : list Z) (t : kmtrk) (m : kmemfd) (pre post : list Z),
  Forall (fun x => x <> 0xF7) body ->
  (List.length body < fuel)%nat ->
  (List.length body < List.length rest)%nat ->
  mbuffer m = pre ++ body ++ 0xF7 :: post ->
  mlength m = Zlength (mbuffer m) ->
  moffset m = Zlength pre ->
  os2_sysex_fill g fuel (List.length done) (done ++ rest) t m
  = ((List.length done + List.length body)%nat,
     done ++ body ++ 0xF7 :: skipn (S (List.length body)) rest,
     set_offset t (u32 (offset t + (Zlength body + 1))),
     set_moffset m (moffset m + (Zlength body + 1))).
Proof.
  induction body as [| x body IH]; intros fuel done rest t m pre post Hall Hf Hr Hb Hl Ho.
  - destruct fuel as [| f]; [cbn in Hf; lia |].
    destruct rest as [| y rest]; [cbn in Hr; lia |].
    cbn [os2_sysex_fill].
    rewrite (memRead_one m _ pre 0xF7 post Hb Hl Ho). cbn [hd Z.eqb].
    rewrite Nat.add_0_r, upd_middle. reflexivity.
  - inversion Hall as [| ? ? Hx Hrest]; subst.
    destruct fuel as [| f]; [cbn in Hf; lia |].
    destruct rest as [| y rest]; [cbn in Hr; lia |].
    cbn [os2_sysex_fill].
    rewrite (memRead_one m _ pre x (body ++ 0xF7 :: post) Hb Hl Ho). cbn [hd].
    rewrite (proj2 (Z.eqb_neq x 0xF7) Hx), upd_middle.
    replace (S (List.length done)) with (List.length (done ++ [x]))
      by (rewrite length_app; cbn; lia).
    replace (done ++ x :: rest) with ((done ++ [x]) ++ rest) by (rewrite <- app_assoc; reflexivity).
    rewrite (IH f (done ++ [x]) rest _ _ (pre ++ [x]) post Hrest).
    + rewrite set_offset_twice, offset_set_offset, set_moffset_twice, moffset_set_moffset,
        u32_add_u32, length_app, <- app_assoc, Zlength_cons. cbn [List.length app skipn].
      f_equal; [f_equal; [f_equal; lia | f_equal; f_equal; lia] | f_equal; lia].
    + cbn in Hf. lia.
    + cbn in Hr. lia.
    + cbn. rewrite Hb, <- app_assoc. reflexivity.
    + cbn. exact Hl.
    + cbn. rewrite Ho, Zlength_app_Z. reflexivity.
Qed.

(** [decodeOS2Event] on a [0xF0] status byte hands over to
    [decodeOS2SysExEvent] *)
Lemma os2_event_F0 (g : Z) (t : kmtrk) (d : kmdec) (pre post : list Z) :
  mlength (mfd d) = Zlength (mbuffer (mfd d)) ->
  moffset (mfd d) = Zlength pre ->
  mbuffer (mfd d) = pre ++ 0xF0 :: post ->
  offset t < length t ->
  decodeOS2Event g t d
  = decodeOS2SysExEvent g (set_offset t (u32 (offset t + 1)))
      (set_mfd d (set_moffset (mfd d) (moffset (mfd d) + 1))).
Proof.
  intros Hl Ho Hb Ht. unfold decodeOS2Event.
  replace (length t <=? offset t) with false by (symmetry; apply Z.leb_gt; lia).
  unfold read_status. rewrite (memRead_one (mfd d) g pre 0xF0 post Hb Hl Ho).
  cbn [hd Z.ltb Z.compare Z.land Z.eqb orb Pos.compare Pos.compare_cont Pos.land Z.of_N].
  unfold bind.
  rewrite (read_data_at g 0 _ _ (pre ++ [0xF0]) [] post); cbn [mfd set_mfd set_moffset mbuffer mlength moffset].
  - cbn -[u32 decodeOS2SysExEvent]. rewrite set_offset_twice, set_mfd_twice, set_moffset_twice, u32_add_u32, !Z.add_0_r. reflexivity.
  - rewrite Hb, <- app_assoc. reflexivity.
  - exact Hl.
  - rewrite Ho, Zlength_app_Z. reflexivity.
  - reflexivity.
Qed.

(** in the real-time capture dialect, the long timing SysEx [F0 00 00 3A 01
    ll mm F7] advances the track's next tick by the 14-bit value [mm ll] and
    consumes its 8 bytes. *)
Theorem os2_long_timing (g : Z) (t : kmtrk) (d : kmdec) (pre post : list Z) (ll mm : Z) :
  mlength (mfd d) = Zlength (mbuffer (mfd d)) ->
  moffset (mfd d) = Zlength pre ->
  mbuffer (mfd d) = pre ++ [0xF0; 0x00; 0x00; 0x3A; 0x01; ll; mm; 0xF7] ++ post ->
  0 <= ll < 128 -> 0 <= mm < 128 ->
  offset t < length t ->
  decodeOS2Event g t d
  = Ret tt (set_nextTick (set_offset t (u32 (offset t + 8))) (u32 (nextTick t + (mm * 128 + ll))))
      (set_mfd d (set_moffset (mfd d) (moffset (mfd d) + 8))).
Proof.
  intros Hl Ho Hb Hll Hmm Ht.
  rewrite (os2_event_F0 g t d pre ([0x00; 0x00; 0x3A; 0x01; ll; mm; 0xF7] ++ post) Hl Ho Hb Ht).
  unfold decodeOS2SysExEvent.
  rewrite (os2_sysex_fill_stop g [0x00; 0x00; 0x3A; 0x01; ll; mm] 9 [] (repeat g 9) _ _
             (pre ++ [0xF0]) post).
  - cbn - [Z.land Z.lor Z.shiftl u32 Z.add Zlength].
    replace (Z.land 1 127 =? 1) with true by reflexivity.
    change (Zlength [0; 0; 58; 1; ll; mm]) with 6.
    rewrite !land_7F_small by lia. rewrite lor_shiftl_low by lia.
    rewrite set_offset_twice, set_mfd_twice, set_moffset_twice, u32_add_u32.
    replace (offset t + 1 + (6 + 1)) with (offset t + 8) by lia.
    replace (moffset (mfd d) + 1 + (6 + 1)) with (moffset (mfd d) + 8) by lia.
    replace (mm * 2 ^ 7 + ll) with (mm * 128 + ll) by lia. reflexivity.
  - repeat constructor; lia.
  - cbn. lia.
  - cbn. lia.
  - cbn. rewrite Hb, <- app_assoc. reflexivity.
  - exact Hl.
  - cbn. rewrite Ho, Zlength_app_Z. reflexivity.
Qed.

(** in the real-time capture dialect, the short timing SysEx [F0 00 00 3A tt
    F7] with [7 <= tt] advances the next tick by [tt] and consumes its 6
    bytes. *)
Theorem os2_short_timing (g : Z) (t : kmtrk) (d : kmdec) (pre post : list Z) (tt0 : Z) :
  mlength (mfd d) = Zlength (mbuffer (mfd d)) ->
  moffset (mfd d) = Zlength pre ->
  mbuffer (mfd d) = pre ++ [0xF0; 0x00; 0x00; 0x3A; tt0; 0xF7] ++ post ->
  7 <= tt0 < 128 ->
  offset t < length t ->
  decodeOS2Event g t d
  = Ret tt (set_nextTick (set_offset t (u32 (offset t + 6))) (u32 (nextTick t + tt0)))
      (set_mfd d (set_moffset (mfd d) (moffset (mfd d) + 6))).
Proof.
  intros Hl Ho Hb Htt Ht.
  rewrite (os2_event_F0 g t d pre ([0x00; 0x00; 0x3A; tt0; 0xF7] ++ post) Hl Ho Hb Ht).
  unfold decodeOS2SysExEvent.
  rewrite (os2_sysex_fill_stop g [0x00; 0x00; 0x3A; tt0] 9 [] (repeat g 9) _ _
             (pre ++ [0xF0]) post).
  - cbn - [Z.land Z.lor Z.shiftl u32 Z.add Zlength].
    rewrite land_7F_small by lia.
    replace (tt0 =? 1) with false by (symmetry; apply Z.eqb_neq; lia).
    replace (7 <=? tt0) with true by (symmetry; apply Z.leb_le; lia).
    change (Zlength [0; 0; 58; tt0]) with 4.
    rewrite set_offset_twice, set_mfd_twice, set_moffset_twice, u32_add_u32.
    replace (offset t + 1 + (4 + 1)) with (offset t + 6) by lia.
    replace (moffset (mfd d) + 1 + (4 + 1)) with (moffset (mfd d) + 6) by lia.
    reflexivity.
  - repeat constructor; lia.
  - cbn. lia.
  - cbn. lia.
  - cbn. rewrite Hb, <- app_assoc. reflexivity.
  - exact Hl.
  - cbn. rewrite Ho, Zlength_app_Z. reflexivity.
Qed.

(** in the real-time capture dialect, the tempo SysEx [F0 00 00 3A 03 02 tl
    tm F7] sets the tempo to [60000000 / (bpm / 10)] for [bpm = tm * 128 +
    tl]; a [bpm] below 10 divides by zero. *)
Theorem os2_tempo_control (g : Z) (t : kmtrk) (d : kmdec) (pre post : list Z) (tl tm : Z) :
  mlength (mfd d) = Zlength (mbuffer (mfd d)) ->
  moffset (mfd d) = Zlength pre ->
  mbuffer (mfd d) = pre ++ [0xF0; 0x00; 0x00; 0x3A; 0x03; 0x02; tl; tm; 0xF7] ++ post ->
  0 <= tl < 128 -> 0 <= tm < 128 ->
  offset t < length t ->
  decodeOS2Event g t d
  = if tm * 128 + tl <? 10 then Crash
    else Ret tt (set_offset t (u32 (offset t + 9)))
           (set_tempo (set_mfd d (set_moffset (mfd d) (moffset (mfd d) + 9)))
              (60000000 / ((tm * 128 + tl) / 10))).
Proof.
  intros Hl Ho Hb Htl Htm Ht.
  rewrite (os2_event_F0 g t d pre ([0x00; 0x00; 0x3A; 0x03; 0x02; tl; tm; 0xF7] ++ post) Hl Ho Hb Ht).
  unfold decodeOS2SysExEvent.
  rewrite (os2_sysex_fill_stop g [0x00; 0x00; 0x3A; 0x03; 0x02; tl; tm] 9 [] (repeat g 9) _ _
             (pre ++ [0xF0]) post).
  - cbn - [Z.land Z.lor Z.shiftl u32 Z.add Zlength Z.div].
    replace (Z.land 3 127 =? 1) with false by reflexivity.
    replace (7 <=? Z.land 3 127) with false by reflexivity.
    replace (Z.land 3 127 =? 3) with true by reflexivity.
    rewrite !land_7F_small by lia. rewrite lor_shiftl_low by lia.
    change (Zlength [0; 0; 58; 3; 2; tl; tm]) with 7.
    rewrite set_offset_twice, set_mfd_twice, set_moffset_twice, u32_add_u32.
    replace (offset t + 1 + (7 + 1)) with (offset t + 9) by lia.
    replace (moffset (mfd d) + 1 + (7 + 1)) with (moffset (mfd d) + 9) by lia.
    replace (tm * 2 ^ 7 + tl) with (tm * 128 + tl) by lia.
    destruct (Z.ltb_spec (tm * 128 + tl) 10) as [Hs | Hs].
    + replace ((tm * 128 + tl) / 10 =? 0) with true
        by (symmetry; apply Z.eqb_eq; apply Z.div_small; lia).
      reflexivity.
    + assert (Hq : 10 / 10 <= (tm * 128 + tl) / 10) by (apply Z.div_le_mono; lia).
      change (10 / 10) with 1 in Hq.
      replace ((tm * 128 + tl) / 10 =? 0) with false by (symmetry; apply Z.eqb_neq; lia).
      reflexivity.
  - repeat constructor; lia.
  - cbn. lia.
  - cbn. lia.
  - cbn. rewrite Hb, <- app_assoc. reflexivity.
  - exact Hl.
  - cbn. rewrite Ho, Zlength_app_Z. reflexivity.
Qed.

(** in the real-time capture dialect, a timing clock byte [F8] advances the
    next tick by one and consumes one byte. *)
Theorem os2_clock_tick (g : Z) (t : kmtrk) (d : kmdec) (pre post : list Z) :
  mlength (mfd d) = Zlength (mbuffer (mfd d)) ->
  moffset (mfd d) = Zlength pre ->
  mbuffer (mfd d) = pre ++ 0xF8 :: post ->
  offset t < length t ->
  decodeOS2Event g t d
  = Ret tt (set_nextTick (set_offset t (u32 (offset t + 1))) (u32 (nextTick t + 1)))
      (set_mfd d (set_moffset (mfd d) (moffset (mfd d) + 1))).
Proof.
  intros Hl Ho Hb Ht. unfold decodeOS2Event.
  replace (length t <=? offset t) with false by (symmetry; apply Z.leb_gt; lia).
  unfold read_status. rewrite (memRead_one (mfd d) g pre 0xF8 post Hb Hl Ho).
  cbn [hd Z.ltb Z.compare Z.land Z.eqb orb Pos.compare Pos.compare_cont Pos.land Z.of_N].
  unfold bind.
  rewrite (read_data_at g 0 _ _ (pre ++ [0xF8]) [] post).
  - cbn -[u32]. rewrite set_offset_twice, set_mfd_twice, set_moffset_twice, u32_add_u32, !Z.add_0_r.
    reflexivity.
  - cbn. rewrite Hb, <- app_assoc. reflexivity.
  - exact Hl.
  - cbn. rewrite Ho, Zlength_app_Z. reflexivity.
  - reflexivity.
Qed.

Lemma os2_sysex_fill_run (g : Z) (body : list Z) :
  forall (done rest : list Z) (t : kmtrk) (m : kmemfd) (pre post : list Z),
  Forall (fun x => x <> 0xF7) body ->
  (List.length body <= List.length rest)%nat ->
  mbuffer m = pre ++ body ++ post ->
  mlength m = Zlength (mbuffer m) ->
  moffset m = Zlength pre ->
  exists t', os2_sysex_fill g (List.length body) (List.length done) (done ++ rest) t m
  = ((List.length done + List.length body)%nat,
     done ++ body ++ skipn (List.length body) rest, t',
     set_moffset m (moffset m + Zlength body)).
Proof.
  induction body as [| x body IH]; intros done rest t m pre post Hall Hr Hb Hl Ho.
  - exists t. cbn. rewrite Nat.add_0_r, set_moffset_add0. reflexivity.
  - inversion Hall as [| ? ? Hx Hrest]; subst.
    destruct rest as [| y rest]; [cbn in Hr; lia |].
    cbn [os2_sysex_fill List.length].
    rewrite (memRead_one m _ pre x (body ++ post) Hb Hl Ho). cbn [hd].
    rewrite (proj2 (Z.eqb_neq x 0xF7) Hx), upd_middle.
    replace (S (List.length done)) with (List.length (done ++ [x]))
      by (rewrite length_app; cbn; lia).
    replace (done ++ x :: rest) with ((done ++ [x]) ++ rest) by (rewrite <- app_assoc; reflexivity).
    destruct (IH (done ++ [x]) rest (set_offset t (u32 (offset t + 1)))
                (set_moffset m (moffset m + 1)) (pre ++ [x]) post Hrest) as [t' E].
    + cbn in Hr. lia.
    + cbn. rewrite Hb, <- app_assoc. reflexivity.
    + cbn. exact Hl.
    + cbn. rewrite Ho, Zlength_app_Z. reflexivity.
    + exists t'. rewrite E, set_moffset_twice, moffset_set_moffset, length_app, <- app_assoc,
        Zlength_cons. cbn [List.length app skipn].
      replace (List.length done + 1 + List.length body)%nat with (List.length done + S (List.length body))%nat by lia.
      replace (moffset m + 1 + Zlength body) with (moffset m + Z.succ (Zlength body)) by lia. reflexivity.
Qed.

(** the second loop never ends when no [0xF7] is left in the file *)
Lemma os2_sysex_drain_none (fuel : nat) :
  forall (s0 : Z) (t : kmtrk) (m : kmemfd),
  mlength m = Zlength (mbuffer m) -> 0 <= moffset m <= mlength m ->
  Forall (fun x => x <> 0xF7) (skipn (Z.to_nat (moffset m)) (mbuffer m)) ->
  (s0 <> 0xF7 \/ moffset m < mlength m) ->
  os2_sysex_drain fuel s0 t m = None.
Proof.
  induction fuel as [| f IH]; intros s0 t m Hl Ho Hall Hs; [reflexivity |].
  cbn [os2_sysex_drain].
  destruct (Z.eq_dec (moffset m) (mlength m)) as [E | E].
  - unfold memRead. rewrite E, Z.eqb_refl, orb_true_r. cbn [hd].
    destruct Hs as [Hs | Hs]; [| lia].
    rewrite (proj2 (Z.eqb_neq s0 0xF7) Hs). reflexivity.
  - remember (skipn (Z.to_nat (moffset m)) (mbuffer m)) as rest eqn:Er.
    destruct rest as [| x rest].
    { exfalso. assert (Hlen := f_equal (@List.length Z) Er).
      rewrite length_skipn in Hlen. cbn in Hlen. rewrite Hl, Zlength_correct in Ho, E. lia. }
    assert (Hm : mbuffer m = firstn (Z.to_nat (moffset m)) (mbuffer m) ++ x :: rest)
      by (rewrite Er; symmetry; apply firstn_skipn).
    assert (Hf : moffset m = Zlength (firstn (Z.to_nat (moffset m)) (mbuffer m))).
    { rewrite Zlength_correct, length_firstn. rewrite Hl, Zlength_correct in Ho. lia. }
    rewrite (memRead_one m s0 _ x rest Hm Hl Hf). cbn [hd].
    inversion Hall as [| ? ? Hx Hrest]; subst.
    rewrite (proj2 (Z.eqb_neq x 0xF7) Hx). cbn [Z.eqb].
    apply IH; cbn [mlength mbuffer moffset set_moffset]; [exact Hl | lia | | left; exact Hx].
    replace (Z.to_nat (moffset m + 1)) with (S (Z.to_nat (moffset m))) by lia.
    rewrite <- (skipn_skipn 1), <- Er. exact Hrest.
Qed.

(** in the real-time capture dialect, a SysEx message with no [F7] before
    the end of the file makes [decodeOS2Event] loop forever, once at least 9
    bytes follow the [F0]. *)
Theorem os2_unterminated_sysex_hangs (g : Z) (t : kmtrk) (d : kmdec) (pre rest : list Z) :
  mlength (mfd d) = Zlength (mbuffer (mfd d)) ->
  moffset (mfd d) = Zlength pre ->
  mbuffer (mfd d) = pre ++ 0xF0 :: rest ->
  Forall (fun x => x <> 0xF7) rest ->
  (9 <= List.length rest)%nat ->
  offset t < length t ->
  decodeOS2Event g t d = Hang.
Proof.
  intros Hl Ho Hb Hall Hr Ht.
  rewrite (os2_event_F0 g t d pre rest Hl Ho Hb Ht).
  unfold decodeOS2SysExEvent.
  assert (Hall9 := Hall). rewrite <- (firstn_skipn 9 rest) in Hall9.
  apply Forall_app in Hall9 as [Hfirst Hlast].
  assert (L9 : List.length (firstn 9 rest) = 9%nat) by (rewrite length_firstn; lia).
  destruct (os2_sysex_fill_run g (firstn 9 rest) [] (repeat g 9) (set_offset t (u32 (offset t + 1)))
              (set_moffset (mfd d) (moffset (mfd d) + 1)) (pre ++ [0xF0]) (skipn 9 rest) Hfirst)
    as [t' E].
  - rewrite L9. reflexivity.
  - cbn [mbuffer set_moffset]. rewrite Hb, firstn_skipn, <- app_assoc. reflexivity.
  - exact Hl.
  - cbn. rewrite Ho, Zlength_app_Z. reflexivity.
  - rewrite L9 in E. cbn [List.length app] in E. rewrite mfd_set_mfd, E. cbn [Nat.eqb].
    rewrite os2_sysex_drain_none; [reflexivity | ..]; cbn [mlength mbuffer moffset set_moffset mfd set_mfd].
    + exact Hl.
    + rewrite Ho, Hl, Hb, !Zlength_app_Z, Zlength_cons, (Zlength_correct (firstn _ _)), L9.
      rewrite !Zlength_correct. rewrite !Zlength_correct in *. lia.
    + rewrite Hb. rewrite Ho, (Zlength_correct (firstn _ _)), L9.
      replace (Z.to_nat (Zlength pre + 1 + Z.of_nat 9)) with (List.length (pre ++ [0xF0%Z]) + 9)%nat
        by (rewrite length_app, Zlength_correct; cbn; lia).
      rewrite Nat.add_comm, <- skipn_skipn.
      replace (pre ++ 240 :: rest) with ((pre ++ [240]) ++ rest) by (rewrite <- app_assoc; reflexivity).
      rewrite skipn_app, skipn_all, Nat.sub_diag. cbn [app skipn].
      exact Hlast.
    + left. destruct rest as [| x rest]; [cbn in Hr; lia |].
      cbn. inversion Hall. assumption.
Qed.

Lemma memSeek_cur_back (m : kmemfd) :
  1 <= moffset m <= mlength m -> memSeek m (-1) KMDEC_SEEK_CUR = Some (set_moffset m (moffset m - 1)).
Proof.
  intro H. unfold memSeek. cbn - [Z.ltb Z.add].
  replace ((moffset m + -1 <? 0) || (mlength m <? moffset m + -1)) with false
    by (symmetry; apply orb_false_iff; split; apply Z.ltb_ge; lia).
  reflexivity.
Qed.

Lemma decodeDelta_vlq (g : Z) (t : kmtrk) (d : kmdec) (pre post : list Z) (v : Z) :
  mlength (mfd d) = Zlength (mbuffer (mfd d)) ->
  moffset (mfd d) = Zlength pre ->
  0 <= v < 2 ^ 28 ->
  mbuffer (mfd d) = pre ++ vlq_encode v ++ post ->
  offset t < length t ->
  decodeDelta g t d
  = Ret tt (set_nextTick (set_offset t (u32 (offset t + Zlength (vlq_encode v))))
              (u32 (nextTick t + v)))
      (set_mfd d (set_moffset (mfd d) (moffset (mfd d) + Zlength (vlq_encode v)))).
Proof.
  intros Hl Ho Hv Hb Ht. unfold decodeDelta.
  replace (length t <=? offset t) with false by (symmetry; apply Z.leb_gt; lia).
  unfold bind. rewrite (readVarQ_vlq_at g t d pre post v Hl Ho Hv Hb). reflexivity.
Qed.

Lemma status_nibbles (ch : Z) : 0 <= ch < 16 ->
  Z.land (0x90 + ch) 0xF0 = 0x90 /\ Z.land (0x90 + ch) 0x0F = ch.
Proof.
  intro H.
  assert (ch = 0 \/ ch = 1 \/ ch = 2 \/ ch = 3 \/ ch = 4 \/ ch = 5 \/ ch = 6 \/ ch = 7 \/
          ch = 8 \/ ch = 9 \/ ch = 10 \/ ch = 11 \/ ch = 12 \/ ch = 13 \/ ch = 14 \/ ch = 15)
    as Hc by lia.
  repeat destruct Hc as [-> | Hc]; [..| subst]; split; reflexivity.
Qed.

Lemma set_mfd_emit (d : kmdec) (m : kmemfd) (c : synth_call) :
  set_mfd (emit d c) m = emit (set_mfd d m) c.
Proof. reflexivity. Qed.

Ltac cmp_ch :=
  repeat match goal with
  | |- context [?a =? ?b] =>
      first [replace (a =? b) with false by (symmetry; apply Z.eqb_neq; lia)
            | replace (a =? b) with true by (symmetry; apply Z.eqb_eq; lia)]
  | |- context [?a <? ?b] =>
      first [replace (a <? b) with false by (symmetry; apply Z.ltb_ge; lia)
            | replace (a <? b) with true by (symmetry; apply Z.ltb_lt; lia)]
  | |- context [?a <=? ?b] =>
      first [replace (a <=? b) with false by (symmetry; apply Z.leb_gt; lia)
            | replace (a <=? b) with true by (symmetry; apply Z.leb_le; lia)]
  end.

(** a Note On [9n kk vv] followed by its delta is decoded the same way with
    an explicit status byte and, when the track's running status is [9n],
    without it: one [noteon] call, the status stored, the next tick advanced
    by the delta modulo 2^32. *)
Theorem note_on_running_status (g : Z) (t : kmtrk) (d : kmdec) (pre post : list Z)
    (ch k v delta : Z) :
  mlength (mfd d) = Zlength (mbuffer (mfd d)) ->
  start t + offset t = Zlength pre ->
  0 <= ch < 16 -> 0 <= k < 128 -> 0 <= v < 128 -> 0 <= delta < 2 ^ 28 ->
  0 <= offset t -> length t < 2 ^ 32 ->
  (offset t + 3 + Zlength (vlq_encode delta) <= length t ->
   mbuffer (mfd d) = pre ++ [0x90 + ch; k; v] ++ vlq_encode delta ++ post ->
   decodeEvent g t d
   = Ret tt (mkTrk (start t) (length t) (offset t + 3 + Zlength (vlq_encode delta))
               (u32 (nextTick t + delta)) (0x90 + ch))
       (emit (set_mfd d (set_moffset (mfd d) (Zlength pre + 3 + Zlength (vlq_encode delta))))
          (SNoteOn ch k v)))
  /\ (offset t + 2 + Zlength (vlq_encode delta) <= length t ->
      status t = 0x90 + ch ->
      mbuffer (mfd d) = pre ++ [k; v] ++ vlq_encode delta ++ post ->
      decodeEvent g t d
      = Ret tt (mkTrk (start t) (length t) (offset t + 2 + Zlength (vlq_encode delta))
                  (u32 (nextTick t + delta)) (0x90 + ch))
          (emit (set_mfd d (set_moffset (mfd d) (Zlength pre + 2 + Zlength (vlq_encode delta))))
             (SNoteOn ch k v))).
Proof.
  intros Hl Hp Hch Hk Hv Hdl Ho Hlen.
  pose proof (vlq_encode_len delta) as Hvl.
  assert (Hpre : 0 <= Zlength pre) by (rewrite Zlength_correct; lia).
  assert (Hpost : 0 <= Zlength post) by (rewrite Zlength_correct; lia).
  destruct (status_nibbles ch Hch) as [Hev Hchn].
  split.
  - intros Hend Hb.
    assert (HL : mlength (mfd d) = Zlength pre + 3 + Zlength (vlq_encode delta) + Zlength post)
      by (rewrite Hl, Hb, !Zlength_app_Z; change (Zlength [0x90 + ch; k; v]) with 3; lia).
    unfold decodeEvent.
    replace (length t <=? offset t) with false by (symmetry; apply Z.leb_gt; lia).
    rewrite memSeek_set by lia.
    unfold read_status.
    rewrite (memRead_one _ g pre (0x90 + ch) ([k; v] ++ vlq_encode delta ++ post)); [| exact Hb | exact Hl | cbn; lia].
    cbn [hd]. cmp_ch. rewrite Hev, Hchn. unfold bind. cmp_ch. cbn [orb andb].
    cbn [ret].
    rewrite (read_data_at g 2 _ _ (pre ++ [0x90 + ch]) [k; v] (vlq_encode delta ++ post));
      cbn [mfd set_mfd set_moffset mbuffer mlength moffset];
      [| rewrite Hb, <- app_assoc; reflexivity | exact Hl | rewrite Zlength_app_Z; cbn; lia | reflexivity].
    cbn [nth]. rewrite !land_7F_small by lia. cbn [channel_call emit_opt Z.eqb Pos.eqb].
    rewrite (decodeDelta_vlq g _ _ (pre ++ [0x90 + ch; k; v]) post delta);
      cbn [mfd set_mfd emit set_moffset mbuffer mlength moffset offset length set_offset set_status];
      [| exact Hl | rewrite Zlength_app_Z; cbn; lia | exact Hdl | rewrite Hb, <- app_assoc; reflexivity
       | rewrite !u32_add_u32; rewrite u32_id by lia; lia].
    rewrite !u32_add_u32. rewrite u32_id by lia.
    destruct t as [s0 l0 o0 n0 st0].
    cbn [set_nextTick set_offset set_status offset nextTick status start length] in *.
    rewrite set_mfd_emit, !set_mfd_twice, !set_moffset_twice.
    rewrite (u32_id (o0 + 1 + 2 + Zlength (vlq_encode delta))) by lia.
    replace (o0 + 1 + 2 + Zlength (vlq_encode delta)) with (o0 + 3 + Zlength (vlq_encode delta)) by lia.
    replace (s0 + o0 + 1 + 2 + Zlength (vlq_encode delta))
      with (Zlength pre + 3 + Zlength (vlq_encode delta)) by lia.
    reflexivity.
  - intros Hend Hs Hb.
    assert (HL : mlength (mfd d) = Zlength pre + 2 + Zlength (vlq_encode delta) + Zlength post)
      by (rewrite Hl, Hb, !Zlength_app_Z; change (Zlength [k; v]) with 2; lia).
    unfold decodeEvent.
    replace (length t <=? offset t) with false by (symmetry; apply Z.leb_gt; lia).
    rewrite memSeek_set by lia.
    unfold read_status.
    rewrite (memRead_one _ g pre k ([v] ++ vlq_encode delta ++ post)); [| exact Hb | exact Hl | cbn; lia].
    cbn [hd]. cmp_ch.
    rewrite memSeek_cur_back by (cbn; lia).
    cbn [status set_offset]. rewrite Hs. cmp_ch. rewrite Hev, Hchn. unfold bind. cmp_ch. cbn [orb andb].
    rewrite offset_set_offset, !moffset_set_moffset, !set_moffset_twice, set_offset_twice.
    rewrite (u32_id (offset t + 1)) by lia.
    replace (offset t + 1 - 1) with (offset t) by lia. rewrite (u32_id (offset t)) by lia.
    replace (start t + offset t + 1 - 1) with (Zlength pre) by lia.
    cbn [ret].
    rewrite (read_data_at g 2 _ _ pre [k; v] (vlq_encode delta ++ post));
      cbn [mfd set_mfd set_moffset mbuffer mlength moffset];
      [| exact Hb | exact Hl | reflexivity | reflexivity].
    cbn [nth]. rewrite !land_7F_small by lia. cbn [channel_call emit_opt Z.eqb Pos.eqb].
    rewrite (decodeDelta_vlq g _ _ (pre ++ [k; v]) post delta);
      cbn [mfd set_mfd emit set_moffset mbuffer mlength moffset offset length set_offset set_status];
      [| exact Hl | rewrite Zlength_app_Z; cbn; lia | exact Hdl | rewrite Hb, <- app_assoc; reflexivity
       | rewrite u32_id by lia; lia].
    rewrite !u32_add_u32.
    destruct t as [s0 l0 o0 n0 st0].
    cbn [set_nextTick set_offset set_status offset nextTick status start length] in *.
    rewrite set_mfd_emit, !set_mfd_twice, !set_moffset_twice.
    rewrite (u32_id (o0 + 2 + Zlength (vlq_encode delta))) by lia.
    reflexivity.
Qed.

Lemma nth_last_Z (body : list Z) (x g : Z) :
  nth (Z.to_nat (Zlength body + 1 - 1)) (body ++ [x]) g = x.
Proof.
  replace (Zlength body + 1 - 1) with (Zlength body) by lia.
  rewrite Zlength_correct, Nat2Z.id, app_nth2, Nat.sub_diag by lia. reflexivity.
Qed.

(** an SMF SysEx event [F0 len data] is accepted (its bytes skipped, then
    the delta read) exactly when its last data byte is [F7]; otherwise
    decoding fails just after its data. *)
Theorem sysex_needs_terminator (g : Z) (t : kmtrk) (d : kmdec) (pre post body : list Z) (x delta : Z) :
  let len := Zlength body + 1 in
  let n := 1 + Zlength (vlq_encode len) + len in
  mlength (mfd d) = Zlength (mbuffer (mfd d)) ->
  start t + offset t = Zlength pre ->
  len < 2 ^ 28 -> 0 <= delta < 2 ^ 28 ->
  0 <= offset t -> offset t + n + Zlength (vlq_encode delta) <= length t < 2 ^ 32 ->
  mbuffer (mfd d) = pre ++ [0xF0] ++ vlq_encode len ++ (body ++ [x]) ++ vlq_encode delta ++ post ->
  decodeEvent g t d
  = if x =? 0xF7 then
      Ret tt (mkTrk (start t) (length t) (offset t + n + Zlength (vlq_encode delta))
                (u32 (nextTick t + delta)) (status t))
        (set_mfd d (set_moffset (mfd d) (Zlength pre + n + Zlength (vlq_encode delta))))
    else
      Fail (mkTrk (start t) (length t) (offset t + n) (nextTick t) (status t))
        (set_mfd d (set_moffset (mfd d) (Zlength pre + n))).
Proof.
  intros len n Hl Hp Hlen Hdl Ho Hend Hb.
  pose proof (vlq_encode_len delta) as Hvd. pose proof (vlq_encode_len len) as Hvl.
  assert (Hbody : 0 <= Zlength body) by (rewrite Zlength_correct; lia).
  assert (Hpre : 0 <= Zlength pre) by (rewrite Zlength_correct; lia).
  assert (Hpost : 0 <= Zlength post) by (rewrite Zlength_correct; lia).
  assert (HL : mlength (mfd d) = Zlength pre + n + Zlength (vlq_encode delta) + Zlength post).
  { rewrite Hl, Hb, !Zlength_app_Z. subst n len. cbn [Zlength Zlength_aux]. lia. }
  unfold decodeEvent.
  replace (length t <=? offset t) with false by (symmetry; apply Z.leb_gt; lia).
  rewrite memSeek_set by lia.
  unfold read_status.
  rewrite (memRead_one _ g pre 0xF0 (vlq_encode len ++ (body ++ [x]) ++ vlq_encode delta ++ post));
    [| exact Hb | exact Hl | cbn; lia].
  cbn [hd]. change (Z.land 0xF0 0xF0) with 0xF0. change (Z.land 0xF0 0x0F) with 0.
  cmp_ch. cbn [orb]. unfold bind.
  rewrite (readVarQ_vlq_at g _ _ (pre ++ [0xF0]) ((body ++ [x]) ++ vlq_encode delta ++ post) len);
    cbn [mfd set_mfd set_moffset mbuffer mlength moffset];
    [| exact Hl | rewrite Zlength_app_Z; change (Zlength [0xF0]) with 1; lia | lia | rewrite Hb, <- !app_assoc; reflexivity].
  rewrite (read_data_at g len _ _ (pre ++ [0xF0] ++ vlq_encode len) (body ++ [x]) (vlq_encode delta ++ post));
    cbn [mfd set_mfd set_moffset mbuffer mlength moffset];
    [| rewrite Hb, <- !app_assoc; reflexivity | exact Hl | rewrite !Zlength_app_Z; change (Zlength [0xF0]) with 1; lia
     | rewrite Zlength_app_Z; reflexivity].
  replace (len =? 0) with false by (symmetry; apply Z.eqb_neq; lia).
  subst len. rewrite nth_last_Z. fold (Zlength body + 1).
  rewrite ?set_offset_twice, ?offset_set_offset, ?set_mfd_twice, ?set_moffset_twice,
    ?moffset_set_moffset, ?u32_add_u32.
  change (Z.land 240 240) with 240. change (Z.land 240 15) with 0.
  rewrite (u32_id (offset t + 1)) by lia.
  destruct (Z.eqb_spec x 0xF7) as [-> | Hx]; cbn [negb andb Z.eqb Pos.eqb].
  - cbn [channel_call emit_opt Z.eqb Pos.eqb].
    rewrite (decodeDelta_vlq g _ _ (pre ++ [0xF0] ++ vlq_encode (Zlength body + 1) ++ body ++ [0xF7]) post delta);
      cbn [mfd set_mfd set_moffset mbuffer mlength moffset offset length set_offset];
      [| exact Hl | rewrite !Zlength_app_Z; change (Zlength [0xF0]) with 1; change (Zlength [0xF7]) with 1; lia | exact Hdl
       | rewrite Hb, <- !app_assoc; reflexivity | rewrite u32_id by (subst n; lia); subst n; lia].
    destruct t as [s0 l0 o0 n0 st0].
    cbn [set_nextTick set_offset set_status offset nextTick status start length] in *.
    rewrite !set_mfd_twice, !set_moffset_twice, !u32_add_u32.
    subst n. unfold set_nextTick, set_offset. cbn [offset start length nextTick status].
    f_equal; [f_equal; rewrite u32_id; lia | f_equal; f_equal; lia].
  - cbn [negb andb].
    destruct t as [s0 l0 o0 n0 st0].
    cbn [set_nextTick set_offset set_status offset nextTick status start length] in *.
    subst n. unfold set_offset. cbn [offset start length nextTick status].
    f_equal; [f_equal; rewrite u32_id; lia | f_equal; f_equal; lia].
Qed.

Ltac frame_le := repeat match goal with |- forall _, _ => intro end; assumption.

Lemma decodeTrackEvent_bufLen (g : Z) (d : kmdec) (t : kmtrk) (d0 : kmdec) :
  0 <= bufLen d0 -> holds (fun _ d' => 0 <= bufLen d') (decodeTrackEvent g d t d0).
Proof.
  intro H. unfold decodeTrackEvent.
  destruct (format d =? OS2MIDI).
  - apply decodeOS2Event_keeps; [frame_le .. | exact H].
  - apply decodeEvent_keeps; [frame_le .. | exact H].
Qed.

Lemma decode_tracks_bufLen (g : Z) (ts : list kmtrk) :
  forall pre nt d, 0 <= bufLen d ->
  tframe (fun d' => 0 <= bufLen d') (decode_tracks g pre ts nt d).
Proof.
  induction ts as [| t rest IH]; intros pre nt d Hd; cbn [decode_tracks].
  - exact Hd.
  - destruct (nextTick t <=? tick d).
    + pose proof (decodeTrackEvent_bufLen g d t d Hd) as K.
      destruct (decodeTrackEvent g d t d) as [u t' d1 | t' d1 | |]; cbn [holds] in K;
        cbn [tframe]; try exact I.
      * apply IH. exact K.
      * exact K.
    + apply IH. exact Hd.
Qed.

Lemma advance_bufLen (mode : Z) (d : kmdec) (nt r : Z) (d' : kmdec) :
  0 <= bufLen d -> advance mode d nt = DRet r d' -> 0 <= bufLen d'.
Proof.
  intros Hb. unfold advance. cbv zeta.
  destruct (tempo d =? 0); [discriminate |].
  destruct (mode =? DECODE_PLAY).
  - destruct (cdiv32 _ _) as [samples |]; [| discriminate].
    destruct (s32 (samples * sampleSize d) <? 0) eqn:E.
    + intro H. injection H as _ <-. exact Hb.
    + destruct (_ =? 0); [discriminate |].
      intro H. injection H as _ <-. cbn. apply Z.ltb_ge in E. exact E.
  - destruct (_ =? 0); [discriminate |].
    intro H. injection H as _ <-. exact Hb.
Qed.

Lemma decode_bufLen (g : Z) (d : kmdec) (mode r : Z) (d' : kmdec) :
  0 <= bufLen d -> decode g d mode = DRet r d' -> 0 <= bufLen d'.
Proof.
  intro Hb. unfold decode.
  pose proof (decode_tracks_bufLen g (tracks d) [] END_OF_TRACK d Hb) as K.
  destruct (decode_tracks g [] (tracks d) END_OF_TRACK d) as [d1 n | d1 | |];
    cbn [tframe] in K; try discriminate.
  - destruct (n =? END_OF_TRACK); [intro H; injection H as _ <-; exact K |].
    destruct (tick d1 <? n); [apply advance_bufLen; exact K |].
    intro H. injection H as _ <-. exact K.
  - intro H. injection H as _ <-. exact K.
Qed.

Lemma decode_loop_bounded (g : Z) (fuel : nat) :
  forall d size total d' n, 0 <= bufLen d ->
  decode_loop g fuel d size total = Done (d', n) ->
  total <= n <= total + Z.max 0 size /\ 0 <= bufLen d'.
Proof.
  induction fuel as [| f IH]; intros d size total d' n Hb; cbn [decode_loop]; [discriminate |].
  destruct (size <=? 0) eqn:Es.
  - intro H. injection H as <- <-. lia.
  - apply Z.leb_gt in Es.
    destruct (bufLen d =? 0) eqn:Eb.
    + destruct (decode g d DECODE_PLAY) as [r d1 | |] eqn:Ed; try discriminate.
      pose proof (decode_bufLen g d DECODE_PLAY r d1 Hb Ed) as Hb1.
      destruct (r =? -1); [intro H; injection H as <- <-; lia |].
      intro H. apply IH in H; [cbn [bufLen set_buf] in H |- *; lia | cbn; lia].
    + destruct (0 =? -1) eqn:E0; [discriminate |].
      intro H. apply IH in H; [cbn [bufLen set_buf] in H |- *; lia | cbn; lia].
Qed.

(** [kmdecDecode] never reports more bytes than were asked for: the total it
    returns lies between 0 and [size], and the decoder's pending byte count
    stays non-negative. *)
Theorem kmdecDecode_total_bounded (g : Z) (fuel : nat) (d d' : kmdec) (size n : Z) :
  0 <= bufLen d ->
  kmdecDecode g fuel (Some d) size = Done (Some d', n) ->
  0 <= n <= Z.max 0 size /\ 0 <= bufLen d'.
Proof.
  intro Hb. unfold kmdecDecode.
  destruct (decode_loop g fuel d size 0) as [[d1 n1] | | |] eqn:E; try discriminate.
  intro H. injection H as <- <-.
  apply decode_loop_bounded in E; [lia | exact Hb].
Qed.

Ltac wit_side := first [reflexivity | lia | (cbn; lia) | (repeat constructor; lia)].

Lemma meta_tempo_sets_tempo_witness :
  decodeMetaEvent 0 (mkTrk 0 6 0 0 0)
    (set_mfd (new_dec []) (mkMem [0xFF; 0x51; 3; 7; 0xA1; 0x20; 0] 7 1))
  = Ret tt (mkTrk 0 6 5 0 0)
      (set_tempo (set_mfd (new_dec []) (mkMem [0xFF; 0x51; 3; 7; 0xA1; 0x20; 0] 7 6)) 500000).
Proof.
  rewrite (meta_tempo_sets_tempo 0 _ _ [0xFF] [0] 7 0xA1 0x20) by wit_side.
  reflexivity.
Defined.

Lemma meta_timesig_power_of_two_witness :
  decodeMetaEvent 0 (mkTrk 0 7 0 0 0)
    (set_mfd (new_dec []) (mkMem [0xFF; 0x58; 4; 6; 3; 24; 8; 0] 8 1))
  = Ret tt (mkTrk 0 7 6 0 0)
      (set_timesig (set_mfd (new_dec []) (mkMem [0xFF; 0x58; 4; 6; 3; 24; 8; 0] 8 7)) 6 8).
Proof.
  rewrite (meta_timesig_power_of_two 0 _ _ [0xFF] [0] 6 3 24 8) by wit_side.
  reflexivity.
Defined.

Lemma meta_end_of_track_at_end_witness :
  decodeMetaEvent 0 (mkTrk 0 2 0 0 0) (set_mfd (new_dec []) (mkMem [0xFF; 0x2F; 0] 3 1))
  = Ret tt (mkTrk 0 2 2 0 0) (set_mfd (new_dec []) (mkMem [0xFF; 0x2F; 0] 3 3))
  /\ decodeMetaEvent 0 (mkTrk 0 5 0 0 0) (set_mfd (new_dec []) (mkMem [0xFF; 0x2F; 0] 3 1))
     = Fail (mkTrk 0 5 2 0 0) (set_mfd (new_dec []) (mkMem [0xFF; 0x2F; 0] 3 3)).
Proof.
  split.
  - rewrite (meta_end_of_track_at_end 0 _ _ [0xFF] []) by wit_side. reflexivity.
  - rewrite (meta_end_of_track_at_end 0 _ _ [0xFF] []) by wit_side. reflexivity.
Defined.

Lemma meta_other_skipped_witness :
  decodeMetaEvent 0 (mkTrk 0 6 0 0 0)
    (set_mfd (new_dec []) (mkMem [0xFF; 0x01; 3; 65; 66; 67; 0] 7 1))
  = Ret tt (mkTrk 0 6 5 0 0) (set_mfd (new_dec []) (mkMem [0xFF; 0x01; 3; 65; 66; 67; 0] 7 6))
  /\ decodeMetaEvent 0 (mkTrk 0 6 0 0 0)
       (set_mfd (new_dec []) (mkMem [0xFF; 0x59; 3; 1; 0; 0; 0] 7 1))
     = Fail (mkTrk 0 6 5 0 0) (set_mfd (new_dec []) (mkMem [0xFF; 0x59; 3; 1; 0; 0; 0] 7 6)).
Proof.
  split.
  - rewrite (meta_other_skipped 0 0x01 3 [65; 66; 67] _ _ [0xFF] [0]) by wit_side. reflexivity.
  - rewrite (meta_other_skipped 0 0x59 3 [1; 0; 0] _ _ [0xFF] [0]) by wit_side. reflexivity.
Defined.

Lemma os2_long_timing_witness :
  decodeOS2Event 0 (mkTrk 0 8 0 100 0) (new_dec [0xF0; 0; 0; 0x3A; 1; 0x10; 0x02; 0xF7])
  = Ret tt (mkTrk 0 8 8 372 0)
      (set_mfd (new_dec []) (mkMem [0xF0; 0; 0; 0x3A; 1; 0x10; 0x02; 0xF7] 8 8)).
Proof.
  rewrite (os2_long_timing 0 _ _ [] [] 0x10 0x02) by wit_side.
  reflexivity.
Defined.

Lemma os2_short_timing_witness :
  decodeOS2Event 0 (mkTrk 0 6 0 100 0) (new_dec [0xF0; 0; 0; 0x3A; 0x20; 0xF7])
  = Ret tt (mkTrk 0 6 6 132 0) (set_mfd (new_dec []) (mkMem [0xF0; 0; 0; 0x3A; 0x20; 0xF7] 6 6)).
Proof.
  rewrite (os2_short_timing 0 _ _ [] [] 0x20) by wit_side.
  reflexivity.
Defined.

Lemma os2_tempo_control_witness :
  decodeOS2Event 0 (mkTrk 0 9 0 0 0) (new_dec [0xF0; 0; 0; 0x3A; 3; 2; 104; 7; 0xF7])
  = Ret tt (mkTrk 0 9 9 0 0)
      (set_tempo (set_mfd (new_dec []) (mkMem [0xF0; 0; 0; 0x3A; 3; 2; 104; 7; 0xF7] 9 9)) 600000)
  /\ decodeOS2Event 0 (mkTrk 0 9 0 0 0) (new_dec [0xF0; 0; 0; 0x3A; 3; 2; 5; 0; 0xF7]) = Crash.
Proof.
  split.
  - rewrite (os2_tempo_control 0 _ _ [] [] 104 7) by wit_side. reflexivity.
  - rewrite (os2_tempo_control 0 _ _ [] [] 5 0) by wit_side. reflexivity.
Defined.

Lemma os2_clock_tick_witness :
  decodeOS2Event 0 (mkTrk 0 1 0 41 0) (new_dec [0xF8])
  = Ret tt (mkTrk 0 1 1 42 0) (set_mfd (new_dec []) (mkMem [0xF8] 1 1)).
Proof.
  rewrite (os2_clock_tick 0 _ _ [] []) by wit_side.
  reflexivity.
Defined.

Lemma os2_unterminated_sysex_hangs_witness :
  decodeOS2Event 0 (mkTrk 0 10 0 0 0) (new_dec [0xF0; 1; 2; 3; 4; 5; 6; 7; 8; 9]) = Hang.
Proof.
  apply (os2_unterminated_sysex_hangs 0 _ _ [] [1; 2; 3; 4; 5; 6; 7; 8; 9]); wit_side.
Defined.

Lemma note_on_running_status_witness :
  decodeEvent 0 (mkTrk 1 5 0 0 0) (new_dec [0xFF; 0x93; 60; 100; 10; 0])
  = Ret tt (mkTrk 1 5 4 10 0x93)
      (emit (set_mfd (new_dec []) (mkMem [0xFF; 0x93; 60; 100; 10; 0] 6 5)) (SNoteOn 3 60 100))
  /\ decodeEvent 0 (mkTrk 1 4 0 0 0x93) (new_dec [0xFF; 60; 100; 10; 0])
     = Ret tt (mkTrk 1 4 3 10 0x93)
         (emit (set_mfd (new_dec []) (mkMem [0xFF; 60; 100; 10; 0] 5 4)) (SNoteOn 3 60 100)).
Proof.
  split.
  - rewrite (proj1 (note_on_running_status 0 (mkTrk 1 5 0 0 0) (new_dec [0xFF; 0x93; 60; 100; 10; 0])
              [0xFF] [0] 3 60 100 10 eq_refl eq_refl ltac:(lia) ltac:(lia) ltac:(lia) ltac:(lia)
              ltac:(cbn; lia) ltac:(cbn; lia))) by wit_side.
    reflexivity.
  - rewrite (proj2 (note_on_running_status 0 (mkTrk 1 4 0 0 0x93) (new_dec [0xFF; 60; 100; 10; 0])
              [0xFF] [0] 3 60 100 10 eq_refl eq_refl ltac:(lia) ltac:(lia) ltac:(lia) ltac:(lia)
              ltac:(cbn; lia) ltac:(cbn; lia))) by wit_side.
    reflexivity.
Defined.

Lemma sysex_needs_terminator_witness :
  decodeEvent 0 (mkTrk 1 6 0 0 0x90) (new_dec [0xFF; 0xF0; 2; 0x7E; 0xF7; 5; 0])
  = Ret tt (mkTrk 1 6 5 5 0x90) (set_mfd (new_dec []) (mkMem [0xFF; 0xF0; 2; 0x7E; 0xF7; 5; 0] 7 6))
  /\ decodeEvent 0 (mkTrk 1 6 0 0 0x90) (new_dec [0xFF; 0xF0; 2; 0x7E; 0; 5; 0])
     = Fail (mkTrk 1 6 4 0 0x90) (set_mfd (new_dec []) (mkMem [0xFF; 0xF0; 2; 0x7E; 0; 5; 0] 7 5)).
Proof.
  split.
  - rewrite (sysex_needs_terminator 0 _ _ [0xFF] [0] [0x7E] 0xF7 5) by wit_side. reflexivity.
  - rewrite (sysex_needs_terminator 0 _ _ [0xFF] [0] [0x7E] 0 5) by wit_side. reflexivity.
Defined.

Lemma kmdecDecode_total_bounded_witness :
  kmdecDecode 0 2 (Some (set_buf (new_dec []) 5 0)) 3 = Done (Some (set_buf (new_dec []) 2 3), 3)
  /\ 0 <= 3 <= Z.max 0 3 /\ 0 <= bufLen (set_buf (new_dec []) 2 3).
Proof.
  split; [reflexivity |].
  apply (kmdecDecode_total_bounded 0 2 (set_buf (new_dec []) 5 0) _ 3 3); [cbn; lia | reflexivity].
Defined.
